(** * pkl-proxy: credential cache, authenticating transport and release router

    A shallow embedding of [auth.go], both variants of [proxy.go], the
    start-up code that builds the token source, [config.go] and the
    dispatching and start-up parts of [main.go], followed by the properties
    of that code.

    Conventions of the embedding.
    - Go's [error] is its message, a [string]; [fmt.Errorf] with [%w] is
      string concatenation.  A Go function returning [(T, error)] is a
      [result T].
    - Go's [int] and [int64] are [Z]; the conversions [int64(x)] of the source
      are the identity on the 64-bit platforms the program is built for.
    - Objects that the program compares by identity (token sources) live in a
      heap; a reference is the index at which the object was allocated.
    - Everything the program asks of the outside (the GitHub API, the
      githubauth library, net/url, encoding/json) is a field of [World].  The
      answers may change over time, so the stateful ones receive the history
      of interactions so far.  What [config.go] and [main.go] ask of the
      machine (files, directories, the pkl loader) is a field of [Host].
    - Every call that leaves the program is recorded in [trace], together
      with markers for the calls the properties count (a factory run, a
      lookup, a discovery).  Logging through [slog] is left out.
    - The proxy's own [http.Client] has the [GithubTripper] as transport, so
      the redirects it follows run the tripper again; they are modelled hop
      by hop.  The [http.ServeMux] is modelled with its redirect to the
      canonical path and its percent-decoding of segments, for every method
      but CONNECT.
    - [tm.mu] is not modelled: a function body that runs under the lock is
      one step of the state, and concurrent callers are a sequence of such
      steps in some order.  *)

From Stdlib Require Import ZArith Ascii DecimalString Lia.
From stdpp Require Import base gmap strings list.

(** ** Go prelude *)

Definition error := string.

Inductive result (A : Type) : Type :=
| Ok (a : A)
| Err (e : error).
Arguments Ok {A} a.
Arguments Err {A} e.

Definition is_Ok {A} (r : result A) : bool :=
  match r with Ok _ => true | Err _ => false end.

(** [strconv.Itoa] / the [%d] verb. *)
Definition itoa (z : Z) : string := NilZero.string_of_int (Z.to_int z).

Definition nl : string := String (Ascii.ascii_of_nat 10) EmptyString.

(** ** net/http data *)

Record repoInfo := { Owner : string; Repo : string }.

(** The only value the program ever stores in a [context.Context] is the
    [repoInfo] under [repoContextKey]; a context is that optional binding. *)
Definition GoContext := option repoInfo.

Record Request := {
  Method : string;
  URL : string;
  Header : gmap string string;
  Ctx : GoContext;
  PathValues : gmap string string
}.

Record Response := {
  StatusCode : Z;
  Status : string;
  RespHeader : gmap string string;
  Body : string
}.

(** [resp.Header.Get("Location")] *)
Definition Location (resp : Response) : string :=
  default EmptyString (RespHeader resp !! "Location").

Definition StatusOK : Z := 200.
Definition StatusMovedPermanently : Z := 301.
Definition StatusNotFound : Z := 404.
Definition StatusInternalServerError : Z := 500.
Definition MethodGet : string := "GET".

(** [req.Header.Set(k, v)] *)
Definition Header_Set (k v : string) (req : Request) : Request :=
  {| Method := Method req; URL := URL req;
     Header := <[k := v]> (Header req);
     Ctx := Ctx req; PathValues := PathValues req |}.

(** [r.PathValue(name)]: the empty string when the wildcard is absent. *)
Definition PathValue (r : Request) (name : string) : string :=
  default EmptyString (PathValues r !! name).

(** ** oauth2 / githubauth data *)

Record Token := { AccessToken : string }.

Abbreviation ref := nat.

Inductive AppIdent :=
| IdNumber (appId : Z)
| IdClient (clientId : string).

Inductive TokenSourceObj :=
| ApplicationTS (ident : AppIdent) (privateKey : string)
| InstallationTS (installationID : Z) (appTokenSource : ref).

Abbreviation Heap := (list TokenSourceObj).

Record ghAccount := { Login : string }.

Record ghInstallation := {
  ID : Z;
  Account : ghAccount;
  RepositorySelection : string
}.

Record githubFileAsset := {
  Name : string;
  ContentType : string;
  BrowserDownloadURL : string;
  AssetURL : string  (* the Go field [URL], JSON [url] *)
}.

Record githubFilesReponse := { Assets : list githubFileAsset }.

(** [appconfig.AppConfig], the fields read by the code under study. *)
Record AppConfig := {
  AppId : option Z;
  ClientId : option string;
  InstallationId : option Z
}.

(** ** Interaction trace *)

Inductive Event :=
| EvFactory (owner : string) (ts : ref)
    (* getOrSetSource ran its factory for [owner]; the factory returned [ts] *)
| EvToken (ts : ref)
    (* [ts.Token()] *)
| EvLookup (owner repo : string)
    (* lookupRepoInstallation(owner, repo) was entered *)
| EvDiscover
    (* discoverInstallations was entered *)
| EvHTTP (req : Request)
    (* req handed to http.DefaultTransport (directly or by http.DefaultClient) *)
| EvPrint (text : string).
    (* fmt.Printf / fmt.Println on standard output *)

(** ** The outside world *)

Record World := {
  (* githubauth.NewApplicationTokenSource rejects a malformed key *)
  ws_appKeyError : AppIdent -> string -> option error;
  (* what [ts.Token()] answers, given the history *)
  ws_Token : list Event -> ref -> result Token;
  (* what the network answers to a request, given the history *)
  ws_RoundTrip : list Event -> Request -> result Response;
  (* http.NewRequest rejects a URL it cannot parse *)
  ws_urlError : string -> option error;
  (* URL.JoinPath of net/url, followed by String() *)
  ws_JoinPath : string -> list string -> string;
  (* the url.Error in which http.Client.Do wraps an error: it names the
     method and the URL of the request *)
  ws_clientError : Request -> error -> error;
  (* req.URL.Parse(loc) followed by String(): the Location of a redirect
     resolved against the URL of the request it answers; the error is the
     client's "failed to parse Location header" *)
  ws_resolveReference : string -> string -> result string;
  (* the headers http.Client gives the next hop of a redirect, from the
     request first handed to Do, the request just answered and the next
     URL: the first request's headers, without the sensitive ones when the
     host changes, and a Referer *)
  ws_redirectHeader : Request -> Request -> string -> gmap string string;
  (* the HTML body http.Redirect writes when it sends a GET elsewhere *)
  ws_redirectBody : string -> string;
  (* encoding/json *)
  ws_decodeInstallation : string -> result ghInstallation;
  ws_decodeInstallations : string -> result (list ghInstallation);
  ws_decodeRelease : string -> result githubFilesReponse
}.

(** ** Program state and the monad of the embedding *)

Record State := {
  heap : Heap;
  cache : gmap string ref;   (* tm.cache : owner -> token source *)
  trace : list Event
}.

Definition M (A : Type) : Type := State -> result A * State.

Definition ret {A} (a : A) : M A := fun s => (Ok a, s).
Definition fail {A} (e : error) : M A := fun s => (Err e, s).
Definition bind {A B} (c : M A) (f : A -> M B) : M B :=
  fun s => match c s with
           | (Ok a, s') => f a s'
           | (Err e, s') => (Err e, s')
           end.
(** [if err != nil { return ..., fmt.Errorf(prefix + ": %w", err) }] *)
Definition wrapErr {A} (prefix : string) (c : M A) : M A :=
  fun s => match c s with
           | (Err e, s') => (Err (prefix +:+ e), s')
           | r => r
           end.
Definition lift {A} (r : result A) : M A := fun s => (r, s).

Declare Scope go_scope.
Delimit Scope go_scope with go.
Notation "x <- c ;; k" := (bind c (fun x => k))
  (at level 100, c at next level, right associativity) : go_scope.
Notation "c ;;; k" := (bind c (fun _ => k))
  (at level 100, right associativity) : go_scope.
Open Scope go_scope.

(** The state after one more interaction. *)
Definition log (ev : Event) (s : State) : State :=
  {| heap := heap s; cache := cache s; trace := trace s ++ [ev] |}.

Definition emit (ev : Event) : M unit := fun s => (Ok tt, log ev s).

Definition alloc (o : TokenSourceObj) : Heap -> ref * Heap :=
  fun h => (List.length h, h ++ [o]).

Definition run_alloc (f : Heap -> ref * Heap) : M ref :=
  fun s => let '(r, h') := f (heap s) in
           (Ok r, {| heap := h'; cache := cache s; trace := trace s |}).

(** A step that cannot fail. *)
Definition total {A} (c : State -> A * State) : M A :=
  fun s => let '(a, s') := c s in (Ok a, s').

(** The events a computation added to the trace. *)
Definition new_events (s s' : State) : list Event :=
  drop (List.length (trace s)) (trace s').

Section Program.
Variable W : World.

(** ** External calls *)

(** [ts.Token()] *)
Definition TokenOf (ts : ref) : M Token :=
  fun s => (ws_Token W (trace s) ts, log (EvToken ts) s).

(** [http.DefaultTransport.RoundTrip(req)] *)
Definition DefaultTransport_RoundTrip (req : Request) : M Response :=
  fun s => (ws_RoundTrip W (trace s) req, log (EvHTTP req) s).

(** [http.DefaultClient.Do(req)]: the default client sends through the
    default transport.  Redirects that it follows stay inside net/http, run
    no code of the program, and are part of the world's answer. *)
Definition DefaultClient_Do (req : Request) : M Response :=
  fun s => match DefaultTransport_RoundTrip req s with
           | (Err e, s') => (Err (ws_clientError W req e), s')
           | r => r
           end.

(** What [http.Client] does with an answer, by default.  A status of 301,
    302, 303, 307 or 308 that comes with a Location is a redirect to follow;
    without a Location the answer is handed to the caller as it is. *)
Definition shouldRedirect (code : Z) : bool :=
  (code =? 301)%Z || (code =? 302)%Z || (code =? 303)%Z
  || (code =? 307)%Z || (code =? 308)%Z.

Definition followsRedirect (resp : Response) : bool :=
  shouldRedirect (StatusCode resp) && negb (String.eqb (Location resp) EmptyString).

(** 301, 302 and 303 turn every method but GET and HEAD into GET; 307 and
    308 keep the method. *)
Definition redirectMethod (code : Z) (method : string) : string :=
  if (code =? 307)%Z || (code =? 308)%Z then method
  else if String.eqb method "GET" || String.eqb method "HEAD" then method
  else "GET".

(** The error for a redirect that is refused names the Location it would
    have gone to. *)
Definition refused (req : Request) (resp : Response) : Request :=
  {| Method := Method req; URL := Location resp; Header := Header req;
     Ctx := Ctx req; PathValues := PathValues req |}.

(** The request of the next hop: it inherits the context of the first
    request. *)
Definition nextHop (ireq req : Request) (resp : Response) (u : string) : Request :=
  {| Method := redirectMethod (StatusCode resp) (Method req);
     URL := u;
     Header := ws_redirectHeader W ireq req u;
     Ctx := Ctx ireq;
     PathValues := ∅ |}.

(** [http.NewRequest(method, url, nil)] and [http.NewRequestWithContext] *)
Definition NewRequestWithContext (ctx : GoContext) (method url : string) : result Request :=
  match ws_urlError W url with
  | Some e => Err e
  | None => Ok {| Method := method; URL := url; Header := ∅; Ctx := ctx; PathValues := ∅ |}
  end.
Definition NewRequest (method url : string) : result Request :=
  NewRequestWithContext None method url.

(** [githubauth.NewApplicationTokenSource(id, privateKey)] *)
Definition NewApplicationTokenSource (id : AppIdent) (privateKey : string) : M ref :=
  match ws_appKeyError W id privateKey with
  | Some e => fail e
  | None => run_alloc (alloc (ApplicationTS id privateKey))
  end.

(** [githubauth.NewInstallationTokenSource(id, appTokenSource)]: a new
    object on every call. *)
Definition NewInstallationTokenSource (id : Z) (app : ref) : Heap -> ref * Heap :=
  alloc (InstallationTS id app).

(** ** auth.go *)

Record TokenManager := {
  appTokenSource : ref;
  installationId : option Z
}.

(** [factory func() oauth2.TokenSource]: a closure that hands back a token
    source, possibly one it has just created. *)
Definition Factory := Heap -> ref * Heap.

(** The body runs under [tm.mu.Lock()], hence as one step. *)
Definition getOrSetSource (owner : string) (factory : Factory) : State -> ref * State :=
  fun s =>
    match cache s !! owner with
    | Some ts => (ts, s)
    | None =>
        let '(ts, h') := factory (heap s) in
        (ts, {| heap := h';
                cache := <[owner := ts]> (cache s);
                trace := trace s ++ [EvFactory owner ts] |})
    end.

Definition installationURL (owner repo : string) : string :=
  "https://api.github.com/repos/" +:+ owner +:+ "/" +:+ repo +:+ "/installation".

Definition lookupRepoInstallation (tm : TokenManager) (owner repo : string) : M Z :=
  emit (EvLookup owner repo) ;;;
  token <- wrapErr "getting app token: " (TokenOf (appTokenSource tm)) ;;
  req <- lift (NewRequest "GET" (installationURL owner repo)) ;;
  let req := Header_Set "Authorization" ("Bearer " +:+ AccessToken token) req in
  let req := Header_Set "Accept" "application/vnd.github+json" req in
  resp <- DefaultClient_Do req ;;
  if negb (StatusCode resp =? StatusOK)%Z then
    fail ("GitHub API returned " +:+ Status resp +:+ " for " +:+ owner +:+ "/"
          +:+ repo +:+ " installation lookup")
  else
    inst <- wrapErr "decoding installation response: "
              (lift (ws_decodeInstallation W (Body resp))) ;;
    emit (EvPrint ("Discovered installation " +:+ itoa (ID inst) +:+ " ("
                   +:+ Login (Account inst) +:+ ") for " +:+ owner +:+ "/"
                   +:+ repo +:+ nl)) ;;;
    ret (ID inst).

Definition TokenForRepo (tm : TokenManager) (owner repo : string) : M Token :=
  match installationId tm with
  | Some fixed =>
      ts <- total (getOrSetSource owner
                     (NewInstallationTokenSource fixed (appTokenSource tm))) ;;
      TokenOf ts
  | None =>
      fun s =>
        match cache s !! owner with
        | Some ts => TokenOf ts s
        | None =>
            (installationID <- wrapErr ("looking up installation for " +:+ owner
                                        +:+ "/" +:+ repo +:+ ": ")
                                 (lookupRepoInstallation tm owner repo) ;;
             ts <- total (getOrSetSource owner
                            (NewInstallationTokenSource installationID
                               (appTokenSource tm))) ;;
             TokenOf ts) s
        end
  end.


(** [for _, inst := range installations { fmt.Printf(...) }] *)
Definition installationLine (inst : ghInstallation) : string :=
  "  - " +:+ Login (Account inst) +:+ " (installation ID: " +:+ itoa (ID inst)
  +:+ ")" +:+ nl.

Fixpoint printInstallations (installations : list ghInstallation) : M unit :=
  match installations with
  | [] => ret tt
  | inst :: rest => emit (EvPrint (installationLine inst)) ;;; printInstallations rest
  end.

Definition discoverInstallations (appTS : ref) : M (list ghInstallation) :=
  emit EvDiscover ;;;
  token <- wrapErr "getting app token: " (TokenOf appTS) ;;
  req <- lift (NewRequest "GET" "https://api.github.com/app/installations") ;;
  let req := Header_Set "Authorization" ("Bearer " +:+ AccessToken token) req in
  let req := Header_Set "Accept" "application/vnd.github+json" req in
  resp <- DefaultClient_Do req ;;
  if negb (StatusCode resp =? StatusOK)%Z then
    fail ("GitHub API returned " +:+ Status resp)
  else
    wrapErr "decoding installations response: "
      (lift (ws_decodeInstallations W (Body resp))).

(** [make(map[string]oauth2.TokenSource)] stored in the new manager. *)
Definition resetCache : M unit :=
  fun s => (Ok tt, {| heap := heap s; cache := ∅; trace := trace s |}).

Definition NewTokenManager (config : AppConfig) (privateKey : string) : M TokenManager :=
  appTS <- match AppId config, ClientId config with
           | Some appId, _ =>
               wrapErr "creating application token source: "
                 (NewApplicationTokenSource (IdNumber appId) privateKey)
           | None, Some clientId =>
               wrapErr "creating application token source: "
                 (NewApplicationTokenSource (IdClient clientId) privateKey)
           | None, None => fail "config must set either appId or clientId"
           end ;;
  resetCache ;;;
  let tm := {| appTokenSource := appTS; installationId := InstallationId config |} in
  (fun s =>
     match discoverInstallations appTS s with
     | (Err e, s') =>
         emit (EvPrint ("Warning: could not list installations: " +:+ e +:+ nl)) s'
     | (Ok [], s') =>
         emit (EvPrint ("Warning: no installations found; install the GitHub App on an account first"
                        +:+ nl)) s'
     | (Ok installations, s') =>
         (emit (EvPrint ("Available installations:" +:+ nl)) ;;;
          printInstallations installations) s'
     end) ;;;
  ret tm.

(** ** The start-up path of [main.go]: buildTokenSource *)

Definition buildTokenSource (config : AppConfig) (privateKey : string) : M ref :=
  appTS <- match AppId config, ClientId config with
           | Some appId, _ =>
               wrapErr "creating application token source: "
                 (NewApplicationTokenSource (IdNumber appId) privateKey)
           | None, Some clientId =>
               wrapErr "creating application token source: "
                 (NewApplicationTokenSource (IdClient clientId) privateKey)
           | None, None => fail "config must set either appId or clientId"
           end ;;
  match InstallationId config with
  | Some fixed => run_alloc (NewInstallationTokenSource fixed appTS)
  | None =>
      installations <- wrapErr "discovering installations: "
                         (discoverInstallations appTS) ;;
      match installations with
      | [] =>                                    (* len(installations) == 0 *)
          fail "no installations found; install the GitHub App on an account first"
      | [inst] =>                                (* len(installations) == 1 *)
          emit (EvPrint ("Using installation " +:+ itoa (ID inst) +:+ " ("
                         +:+ Login (Account inst) +:+ ")" +:+ nl)) ;;;
          run_alloc (NewInstallationTokenSource (ID inst) appTS)
      | _ =>
          emit (EvPrint ("Multiple installations found:" +:+ nl)) ;;;
          printInstallations installations ;;;
          fail "multiple installations found; set installationId in config to select one"
      end
  end.

(** ** proxy.go *)

Definition withRepo (ctx : GoContext) (owner repo : string) : GoContext :=
  Some {| Owner := owner; Repo := repo |}.

Definition repoFromContext (ctx : GoContext) : string * string * bool :=
  match ctx with
  | None => (EmptyString, EmptyString, false)
  | Some ri => (Owner ri, Repo ri, true)
  end.

(** [GithubTripper.RoundTrip] *)
Definition RoundTrip (tm : TokenManager) (req : Request) : M Response :=
  let '(owner, repo, ok) := repoFromContext (Ctx req) in
  if negb ok then fail "no repo context set on request"
  else
    token <- wrapErr "error getting token: " (TokenForRepo tm owner repo) ;;
    DefaultTransport_RoundTrip
      (Header_Set "Authorization" ("token " +:+ AccessToken token) req).

(** [p.client.Do(req)].  The client is built with the [GithubTripper] as
    its transport and nothing else, so it follows redirects the way
    [http.Client] does by default: every hop goes through the tripper again,
    with the context of the first request, and the tenth redirect in a row is
    refused.  [hops] is the number of redirects still allowed; [ireq] is the
    request as it was handed to [Do].  The requests built here have no body,
    which is when 307 and 308 are followed like the others. *)
Fixpoint client_send (tm : TokenManager) (hops : nat) (ireq req : Request)
  : M Response :=
  fun s =>
    match RoundTrip tm req s with
    | (Err e, s') => (Err (ws_clientError W req e), s')
    | (Ok resp, s') =>
        if followsRedirect resp then
          match ws_resolveReference W (URL req) (Location resp) with
          | Err e => (Err (ws_clientError W req e), s')
          | Ok u =>
              match hops with
              | O =>
                  (Err (ws_clientError W (refused req resp) "stopped after 10 redirects"),
                   s')
              | S hops' => client_send tm hops' ireq (nextHop ireq req resp u) s'
              end
          end
        else (Ok resp, s')
    end.

Definition client_Do (tm : TokenManager) (req : Request) : M Response :=
  client_send tm 9 req req.

Definition files (tm : TokenManager) (ctx : GoContext) (user repo tag : string)
  : M (list githubFileAsset) :=
  let ux := ws_JoinPath W "https://api.github.com/repos/"
              [user; repo; "releases"; "tags"; tag] in
  req <- wrapErr "error creating request to GitHub API: "
           (lift (NewRequestWithContext ctx MethodGet ux)) ;;
  resp <- wrapErr "error making request to GitHub API: " (client_Do tm req) ;;
  if negb (StatusCode resp =? StatusOK)%Z then
    fail ("GitHub API returned non-200 status: " +:+ Status resp)
  else
    fs <- wrapErr "error decoding GitHub API response: "
            (lift (ws_decodeRelease W (Body resp))) ;;
    ret (Assets fs).

(** Returns [resp.Body], the bytes of the asset. *)
Definition file (tm : TokenManager) (ctx : GoContext) (asset : githubFileAsset) : M string :=
  req <- wrapErr "error creating request for asset: "
           (lift (NewRequestWithContext ctx MethodGet (AssetURL asset))) ;;
  let req := Header_Set "Accept" "application/octet-stream" req in
  resp <- wrapErr "error making request for asset: " (client_Do tm req) ;;
  if negb (StatusCode resp =? StatusOK)%Z then
    fail ("GitHub API returned non-200 status for asset: " +:+ Status resp)
  else ret (Body resp).

End Program.

(** *** http.ResponseWriter

    Only the status line and the body are kept.  The first [WriteHeader]
    wins; a [Write] before any [WriteHeader] sends 200; a handler that
    returns without writing anything has 200 sent for it by the server. *)

Record ResponseWriter := {
  rw_status : option Z;
  rw_body : string
}.

Definition newResponseWriter : ResponseWriter :=
  {| rw_status := None; rw_body := EmptyString |}.

Definition WriteHeader (code : Z) (w : ResponseWriter) : ResponseWriter :=
  match rw_status w with
  | Some _ => w
  | None => {| rw_status := Some code; rw_body := rw_body w |}
  end.

Definition Write (data : string) (w : ResponseWriter) : ResponseWriter :=
  let w := WriteHeader StatusOK w in
  {| rw_status := rw_status w; rw_body := rw_body w +:+ data |}.

(** [http.Error(w, msg, code)] *)
Definition http_Error (w : ResponseWriter) (msg : string) (code : Z) : ResponseWriter :=
  Write (msg +:+ nl) (WriteHeader code w).

(** [io.Copy(w, d)]: nothing is written for an empty body. *)
Definition io_Copy (w : ResponseWriter) (d : string) : ResponseWriter :=
  match d with
  | EmptyString => w
  | _ => Write d w
  end.

(** The status the client receives once the handler has returned. *)
Definition sentStatus (w : ResponseWriter) : Z := default StatusOK (rw_status w).

Definition Handler := ResponseWriter -> Request -> State -> ResponseWriter * State.

Section Handlers.
Variable W : World.

(** The [for _, f := range files] loop, which both handlers spell out in
    the same words.  [Some w'] is a [return] from inside the loop, [None]
    is the loop running to its end. *)
Fixpoint rangeAssets (tm : TokenManager) (ctx : GoContext) (name : string)
    (assets : list githubFileAsset) (w : ResponseWriter)
  : State -> option ResponseWriter * State :=
  match assets with
  | [] => fun s => (None, s)
  | f :: rest =>
      if String.eqb (Name f) name then
        fun s =>
          match file W tm ctx f s with
          | (Err e, s') =>
              (Some (http_Error w ("Error fetching file content: " +:+ e)
                       StatusInternalServerError), s')
          | (Ok d, s') => (Some (io_Copy w d), s')
          end
      else rangeAssets tm ctx name rest w
  end.

Definition taggedHandler (tm : TokenManager) : Handler := fun w r s =>
  let user := PathValue r "user" in
  let repo := PathValue r "repo" in
  let tag := PathValue r "tag" in
  let ctx := withRepo (Ctx r) user repo in
  match files W tm ctx user repo tag s with
  | (Err e, s') =>
      (http_Error w ("Error fetching release files: " +:+ e)
         StatusInternalServerError, s')
  | (Ok fs, s') =>
      match rangeAssets tm ctx tag fs w s' with
      | (Some w', s'') => (w', s'')
      | (None, s'') => (w, s'')       (* the function ends after the loop *)
      end
  end.

Definition taggedFileHandler (tm : TokenManager) : Handler := fun w r s =>
  let user := PathValue r "user" in
  let repo := PathValue r "repo" in
  let tag := PathValue r "tag" in
  let file := PathValue r "file" in
  let ctx := withRepo (Ctx r) user repo in
  match files W tm ctx user repo tag s with
  | (Err e, s') =>
      (http_Error w ("Error fetching release files: " +:+ e)
         StatusInternalServerError, s')
  | (Ok fs, s') =>
      match rangeAssets tm ctx file fs w s' with
      | (Some w', s'') => (w', s'')
      | (None, s'') =>
          (http_Error w "File not found in release assets" StatusNotFound, s'')
      end
  end.

End Handlers.

(** *** http.ServeMux

    The part of the pattern language that the three registered patterns
    use: an optional method before a space, then a path of literal segments
    and [{name}] wildcards.  A pattern without method matches every method.

    The [URL] of an inbound request is its escaped path,
    [r.URL.EscapedPath()].  The mux first brings it into canonical form with
    [cleanPath]; when that changes the path the request is answered with a
    redirect to the canonical path and no handler runs.  A canonical path is
    matched segment by segment, each segment percent-decoded: a literal
    against the decoded segment, a wildcard against any decoded segment
    except the trailing slash, and the wildcard's value is the decoded
    segment.  None of the three patterns ends in a slash, so the mux's
    redirect to a path with a slash appended never applies.

    The canonical form is computed for every method except CONNECT, which
    the mux matches on the path as sent; CONNECT requests are outside the
    embedding, and the properties that go through the mux say so. *)

Inductive Segment :=
| Lit (s : string)
| Wild (name : string).

Record Pattern := {
  pat_method : option string;
  pat_segments : list Segment
}.

Fixpoint splitOn (c : ascii) (s : string) : list string :=
  match s with
  | EmptyString => [EmptyString]
  | String a rest =>
      if Ascii.eqb a c then EmptyString :: splitOn c rest
      else match splitOn c rest with
           | [] => [String a EmptyString]
           | x :: xs => String a x :: xs
           end
  end.

Fixpoint lastChar (s : string) : option ascii :=
  match s with
  | EmptyString => None
  | String a EmptyString => Some a
  | String _ rest => lastChar rest
  end.

Fixpoint dropLast (s : string) : string :=
  match s with
  | EmptyString => EmptyString
  | String a EmptyString => EmptyString
  | String a rest => String a (dropLast rest)
  end.

(** [url.PathUnescape]: every [%XY] with two hexadecimal digits becomes
    the byte it names; a percent sign followed by anything else is an
    error. *)
Definition unhex (c : ascii) : option nat :=
  let n := nat_of_ascii c in
  if (48 <=? n) && (n <=? 57) then Some (n - 48)
  else if (97 <=? n) && (n <=? 102) then Some (n - 87)
  else if (65 <=? n) && (n <=? 70) then Some (n - 55)
  else None.

Fixpoint unescape (s : string) : option string :=
  match s with
  | EmptyString => Some EmptyString
  | String c rest =>
      if Ascii.eqb c "%" then
        match rest with
        | String a (String b rest') =>
            match unhex a, unhex b, unescape rest' with
            | Some hi, Some lo, Some r =>
                Some (String (Ascii.ascii_of_nat (16 * hi + lo)) r)
            | _, _, _ => None
            end
        | _ => None
        end
      else option_map (String c) (unescape rest)
  end.

(** The mux's [pathUnescape]: the segment itself when it cannot be
    decoded. *)
Definition pathUnescape (s : string) : string := default s (unescape s).

Definition parseSegment (s : string) : Segment :=
  match s with
  | String "{" rest =>
      match lastChar rest with
      | Some "}"%char => Wild (dropLast rest)
      | _ => Lit (pathUnescape s)
      end
  | _ => Lit (pathUnescape s)
  end.

(** The segments of a path that starts with a slash.  A path that ends in
    a slash has the empty string as its last segment. *)
Definition pathSegments (path : string) : list string :=
  tail (splitOn "/" path).

(** A path made of the given segments. *)
Fixpoint buildPath (segs : list string) : string :=
  match segs with
  | [] => EmptyString
  | seg :: rest => String "/" (seg +:+ buildPath rest)
  end.

(** [path.Clean] on a rooted path, segment by segment: empty segments and
    [.] are dropped, [..] drops the segment before it, if there is one.
    [stack] holds the segments kept so far, last first. *)
Fixpoint cleanSegments (segs : list string) (stack : list string) : list string :=
  match segs with
  | [] => rev stack
  | seg :: rest =>
      if String.eqb seg EmptyString then cleanSegments rest stack
      else if String.eqb seg "." then cleanSegments rest stack
      else if String.eqb seg ".." then cleanSegments rest (tail stack)
      else cleanSegments rest (seg :: stack)
  end.

Definition endsWithSlash (p : string) : bool :=
  match lastChar p with
  | Some c => Ascii.eqb c "/"
  | None => false
  end.

(** net/http's [cleanPath]: the canonical form of a path, which starts
    with a slash and keeps a trailing slash. *)
Definition cleanPath (p : string) : string :=
  match p with
  | EmptyString => "/"
  | String c _ =>
      let p := if Ascii.eqb c "/" then p else String "/" p in
      let np := match cleanSegments (pathSegments p) [] with
                | [] => "/"
                | segs => buildPath segs
                end in
      if endsWithSlash p && negb (String.eqb np "/") then np +:+ "/" else np
  end.

(** What a wildcard binds when it meets segment [x]: nothing for the
    trailing slash, be it the empty last segment or a segment that decodes
    to a slash, and the decoded segment otherwise. *)
Definition wildcardValue (x : string) : option string :=
  if String.eqb x EmptyString then None
  else if String.eqb (pathUnescape x) "/" then None
  else Some (pathUnescape x).

Definition parsePattern (p : string) : Pattern :=
  match splitOn " " p with
  | [path] =>
      {| pat_method := None; pat_segments := parseSegment <$> pathSegments path |}
  | method :: path :: _ =>
      {| pat_method := Some method; pat_segments := parseSegment <$> pathSegments path |}
  | [] => {| pat_method := None; pat_segments := [] |}
  end.

Fixpoint matchSegments (ps : list Segment) (segs : list string)
    (vals : gmap string string) : option (gmap string string) :=
  match ps, segs with
  | [], [] => Some vals
  | Lit l :: ps', x :: segs' =>
      if String.eqb l (pathUnescape x) then matchSegments ps' segs' vals else None
  | Wild n :: ps', x :: segs' =>
      match wildcardValue x with
      | Some v => matchSegments ps' segs' (<[n := v]> vals)
      | None => None
      end
  | _, _ => None
  end.

Definition matchPattern (p : Pattern) (method path : string)
  : option (gmap string string) :=
  match pat_method p with
  | Some m => if String.eqb m method then matchSegments (pat_segments p) (pathSegments path) ∅
              else None
  | None => matchSegments (pat_segments p) (pathSegments path) ∅
  end.

(** The handlers of [GithubPrivateReleaseProxy] that the mux can reach. *)
Inductive HandlerName := h_taggedHandler | h_taggedFileHandler.

(** [NewGithubPrivateReleaseProxy]: the three [mux.HandleFunc] calls. *)
Definition NewGithubPrivateReleaseProxy : list (string * HandlerName) :=
  [ ("/{user}/{repo}/{tag}", h_taggedHandler);
    ("/{user}/{repo}/{tag}/{file}", h_taggedFileHandler);
    ("/{user}/{repo}/releases/download/{tag}/{file}", h_taggedFileHandler) ].

Fixpoint findHandler (routes : list (string * HandlerName)) (method path : string)
  : option (HandlerName * gmap string string) :=
  match routes with
  | [] => None
  | (p, h) :: rest =>
      match matchPattern (parsePattern p) method path with
      | Some vals => Some (h, vals)
      | None => findHandler rest method path
      end
  end.

(** [http.NotFound] *)
Definition NotFound : Handler := fun w _ s =>
  (http_Error w "404 page not found" StatusNotFound, s).

(** [http.RedirectHandler(target, code)]: the status, and for a GET a short
    HTML body. *)
Definition RedirectHandler (W : World) (target : string) (code : Z) : Handler :=
  fun w r s =>
    let w := WriteHeader code w in
    (if String.eqb (Method r) "GET" then Write (ws_redirectBody W target) w else w, s).

(** [GithubPrivateReleaseProxy.ServeHTTP]: hands the request to the mux,
    which redirects to the canonical path or finds the handler. *)
Definition ServeHTTP (W : World) (tm : TokenManager) : Handler := fun w r s =>
  let path := cleanPath (URL r) in
  if negb (String.eqb path (URL r)) then
    RedirectHandler W path StatusMovedPermanently w r s
  else
    match findHandler NewGithubPrivateReleaseProxy (Method r) (URL r) with
    | Some (h, vals) =>
        let r' := {| Method := Method r; URL := URL r; Header := Header r;
                     Ctx := Ctx r; PathValues := vals |} in
        match h with
        | h_taggedHandler => taggedHandler W tm w r' s
        | h_taggedFileHandler => taggedFileHandler W tm w r' s
        end
    | None => NotFound w r s
    end.

(** ** Vocabulary of the statements *)

(** A sequence of [getOrSetSource] calls, one after the other, and what
    each returned. *)
Fixpoint runCalls (calls : list (string * Factory)) (s : State) : list ref * State :=
  match calls with
  | [] => ([], s)
  | (owner, factory) :: rest =>
      let '(ts, s1) := getOrSetSource owner factory s in
      let '(rs, s2) := runCalls rest s1 in
      (ts :: rs, s2)
  end.

Definition isFactoryFor (owner : string) (ev : Event) : bool :=
  match ev with
  | EvFactory o _ => String.eqb o owner
  | _ => false
  end.

(** How many times a factory ran for [owner] in a stretch of the trace. *)
Definition countFactory (owner : string) (evs : list Event) : nat :=
  List.length (List.filter (isFactoryFor owner) evs).

(** A sequence of [TokenForRepo] calls, one after the other. *)
Fixpoint runTokenCalls (W : World) (tm : TokenManager) (calls : list (string * string))
    (s : State) : list (result Token) * State :=
  match calls with
  | [] => ([], s)
  | (owner, repo) :: rest =>
      let '(r, s1) := TokenForRepo W tm owner repo s in
      let '(rs, s2) := runTokenCalls W tm rest s1 in
      (r :: rs, s2)
  end.

Definition isLookup (ev : Event) : bool :=
  match ev with EvLookup _ _ => true | _ => false end.

Definition isHTTP (ev : Event) : bool :=
  match ev with EvHTTP _ => true | _ => false end.

(** Every cached reference points at an installation token source made
    from installation [id] and application source [app]. *)
Definition cacheBuiltFrom (id : Z) (app : ref) (s : State) : Prop :=
  forall k ts, cache s !! k = Some ts -> heap s !! ts = Some (InstallationTS id app).

(** The computation touches neither heap nor cache and only adds events
    that satisfy [P] to the trace. *)
Definition extends (P : Event -> Prop) (s s' : State) : Prop :=
  heap s' = heap s /\ cache s' = cache s
  /\ exists evs, trace s' = trace s ++ evs /\ Forall P evs.

Definition framed (P : Event -> Prop) {A} (c : M A) : Prop :=
  forall s, extends P s (snd (c s)).

(** What the two discovery calls may add to the trace: their markers,
    requests for an application token, prints, and HTTP requests that
    carry no repository context. *)
Definition discoveryEvent (ev : Event) : Prop :=
  match ev with
  | EvFactory _ _ => False
  | EvHTTP q => Ctx q = None
  | _ => True
  end.

(** What [TokenForRepo] adds to the trace when it never looks anything up:
    factory runs and token requests. *)
Definition sourceEvent (ev : Event) : Prop :=
  match ev with
  | EvFactory _ _ | EvToken _ => True
  | _ => False
  end.

(** An HTTP request in the trace carries no repository context. *)
Definition noContextHTTP (ev : Event) : Prop :=
  match ev with
  | EvHTTP q => Ctx q = None
  | _ => True
  end.

(** The request [file] builds for an asset, as it reaches the transport:
    a GET of the asset's API URL with the Accept header set by [file] and the
    Authorization header set by the tripper. *)
Definition assetRequest (ctx : GoContext) (asset : githubFileAsset) (token : Token)
  : Request :=
  Header_Set "Authorization" ("token " +:+ AccessToken token)
    (Header_Set "Accept" "application/octet-stream"
       {| Method := MethodGet; URL := AssetURL asset; Header := ∅;
          Ctx := ctx; PathValues := ∅ |}).

(** A request that the proxy itself sent upstream: it carries the
    repository context that the handlers bind. *)
Definition isProxied (ev : Event) : bool :=
  match ev with
  | EvHTTP q => match Ctx q with Some _ => true | None => false end
  | _ => false
  end.

Definition countProxied (evs : list Event) : nat :=
  List.length (List.filter isProxied evs).

(** The route table as the specification words it: three path shapes,
    every wildcard a segment that [wildcardValue] accepts, read after
    percent-decoding.  It does not look at the method. *)
Definition specRoute (segs : list string) : option (HandlerName * gmap string string) :=
  match segs with
  | [user; repo; tag] =>
      match wildcardValue user, wildcardValue repo, wildcardValue tag with
      | Some u, Some r, Some t =>
          Some (h_taggedHandler,
                <["tag" := t]> (<["repo" := r]> (<["user" := u]> ∅)))
      | _, _, _ => None
      end
  | [user; repo; tag; file] =>
      match wildcardValue user, wildcardValue repo, wildcardValue tag,
            wildcardValue file with
      | Some u, Some r, Some t, Some f =>
          Some (h_taggedFileHandler,
                <["file" := f]> (<["tag" := t]> (<["repo" := r]> (<["user" := u]> ∅))))
      | _, _, _, _ => None
      end
  | [user; repo; l1; l2; tag; file] =>
      if String.eqb "releases" (pathUnescape l1) && String.eqb "download" (pathUnescape l2)
      then
        match wildcardValue user, wildcardValue repo, wildcardValue tag,
              wildcardValue file with
        | Some u, Some r, Some t, Some f =>
            Some (h_taggedFileHandler,
                  <["file" := f]> (<["tag" := t]> (<["repo" := r]> (<["user" := u]> ∅))))
        | _, _, _, _ => None
        end
      else None
  | _ => None
  end.

Definition withPathValues (r : Request) (vals : gmap string string) : Request :=
  {| Method := Method r; URL := URL r; Header := Header r;
     Ctx := Ctx r; PathValues := vals |}.

(** [TokenForRepo], called for [owner] in state [s] with outcome [out],
    has stored a new source for [owner]: the cache gained that one entry, the
    source is built from installation [id], its [Token()] was the last thing
    asked and its answer, token or error, is what the call returned, and the
    next call for [owner] asks that source again. *)
Definition storedSource (W : World) (tm : TokenManager) (owner : string) (s : State)
    (out : result Token * State) (id : Z) : Prop :=
  exists (ts : ref) (tr : list Event),
    cache (snd out) = <[owner := ts]> (cache s)
    /\ heap (snd out) !! ts = Some (InstallationTS id (appTokenSource tm))
    /\ trace (snd out) = tr ++ [EvToken ts]
    /\ fst out = ws_Token W tr ts
    /\ forall repo',
         TokenForRepo W tm owner repo' (snd out)
         = (ws_Token W (trace (snd out)) ts, log (EvToken ts) (snd out)).

(** The identity [buildTokenSource] and [NewTokenManager] sign with:
    the numeric id when present, else the client id. *)
Definition configIdent (config : AppConfig) : option AppIdent :=
  match AppId config, ClientId config with
  | Some appId, _ => Some (IdNumber appId)
  | None, Some clientId => Some (IdClient clientId)
  | None, None => None
  end.

(** The state once the application token source has been allocated. *)
Definition withAppSource (ident : AppIdent) (privateKey : string) (s : State) : State :=
  {| heap := heap s ++ [ApplicationTS ident privateKey];
     cache := cache s; trace := trace s |}.

(** ** Sample worlds, used to run the code on concrete inputs *)

Definition sampleInstallation (id : Z) (login : string) : ghInstallation :=
  {| ID := id; Account := {| Login := login |}; RepositorySelection := "all" |}.

Definition sampleAsset (name url : string) : githubFileAsset :=
  {| Name := name; ContentType := "application/octet-stream";
     BrowserDownloadURL := "https://github.com/acme/widgets/releases/download/v1.2.3/" +:+ name;
     AssetURL := url |}.

Definition sampleAssets : list githubFileAsset :=
  [ sampleAsset "widgets.tar.gz" "U1"; sampleAsset "checksums.txt" "U2" ].

(** A provider that answers 200 on its API host and [assetStatus] for
    asset downloads; [mint] decides which token sources can produce a
    token, [installs] is what the App is installed on, [assets] what the
    release holds. *)
Definition sampleWorld (mint : ref -> result Token) (installs : list ghInstallation)
    (assets : list githubFileAsset) (assetStatus : Z) : World :=
  {| ws_appKeyError := fun _ _ => None;
     ws_Token := fun _ ts => mint ts;
     ws_RoundTrip := fun _ req =>
       if String.prefix "https://api.github.com/" (URL req)
       then Ok {| StatusCode := 200; Status := "200 OK"; RespHeader := ∅;
                  Body := "{}" |}
       else Ok {| StatusCode := assetStatus; Status := itoa assetStatus;
                  RespHeader := ∅; Body := "bytes of " +:+ URL req |};
     ws_urlError := fun _ => None;
     ws_JoinPath := fun base elems => base +:+ String.concat "/" elems;
     ws_clientError := fun req e => "Get " +:+ URL req +:+ ": " +:+ e;
     ws_resolveReference := fun _ loc => Ok loc;
     ws_redirectHeader := fun ireq req _ => <["Referer" := URL req]> (Header ireq);
     ws_redirectBody := fun target => "Moved Permanently: " +:+ target +:+ nl;
     ws_decodeInstallation := fun _ =>
       match installs with
       | inst :: _ => Ok inst
       | [] => Err "unexpected end of JSON input"
       end;
     ws_decodeInstallations := fun _ => Ok installs;
     ws_decodeRelease := fun _ => Ok {| Assets := assets |} |}.

Definition mintAll (ts : ref) : result Token :=
  Ok {| AccessToken := "t" +:+ itoa (Z.of_nat ts) |}.

(** Only the application source (reference 0) can produce a token. *)
Definition mintAppOnly (ts : ref) : result Token :=
  match ts with
  | O => Ok {| AccessToken := "jwt" |}
  | _ => Err "installation token request failed"
  end.

(** The state in which the application token source has been created and
    nothing else has happened. *)
Definition startState : State :=
  {| heap := [ApplicationTS (IdNumber 1) "key"]; cache := ∅; trace := [] |}.

Definition fixedManager : TokenManager :=
  {| appTokenSource := 0; installationId := Some 7%Z |}.

Definition dynamicManager : TokenManager :=
  {| appTokenSource := 0; installationId := None |}.

Definition inbound (method path : string) : Request :=
  {| Method := method; URL := path; Header := ∅; Ctx := None; PathValues := ∅ |}.

(** A provider on which the App is installed for [acme] as installation
    42 but which refuses to mint installation tokens. *)
Definition refusingWorld : World :=
  sampleWorld mintAppOnly [sampleInstallation 42 "acme"] sampleAssets 200.

(** A provider that cannot be reached to look an installation up:
    nothing is installed, so the lookup's answer does not decode. *)
Definition emptyWorld : World := sampleWorld mintAll [] sampleAssets 200.

(** A provider on which everything works. *)
Definition acmeWorld : World :=
  sampleWorld mintAll [sampleInstallation 42 "acme"] sampleAssets 200.

(** A release whose assets differ from the wanted [widgets.tar.gz] in
    case or by being a prefix, followed by two assets of that very name. *)
Definition lookalikeAssets : list githubFileAsset :=
  [ sampleAsset "Widgets.tar.gz" "U-case"; sampleAsset "widgets.tar" "U-prefix";
    sampleAsset "widgets.tar.gz" "U-first"; sampleAsset "widgets.tar.gz" "U-second" ].

(** The same provider, answering 503 to asset downloads. *)
Definition lookalikeWorld : World :=
  sampleWorld mintAll [sampleInstallation 42 "acme"] lookalikeAssets 503.

Definition fileRequest : Request :=
  {| Method := "GET"; URL := "/acme/widgets/v1.2.3/widgets.tar.gz"; Header := ∅;
     Ctx := None;
     PathValues := <["user" := "acme"]> (<["repo" := "widgets"]>
                     (<["tag" := "v1.2.3"]> (<["file" := "widgets.tar.gz"]> ∅))) |}.

Definition blankState : State := {| heap := []; cache := ∅; trace := [] |}.

Definition appConfig : AppConfig :=
  {| AppId := Some 1%Z; ClientId := None; InstallationId := None |}.

(** A provider on which the App is installed twice. *)
Definition twoInstallationsWorld : World :=
  sampleWorld mintAll [sampleInstallation 42 "acme"; sampleInstallation 43 "globex"]
    sampleAssets 200.

(** Every cached reference points at an installation token source made on
    application source [app], whatever its installation id. *)
Definition cacheWellFormed (app : ref) (s : State) : Prop :=
  forall k ts, cache s !! k = Some ts ->
    exists id, heap s !! ts = Some (InstallationTS id app).

(** No two owners share a cached reference. *)
Definition cacheInjective (s : State) : Prop :=
  forall k1 k2 ts, cache s !! k1 = Some ts -> cache s !! k2 = Some ts -> k1 = k2.

(** Every cached reference is an address of the heap. *)
Definition cacheInHeap (s : State) : Prop :=
  forall k ts, cache s !! k = Some ts -> ts < List.length (heap s).


(** The request [files] builds for a release, as it reaches the
    transport. *)
Definition releaseRequest (ctx : GoContext) (url : string) (token : Token) : Request :=
  Header_Set "Authorization" ("token " +:+ AccessToken token)
    {| Method := MethodGet; URL := url; Header := ∅; Ctx := ctx; PathValues := ∅ |}.

(** An HTTP request in the trace carries no context, or it carries
    context [ctx] and an Authorization header. *)
Definition proxiedAs (ctx : GoContext) (ev : Event) : Prop :=
  match ev with
  | EvHTTP q => Ctx q = None \/ (Ctx q = ctx /\ is_Some (Header q !! "Authorization"))
  | _ => True
  end.

(** The requests [files] and [file] hand to the client, before the tripper
    has put the token on them. *)
Definition releaseClientRequest (ctx : GoContext) (url : string) : Request :=
  {| Method := MethodGet; URL := url; Header := ∅; Ctx := ctx; PathValues := ∅ |}.

Definition assetClientRequest (ctx : GoContext) (asset : githubFileAsset) : Request :=
  Header_Set "Accept" "application/octet-stream"
    {| Method := MethodGet; URL := AssetURL asset; Header := ∅;
       Ctx := ctx; PathValues := ∅ |}.

(** What [client_send] does once the tripper has a token for the request:
    [req'] is the request as it reached the transport, [s1] the state in which
    it was sent. *)
Definition afterFirstHop (W : World) (tm : TokenManager) (hops : nat)
    (ireq req req' : Request) (s1 : State) : result Response * State :=
  match ws_RoundTrip W (trace s1) req' with
  | Err e => (Err (ws_clientError W req e), log (EvHTTP req') s1)
  | Ok resp =>
      if followsRedirect resp then
        match ws_resolveReference W (URL req) (Location resp) with
        | Err e => (Err (ws_clientError W req e), log (EvHTTP req') s1)
        | Ok u =>
            match hops with
            | O => (Err (ws_clientError W (refused req resp) "stopped after 10 redirects"),
                    log (EvHTTP req') s1)
            | S hops' =>
                client_send W tm hops' ireq (nextHop W ireq req resp u)
                  (log (EvHTTP req') s1)
            end
        end
      else (Ok resp, log (EvHTTP req') s1)
  end.

(** The URL of the release of [tag], as [files] builds it. *)
Definition releaseURL (W : World) (user repo tag : string) : string :=
  ws_JoinPath W "https://api.github.com/repos/" [user; repo; "releases"; "tags"; tag].

(** A provider that answers a download of an asset's API URL the way
    GitHub does: with 302 and the Location of the bytes, which it serves from
    another host. *)
Definition redirectingWorld : World :=
  {| ws_appKeyError := fun _ _ => None;
     ws_Token := fun _ ts => mintAll ts;
     ws_RoundTrip := fun _ req =>
       if String.prefix "https://api.github.com/" (URL req)
       then Ok {| StatusCode := 200; Status := "200 OK"; RespHeader := ∅;
                  Body := "{}" |}
       else if String.prefix "https://objects.example/" (URL req)
       then Ok {| StatusCode := 200; Status := "200 OK"; RespHeader := ∅;
                  Body := "bytes of " +:+ URL req |}
       else Ok {| StatusCode := 302; Status := "302 Found";
                  RespHeader := <["Location" := "https://objects.example/" +:+ URL req]> ∅;
                  Body := EmptyString |};
     ws_urlError := fun _ => None;
     ws_JoinPath := fun base elems => base +:+ String.concat "/" elems;
     ws_clientError := fun req e => "Get " +:+ URL req +:+ ": " +:+ e;
     ws_resolveReference := fun _ loc => Ok loc;
     ws_redirectHeader := fun ireq req _ => <["Referer" := URL req]> (Header ireq);
     ws_redirectBody := fun target => "Moved Permanently: " +:+ target +:+ nl;
     ws_decodeInstallation := fun _ => Ok (sampleInstallation 42 "acme");
     ws_decodeInstallations := fun _ => Ok [sampleInstallation 42 "acme"];
     ws_decodeRelease := fun _ => Ok {| Assets := sampleAssets |} |}.

(** A provider whose API host is down: every request is answered 502. *)
Definition badGatewayWorld : World :=
  {| ws_appKeyError := fun _ _ => None;
     ws_Token := fun _ ts => mintAll ts;
     ws_RoundTrip := fun _ req =>
       if String.prefix "https://api.github.com/repos/acme/widgets/releases" (URL req)
       then Ok {| StatusCode := 502; Status := "502 Bad Gateway"; RespHeader := ∅;
                  Body := EmptyString |}
       else Ok {| StatusCode := 200; Status := "200 OK"; RespHeader := ∅;
                  Body := "{}" |};
     ws_urlError := fun _ => None;
     ws_JoinPath := fun base elems => base +:+ String.concat "/" elems;
     ws_clientError := fun req e => "Get " +:+ URL req +:+ ": " +:+ e;
     ws_resolveReference := fun _ loc => Ok loc;
     ws_redirectHeader := fun ireq req _ => <["Referer" := URL req]> (Header ireq);
     ws_redirectBody := fun target => "Moved Permanently: " +:+ target +:+ nl;
     ws_decodeInstallation := fun _ => Ok (sampleInstallation 42 "acme");
     ws_decodeInstallations := fun _ => Ok [sampleInstallation 42 "acme"];
     ws_decodeRelease := fun _ => Ok {| Assets := sampleAssets |} |}.

Definition tagRequest : Request :=
  {| Method := "GET"; URL := "/acme/widgets/checksums.txt"; Header := ∅;
     Ctx := None;
     PathValues := <["user" := "acme"]> (<["repo" := "widgets"]>
                     (<["tag" := "checksums.txt"]> ∅)) |}.

(** A segment free of slashes. *)
Fixpoint noSlash (x : string) : bool :=
  match x with
  | EmptyString => true
  | String a rest => negb (Ascii.eqb a "/") && noSlash rest
  end.

(** A segment that [cleanPath] keeps as it is. *)
Definition plainSegment (x : string) : bool :=
  noSlash x && negb (String.eqb x EmptyString)
  && negb (String.eqb x ".") && negb (String.eqb x "..").

(** ** proxy.go as [main.go] wires it: one token source for all requests

    The variant of the proxy that [startProxy] constructs from the result of
    [buildTokenSource].  Its tripper holds a single token source and reads no
    context; its handlers pass the inbound request's own context on. *)
Module Legacy.
Section Legacy.
Variable W : World.

(** [GithubTripper.RoundTrip] *)
Definition RoundTrip (tokenSource : ref) (req : Request) : M Response :=
  token <- wrapErr "error getting token: " (TokenOf W tokenSource) ;;
  DefaultTransport_RoundTrip W
    (Header_Set "Authorization" ("token " +:+ AccessToken token) req).

(** The same client around this tripper: redirects are followed, every
    hop through [RoundTrip]. *)
Fixpoint client_send (tokenSource : ref) (hops : nat) (ireq req : Request)
  : M Response :=
  fun s =>
    match RoundTrip tokenSource req s with
    | (Err e, s') => (Err (ws_clientError W req e), s')
    | (Ok resp, s') =>
        if followsRedirect resp then
          match ws_resolveReference W (URL req) (Location resp) with
          | Err e => (Err (ws_clientError W req e), s')
          | Ok u =>
              match hops with
              | O =>
                  (Err (ws_clientError W (refused req resp) "stopped after 10 redirects"),
                   s')
              | S hops' =>
                  client_send tokenSource hops' ireq (nextHop W ireq req resp u) s'
              end
          end
        else (Ok resp, s')
    end.

Definition client_Do (tokenSource : ref) (req : Request) : M Response :=
  client_send tokenSource 9 req req.

Definition files (tokenSource : ref) (ctx : GoContext) (user repo tag : string)
  : M (list githubFileAsset) :=
  let ux := ws_JoinPath W "https://api.github.com/repos/"
              [user; repo; "releases"; "tags"; tag] in
  req <- wrapErr "error creating request to GitHub API: "
           (lift (NewRequestWithContext W ctx MethodGet ux)) ;;
  resp <- wrapErr "error making request to GitHub API: " (client_Do tokenSource req) ;;
  if negb (StatusCode resp =? StatusOK)%Z then
    fail ("GitHub API returned non-200 status: " +:+ Status resp)
  else
    fs <- wrapErr "error decoding GitHub API response: "
            (lift (ws_decodeRelease W (Body resp))) ;;
    ret (Assets fs).

Definition file (tokenSource : ref) (ctx : GoContext) (asset : githubFileAsset)
  : M string :=
  req <- wrapErr "error creating request for asset: "
           (lift (NewRequestWithContext W ctx MethodGet (AssetURL asset))) ;;
  let req := Header_Set "Accept" "application/octet-stream" req in
  resp <- wrapErr "error making request for asset: " (client_Do tokenSource req) ;;
  if negb (StatusCode resp =? StatusOK)%Z then
    fail ("GitHub API returned non-200 status for asset: " +:+ Status resp)
  else ret (Body resp).

Fixpoint rangeAssets (tokenSource : ref) (ctx : GoContext) (name : string)
    (assets : list githubFileAsset) (w : ResponseWriter)
  : State -> option ResponseWriter * State :=
  match assets with
  | [] => fun s => (None, s)
  | f :: rest =>
      if String.eqb (Name f) name then
        fun s =>
          match file tokenSource ctx f s with
          | (Err e, s') =>
              (Some (http_Error w ("Error fetching file content: " +:+ e)
                       StatusInternalServerError), s')
          | (Ok d, s') => (Some (io_Copy w d), s')
          end
      else rangeAssets tokenSource ctx name rest w
  end.

Definition taggedHandler (tokenSource : ref) : Handler := fun w r s =>
  let user := PathValue r "user" in
  let repo := PathValue r "repo" in
  let tag := PathValue r "tag" in
  match files tokenSource (Ctx r) user repo tag s with
  | (Err e, s') =>
      (http_Error w ("Error fetching release files: " +:+ e)
         StatusInternalServerError, s')
  | (Ok fs, s') =>
      match rangeAssets tokenSource (Ctx r) tag fs w s' with
      | (Some w', s'') => (w', s'')
      | (None, s'') => (w, s'')
      end
  end.

Definition taggedFileHandler (tokenSource : ref) : Handler := fun w r s =>
  let user := PathValue r "user" in
  let repo := PathValue r "repo" in
  let tag := PathValue r "tag" in
  let file := PathValue r "file" in
  match files tokenSource (Ctx r) user repo tag s with
  | (Err e, s') =>
      (http_Error w ("Error fetching release files: " +:+ e)
         StatusInternalServerError, s')
  | (Ok fs, s') =>
      match rangeAssets tokenSource (Ctx r) file fs w s' with
      | (Some w', s'') => (w', s'')
      | (None, s'') =>
          (http_Error w "File not found in release assets" StatusNotFound, s'')
      end
  end.

(** The mux is set up by the same three [HandleFunc] calls. *)
Definition ServeHTTP (tokenSource : ref) : Handler := fun w r s =>
  let path := cleanPath (URL r) in
  if negb (String.eqb path (URL r)) then
    RedirectHandler W path StatusMovedPermanently w r s
  else
    match findHandler NewGithubPrivateReleaseProxy (Method r) (URL r) with
    | Some (h, vals) =>
        let r' := {| Method := Method r; URL := URL r; Header := Header r;
                     Ctx := Ctx r; PathValues := vals |} in
        match h with
        | h_taggedHandler => taggedHandler tokenSource w r' s
        | h_taggedFileHandler => taggedFileHandler tokenSource w r' s
        end
    | None => NotFound w r s
    end.

End Legacy.
End Legacy.


(** ** config.go and main.go *)

(** The generated [appconfig.AppConfig], with all its fields. *)
Module appconfig.
Record AppConfig := {
  PrivateKey : string;
  AppId : option Z;
  ClientId : option string;
  InstallationId : option Z;
  ListenAddress : string
}.
End appconfig.

(** The part of the configuration that the constructors read. *)
Definition coreConfig (cfg : appconfig.AppConfig) : AppConfig :=
  {| AppId := appconfig.AppId cfg;
     ClientId := appconfig.ClientId cfg;
     InstallationId := appconfig.InstallationId cfg |}.

(** The machine the program runs on: the [os], [path/filepath], pkl and
    [encoding/json] calls of [config.go] and [main.go].  [os_Stat] answers
    whether the path is a directory. *)
Record Host := {
  os_UserConfigDir : result string;
  os_UserHomeDir : result string;
  os_Stat : string -> result bool;
  os_ReadFile : string -> result string;
  os_Open : string -> result string;
  filepath_Join : string -> string -> string;
  filepath_IsAbs : string -> bool;
  pkl_LoadFromPath : string -> result appconfig.AppConfig;
  json_Decode : string -> result appconfig.AppConfig
}.

Section Config.
Variable H : Host.

Definition loadPkl (path : string) : result appconfig.AppConfig :=
  match pkl_LoadFromPath H path with
  | Err e => Err ("error loading pkl config " +:+ path +:+ ": " +:+ e)
  | Ok cfg => Ok cfg
  end.

Definition loadJSON (path : string) : result appconfig.AppConfig :=
  match os_Open H path with
  | Err e => Err ("error opening json config " +:+ path +:+ ": " +:+ e)
  | Ok f =>
      match json_Decode H f with
      | Err e => Err ("error decoding json config " +:+ path +:+ ": " +:+ e)
      | Ok cfg => Ok cfg
      end
  end.

(** The priority-ordered list of config file names to try. *)
Definition configFiles : list (string * (string -> result appconfig.AppConfig)) :=
  [ ("config.pklbin", loadPkl); ("config.pkl", loadPkl); ("config.json", loadJSON) ].

Definition applyDefaults (cfg : appconfig.AppConfig) : appconfig.AppConfig :=
  if String.eqb (appconfig.ListenAddress cfg) EmptyString then
    {| appconfig.PrivateKey := appconfig.PrivateKey cfg;
       appconfig.AppId := appconfig.AppId cfg;
       appconfig.ClientId := appconfig.ClientId cfg;
       appconfig.InstallationId := appconfig.InstallationId cfg;
       appconfig.ListenAddress := "localhost:9443" |}
  else cfg.

(** The loop of [loadConfig] over the files still to try. *)
Fixpoint loadConfigFrom (fs : list (string * (string -> result appconfig.AppConfig)))
    (configDir : string) : result appconfig.AppConfig :=
  match fs with
  | [] =>
      Err ("no config file found in " +:+ configDir
           +:+ " (tried config.pklbin, config.pkl, config.json)")
  | (name, loader) :: rest =>
      let path := filepath_Join H configDir name in
      match os_Stat H path with
      | Err _ => loadConfigFrom rest configDir          (* continue *)
      | Ok _ =>
          match loader path with
          | Err e => Err e
          | Ok cfg => Ok (applyDefaults cfg)
          end
      end
  end.

Definition loadConfig (configDir : string) : result appconfig.AppConfig :=
  loadConfigFrom configFiles configDir.

Definition findConfigDir : result string :=
  let fallback :=
    let notFound :=
      Err "config directory not found: create one at $XDG_CONFIG_HOME/pkl-proxy or ~/.pkl-proxy" in
    match os_UserHomeDir H with
    | Ok homeDir =>
        let dir := filepath_Join H homeDir ".pkl-proxy" in
        match os_Stat H dir with
        | Ok true => Ok dir
        | _ => notFound
        end
    | Err _ => notFound
    end in
  match os_UserConfigDir H with
  | Ok xdgDir =>
      let dir := filepath_Join H xdgDir "pkl-proxy" in
      match os_Stat H dir with
      | Ok true => Ok dir
      | _ => fallback
      end
  | Err _ => fallback
  end.

(** [http.Server], the fields set by [startProxy]; the handler is the
    single-source proxy around [tokenSource]. *)
Record Server := {
  Addr : string;
  HandlerSource : ref
}.

(** [startProxy], up to the goroutine that starts listening. *)
Definition startProxy (W : World) : M (Server * string) :=
  configDir <- lift findConfigDir ;;
  config <- lift (loadConfig configDir) ;;
  let privateKeyPath :=
    if negb (filepath_IsAbs H (appconfig.PrivateKey config))
    then filepath_Join H configDir (appconfig.PrivateKey config)
    else appconfig.PrivateKey config in
  privateKey <- wrapErr "reading private key file: " (lift (os_ReadFile H privateKeyPath)) ;;
  tokenSource <- buildTokenSource W (coreConfig config) privateKey ;;
  let svr := {| Addr := appconfig.ListenAddress config; HandlerSource := tokenSource |} in
  let listenAddr :=
    if String.prefix ":" (appconfig.ListenAddress config)
    then "localhost" +:+ appconfig.ListenAddress config
    else appconfig.ListenAddress config in
  ret (svr, listenAddr).

End Config.

(** What [main] decides to do with the argument vector [os.Args]. *)
Inductive Action :=
| ActUsage                       (* usage(), which exits *)
| ActExit (line : string)        (* print [line], exit 1 *)
| ActInstall (path : string)     (* cmdInstall(os.Args[2]) *)
| ActUninstall (path : string)   (* cmdUninstall(os.Args[2]) *)
| ActSettingsInstall             (* cmdSettingsInstall() *)
| ActSettingsUninstall           (* cmdSettingsUninstall() *)
| ActDaemon                      (* cmdDaemon() *)
| ActRun (args : list string).   (* cmdRun(args) *)

Definition main (args : list string) : Action :=
  match args with
  | [] | [_] => ActUsage
  | _ :: cmd :: rest =>
      if String.eqb cmd "install" then
        match rest with
        | [] => ActExit "Usage: pkl-proxy install <github-path>"
        | path :: _ => ActInstall path
        end
      else if String.eqb cmd "uninstall" then
        match rest with
        | [] => ActExit "Usage: pkl-proxy uninstall <github-path>"
        | path :: _ => ActUninstall path
        end
      else if String.eqb cmd "settings" then
        match rest with
        | [] => ActExit "Usage: pkl-proxy settings <install|uninstall>"
        | sub :: _ =>
            if String.eqb sub "install" then ActSettingsInstall
            else if String.eqb sub "uninstall" then ActSettingsUninstall
            else ActExit "Usage: pkl-proxy settings <install|uninstall>"
        end
      else if String.eqb cmd "daemon" then ActDaemon
      else if String.eqb cmd "run" then
        match rest with
        | [] => ActExit "Usage: pkl-proxy run <cmd> [args...]"
        | _ => ActRun rest
        end
      else ActRun (cmd :: rest)
  end.

(** The subcommand names of [main]'s switch. *)
Definition isCommand (cmd : string) : bool :=
  String.eqb cmd "install" || String.eqb cmd "uninstall" || String.eqb cmd "settings"
  || String.eqb cmd "daemon" || String.eqb cmd "run".

(** A host with an XDG directory that holds [config.json] only, whose
    listen address is a bare port. *)
Definition sampleHost : Host :=
  {| os_UserConfigDir := Ok "/home/u/.config";
     os_UserHomeDir := Ok "/home/u";
     os_Stat := fun path =>
       if String.eqb path "/home/u/.config/pkl-proxy" then Ok true
       else if String.eqb path "/home/u/.config/pkl-proxy/config.json" then Ok false
       else Err "no such file or directory";
     os_ReadFile := fun path =>
       if String.eqb path "/home/u/.config/pkl-proxy/app.pem" then Ok "key"
       else Err "no such file or directory";
     os_Open := fun path => Ok "{}";
     filepath_Join := fun a b => a +:+ "/" +:+ b;
     filepath_IsAbs := fun path => String.prefix "/" path;
     pkl_LoadFromPath := fun _ => Err "pkl not installed";
     json_Decode := fun _ =>
       Ok {| appconfig.PrivateKey := "app.pem"; appconfig.AppId := Some 1%Z;
             appconfig.ClientId := None; appconfig.InstallationId := None;
             appconfig.ListenAddress := ":9443" |} |}.

(** The path from which [startProxy] reads the private key. *)
Definition privateKeyPath (H : Host) (configDir : string) (cfg : appconfig.AppConfig)
  : string :=
  if negb (filepath_IsAbs H (appconfig.PrivateKey cfg))
  then filepath_Join H configDir (appconfig.PrivateKey cfg)
  else appconfig.PrivateKey cfg.

(** * Properties *)

Lemma new_events_app (s s' : State) (evs : list Event) :
  trace s' = trace s ++ evs -> new_events s s' = evs.
Proof.
  intros E. unfold new_events. rewrite E. apply drop_app_length.
Qed.

Lemma new_events_refl (s : State) : new_events s s = [].
Proof. apply new_events_app. symmetry. apply app_nil_r. Qed.

(** ** getOrSetSource *)

Lemma getOrSetSource_hit owner factory s ts :
  cache s !! owner = Some ts -> getOrSetSource owner factory s = (ts, s).
Proof. intros H. unfold getOrSetSource. rewrite H. reflexivity. Qed.

Lemma getOrSetSource_miss owner factory s :
  cache s !! owner = None ->
  getOrSetSource owner factory s =
    (fst (factory (heap s)),
     {| heap := snd (factory (heap s));
        cache := <[owner := fst (factory (heap s))]> (cache s);
        trace := trace s ++ [EvFactory owner (fst (factory (heap s)))] |}).
Proof.
  intros H. unfold getOrSetSource. rewrite H.
  destruct (factory (heap s)) as [ts h']. reflexivity.
Qed.

(** After the call the key is bound to what the call returned, whatever
    the cache held before. *)
Lemma getOrSetSource_bound owner factory s :
  cache (snd (getOrSetSource owner factory s)) !! owner
  = Some (fst (getOrSetSource owner factory s)).
Proof.
  destruct (cache s !! owner) as [ts|] eqn:E.
  - rewrite (getOrSetSource_hit _ _ _ _ E). exact E.
  - rewrite (getOrSetSource_miss _ _ _ E). cbn. apply lookup_insert_eq.
Qed.

Lemma getOrSetSource_keeps owner factory s k ts :
  cache s !! k = Some ts ->
  cache (snd (getOrSetSource owner factory s)) !! k = Some ts.
Proof.
  intros Hk. destruct (cache s !! owner) as [t0|] eqn:E.
  - rewrite (getOrSetSource_hit _ _ _ _ E). exact Hk.
  - rewrite (getOrSetSource_miss _ _ _ E). cbn.
    rewrite lookup_insert_ne; [exact Hk | congruence].
Qed.

Lemma getOrSetSource_trace owner factory s :
  trace (snd (getOrSetSource owner factory s))
  = trace s ++ match cache s !! owner with
               | Some _ => []
               | None => [EvFactory owner (fst (getOrSetSource owner factory s))]
               end.
Proof.
  destruct (cache s !! owner) as [t0|] eqn:E.
  - rewrite (getOrSetSource_hit _ _ _ _ E). cbn. symmetry. apply app_nil_r.
  - rewrite (getOrSetSource_miss _ _ _ E). reflexivity.
Qed.

Lemma runCalls_cons owner factory rest s :
  runCalls ((owner, factory) :: rest) s =
    (fst (getOrSetSource owner factory s)
       :: fst (runCalls rest (snd (getOrSetSource owner factory s))),
     snd (runCalls rest (snd (getOrSetSource owner factory s)))).
Proof.
  cbn [runCalls]. destruct (getOrSetSource owner factory s) as [ts s1]. cbn.
  destruct (runCalls rest s1) as [rs s2]. reflexivity.
Qed.

Lemma runCalls_keeps calls : forall s k ts,
  cache s !! k = Some ts -> cache (snd (runCalls calls s)) !! k = Some ts.
Proof.
  induction calls as [|[owner factory] rest IH]; intros s k ts Hk.
  - exact Hk.
  - rewrite runCalls_cons. cbn. apply IH. apply getOrSetSource_keeps. exact Hk.
Qed.

Lemma runCalls_trace calls : forall s,
  exists evs, trace (snd (runCalls calls s)) = trace s ++ evs
    /\ (forall k, countFactory k evs <= 1)
    /\ (forall k, is_Some (cache s !! k) -> countFactory k evs = 0).
Proof.
  induction calls as [|[owner factory] rest IH]; intros s.
  - exists []. cbn. rewrite app_nil_r. repeat split; intros; cbn; lia.
  - rewrite runCalls_cons. cbn [snd].
    pose proof (getOrSetSource_trace owner factory s) as Ht.
    pose proof (getOrSetSource_bound owner factory s) as Hb.
    pose proof (getOrSetSource_keeps owner factory s) as Hk.
    destruct (IH (snd (getOrSetSource owner factory s))) as (evs & E & Hle & Hz).
    set (ts := fst (getOrSetSource owner factory s)) in *.
    set (s1 := snd (getOrSetSource owner factory s)) in *.
    destruct (cache s !! owner) as [t0|] eqn:Eo.
    + exists evs. rewrite E, Ht, app_nil_r. repeat split; [exact Hle|].
      intros k [t Hkt]. apply Hz. exists t. apply Hk. exact Hkt.
    + exists (EvFactory owner ts :: evs). rewrite E, Ht, <- app_assoc.
      split; [reflexivity|].
      assert (Hc : forall k, countFactory k (EvFactory owner ts :: evs)
                  = (if String.eqb owner k then 1 else 0) + countFactory k evs).
      { intros k. unfold countFactory. cbn.
        destruct (String.eqb owner k); reflexivity. }
      split; intros k.
      * rewrite Hc. destruct (String.eqb_spec owner k) as [->|Hne].
        -- rewrite (Hz k); [lia|]. exists ts. exact Hb.
        -- specialize (Hle k). lia.
      * intros [t Hkt]. rewrite Hc.
        destruct (String.eqb_spec owner k) as [->|Hne]; [congruence|].
        rewrite (Hz k); [lia|]. exists t. apply Hk. exact Hkt.
Qed.

Lemma runCalls_result calls : forall s i k f r,
  calls !! i = Some (k, f) ->
  fst (runCalls calls s) !! i = Some r ->
  cache (snd (runCalls calls s)) !! k = Some r.
Proof.
  induction calls as [|[owner factory] rest IH]; intros s i k f r Hc Hr.
  - rewrite lookup_nil in Hc. discriminate.
  - rewrite runCalls_cons in *. cbn [fst snd] in *. destruct i as [|i].
    + cbn in Hc, Hr. inversion Hc; subst. inversion Hr; subst.
      apply runCalls_keeps. apply getOrSetSource_bound.
    + cbn in Hc, Hr. eapply IH; eassumption.
Qed.

(** C1.  A call of [getOrSetSource] for a cached key returns the cached
    source and leaves the whole state as it was, so the factory did not run;
    for a key that is not cached the factory runs once, on the current heap,
    and its result is both stored under the key and returned.  Over any
    sequence of calls no entry is removed or replaced, the factory runs at
    most once for each key (not at all for a key cached beforehand), and two
    calls for the same key return the same reference. *)
Theorem getOrSetSource_single_creation :
  forall (owner : string) (factory : Factory) (s : State),
    (forall ts, cache s !! owner = Some ts ->
       getOrSetSource owner factory s = (ts, s)
       /\ new_events s (snd (getOrSetSource owner factory s)) = [])
    /\ (cache s !! owner = None ->
        let ts := fst (factory (heap s)) in
        getOrSetSource owner factory s =
          (ts, {| heap := snd (factory (heap s));
                  cache := <[owner := ts]> (cache s);
                  trace := trace s ++ [EvFactory owner ts] |})
        /\ countFactory owner (new_events s (snd (getOrSetSource owner factory s))) = 1)
    /\ (forall (calls : list (string * Factory)),
        let results := fst (runCalls calls s) in
        let s' := snd (runCalls calls s) in
        (forall k ts, cache s !! k = Some ts -> cache s' !! k = Some ts)
        /\ (forall k, countFactory k (new_events s s') <= 1)
        /\ (forall k, is_Some (cache s !! k) -> countFactory k (new_events s s') = 0)
        /\ (forall i j k f g ri rj,
              calls !! i = Some (k, f) -> calls !! j = Some (k, g) ->
              results !! i = Some ri -> results !! j = Some rj -> ri = rj)).
Proof.
  intros owner factory s. split; [|split].
  - intros ts H. rewrite (getOrSetSource_hit _ _ _ _ H). split; [reflexivity|].
    apply new_events_refl.
  - intros H ts. rewrite (getOrSetSource_miss _ _ _ H). split; [reflexivity|].
    cbn [snd]. erewrite new_events_app by reflexivity.
    unfold countFactory. cbn. rewrite String.eqb_refl. reflexivity.
  - intros calls results s'. subst results s'.
    destruct (runCalls_trace calls s) as (evs & E & Hle & Hz).
    rewrite (new_events_app _ _ _ E).
    split; [apply runCalls_keeps|]. split; [exact Hle|]. split; [exact Hz|].
    intros i j k f g ri rj Hi Hj Hri Hrj.
    pose proof (runCalls_result calls s i k f ri Hi Hri) as A.
    pose proof (runCalls_result calls s j k g rj Hj Hrj) as B.
    congruence.
Qed.

(** ** Computations that only add to the trace *)

Section Framing.
Variable P : Event -> Prop.

Lemma extends_refl s : extends P s s.
Proof. repeat split. exists []. split; [|constructor]. symmetry. apply app_nil_r. Qed.

Lemma extends_trans s1 s2 s3 :
  extends P s1 s2 -> extends P s2 s3 -> extends P s1 s3.
Proof.
  intros (H1 & C1 & e1 & T1 & F1) (H2 & C2 & e2 & T2 & F2).
  repeat split; try congruence.
  exists (e1 ++ e2). split; [|apply Forall_app; split; assumption].
  rewrite T2, T1. symmetry. apply app_assoc.
Qed.

Lemma extends_log ev s : P ev -> extends P s (log ev s).
Proof. intros H. repeat split. exists [ev]. split; [reflexivity|]. repeat constructor. exact H. Qed.

Lemma framed_ret {A} (a : A) : framed P (ret a).
Proof. intros s. apply extends_refl. Qed.

Lemma framed_fail {A} e : framed P (@fail A e).
Proof. intros s. apply extends_refl. Qed.

Lemma framed_lift {A} (r : result A) : framed P (lift r).
Proof. intros s. apply extends_refl. Qed.

Lemma framed_emit ev : P ev -> framed P (emit ev).
Proof. intros H s. apply extends_log, H. Qed.

Lemma framed_bind {A B} (c : M A) (f : A -> M B) :
  framed P c -> (forall a, framed P (f a)) -> framed P (bind c f).
Proof.
  intros Hc Hf s. unfold bind. specialize (Hc s).
  destruct (c s) as [[a|e] s1]; cbn in *; [|exact Hc].
  eapply extends_trans; [exact Hc | apply Hf].
Qed.

(** Binding a pure result: the continuation runs on its value only. *)
Lemma framed_bind_lift {A B} (r : result A) (f : A -> M B) :
  (forall a, r = Ok a -> framed P (f a)) -> framed P (bind (lift r) f).
Proof.
  intros Hf s. unfold bind, lift. destruct r as [a|e]; cbn.
  - apply Hf. reflexivity.
  - apply extends_refl.
Qed.

Lemma framed_bind_wrap_lift {A B} prefix (r : result A) (f : A -> M B) :
  (forall a, r = Ok a -> framed P (f a)) -> framed P (bind (wrapErr prefix (lift r)) f).
Proof.
  intros Hf s. unfold bind, wrapErr, lift. destruct r as [a|e]; cbn.
  - apply Hf. reflexivity.
  - apply extends_refl.
Qed.

Lemma framed_wrapErr {A} prefix (c : M A) : framed P c -> framed P (wrapErr prefix c).
Proof.
  intros Hc s. unfold wrapErr. specialize (Hc s).
  destruct (c s) as [[a|e] s1]; exact Hc.
Qed.

Lemma framed_TokenOf W ts : P (EvToken ts) -> framed P (TokenOf W ts).
Proof. intros H s. apply extends_log, H. Qed.

Lemma framed_DefaultTransport_RoundTrip W req :
  P (EvHTTP req) -> framed P (DefaultTransport_RoundTrip W req).
Proof. intros H s. apply extends_log, H. Qed.

Lemma framed_DefaultClient_Do W req :
  P (EvHTTP req) -> framed P (DefaultClient_Do W req).
Proof.
  intros HP s. unfold DefaultClient_Do.
  pose proof (framed_DefaultTransport_RoundTrip W req HP s) as H.
  destruct (DefaultTransport_RoundTrip W req s) as [[a|e] s1]; exact H.
Qed.

End Framing.

Lemma NewRequestWithContext_Ok W ctx method url req :
  NewRequestWithContext W ctx method url = Ok req ->
  Ctx req = ctx /\ URL req = url /\ Method req = method /\ Header req = ∅.
Proof.
  unfold NewRequestWithContext. destruct (ws_urlError W url); [discriminate|].
  intros E. inversion E. cbn. repeat split.
Qed.

Ltac framed_step :=
  first [ apply framed_bind_lift; intros ? ?
        | apply framed_bind_wrap_lift; intros ? ?
        | apply framed_bind; [|intros ?]
        | match goal with |- framed _ (if ?b then _ else _) => destruct b end
        | apply framed_ret | apply framed_fail | apply framed_lift
        | apply framed_wrapErr
        | apply framed_emit | apply framed_TokenOf
        | apply framed_DefaultClient_Do | apply framed_DefaultTransport_RoundTrip ].

Lemma framed_lookupRepoInstallation W tm owner repo :
  framed discoveryEvent (lookupRepoInstallation W tm owner repo).
Proof.
  unfold lookupRepoInstallation. repeat framed_step; cbn; try exact I.
  match goal with H : NewRequest _ _ _ = Ok _ |- _ =>
    apply NewRequestWithContext_Ok in H; apply H end.
Qed.

Lemma framed_discoverInstallations W appTS :
  framed discoveryEvent (discoverInstallations W appTS).
Proof.
  unfold discoverInstallations. repeat framed_step; cbn; try exact I.
  match goal with H : NewRequest _ _ _ = Ok _ |- _ =>
    apply NewRequestWithContext_Ok in H; apply H end.
Qed.

Lemma framed_printInstallations l : framed discoveryEvent (printInstallations l).
Proof.
  induction l; cbn [printInstallations]; repeat framed_step; cbn; try exact I.
  exact IHl.
Qed.

(** The first thing a lookup adds to the trace is its own marker. *)
Lemma lookupRepoInstallation_trace W tm owner repo s :
  exists evs, trace (snd (lookupRepoInstallation W tm owner repo s))
              = trace s ++ EvLookup owner repo :: evs.
Proof.
  unfold lookupRepoInstallation.
  match goal with |- context [bind (emit ?e) ?f] =>
    assert (Hf : framed discoveryEvent (f tt));
    [ cbv beta; repeat framed_step; cbn; try exact I;
      match goal with H : NewRequest _ _ _ = Ok _ |- _ =>
        apply NewRequestWithContext_Ok in H; apply H end
    | destruct (Hf (log e s)) as (_ & _ & evs & E & _);
      exists evs; change (bind (emit e) f s) with (f tt (log e s)) ]
  end.
  refine (eq_trans E _). cbn. rewrite <- app_assoc. reflexivity.
Qed.

(** ** TokenForRepo, case by case *)

Lemma TokenForRepo_cached W tm owner repo s ts :
  cache s !! owner = Some ts ->
  TokenForRepo W tm owner repo s = (ws_Token W (trace s) ts, log (EvToken ts) s).
Proof.
  intros H. unfold TokenForRepo. destruct (installationId tm) as [fixed|].
  - unfold bind, total. rewrite (getOrSetSource_hit _ _ _ _ H). reflexivity.
  - rewrite H. reflexivity.
Qed.

Lemma TokenForRepo_fixed W tm owner repo s fixed :
  installationId tm = Some fixed ->
  TokenForRepo W tm owner repo s =
    let gs := getOrSetSource owner
                (NewInstallationTokenSource fixed (appTokenSource tm)) s in
    (ws_Token W (trace (snd gs)) (fst gs), log (EvToken (fst gs)) (snd gs)).
Proof.
  intros H. unfold TokenForRepo. rewrite H. unfold bind, total.
  destruct (getOrSetSource _ _ s) as [ts s1]. reflexivity.
Qed.

Lemma TokenForRepo_discover W tm owner repo s :
  installationId tm = None -> cache s !! owner = None ->
  TokenForRepo W tm owner repo s =
    match lookupRepoInstallation W tm owner repo s with
    | (Err e, s1) =>
        (Err (("looking up installation for " +:+ owner +:+ "/" +:+ repo +:+ ": ")
              +:+ e), s1)
    | (Ok id, s1) =>
        let gs := getOrSetSource owner
                    (NewInstallationTokenSource id (appTokenSource tm)) s1 in
        (ws_Token W (trace (snd gs)) (fst gs), log (EvToken (fst gs)) (snd gs))
    end.
Proof.
  intros Hi Hc. unfold TokenForRepo. rewrite Hi, Hc. unfold bind, wrapErr, total.
  destruct (lookupRepoInstallation W tm owner repo s) as [[id|e] s1]; [|reflexivity].
  destruct (getOrSetSource _ _ s1) as [ts s2]. reflexivity.
Qed.

Lemma TokenForRepo_keeps W tm owner repo s k ts :
  cache s !! k = Some ts ->
  cache (snd (TokenForRepo W tm owner repo s)) !! k = Some ts.
Proof.
  intros Hk. destruct (cache s !! owner) as [t0|] eqn:Ho.
  - rewrite (TokenForRepo_cached _ _ _ _ _ _ Ho). exact Hk.
  - destruct (installationId tm) as [fixed|] eqn:Hi.
    + rewrite (TokenForRepo_fixed _ _ _ _ _ _ Hi). cbn.
      apply getOrSetSource_keeps. exact Hk.
    + rewrite (TokenForRepo_discover _ _ _ _ _ Hi Ho).
      destruct (framed_lookupRepoInstallation W tm owner repo s) as (_ & Hc & _).
      destruct (lookupRepoInstallation W tm owner repo s) as [[id|e] s1]; cbn in *.
      * apply getOrSetSource_keeps. rewrite Hc. exact Hk.
      * rewrite Hc. exact Hk.
Qed.

Lemma runTokenCalls_cons W tm owner repo rest s :
  runTokenCalls W tm ((owner, repo) :: rest) s =
    (fst (TokenForRepo W tm owner repo s)
       :: fst (runTokenCalls W tm rest (snd (TokenForRepo W tm owner repo s))),
     snd (runTokenCalls W tm rest (snd (TokenForRepo W tm owner repo s)))).
Proof.
  cbn [runTokenCalls]. destruct (TokenForRepo W tm owner repo s) as [r s1]. cbn.
  destruct (runTokenCalls W tm rest s1) as [rs s2]. reflexivity.
Qed.

Lemma runTokenCalls_keeps W tm calls : forall s k ts,
  cache s !! k = Some ts ->
  cache (snd (runTokenCalls W tm calls s)) !! k = Some ts.
Proof.
  induction calls as [|[owner repo] rest IH]; intros s k ts Hk.
  - exact Hk.
  - rewrite runTokenCalls_cons. cbn. apply IH. apply TokenForRepo_keeps. exact Hk.
Qed.

(** ** Fixed-installation mode *)

Lemma cacheBuiltFrom_getOrSetSource id app owner s :
  cacheBuiltFrom id app s ->
  cacheBuiltFrom id app (snd (getOrSetSource owner (NewInstallationTokenSource id app) s)).
Proof.
  intros Inv. destruct (cache s !! owner) as [t0|] eqn:Ho.
  - rewrite (getOrSetSource_hit _ _ _ _ Ho). exact Inv.
  - rewrite (getOrSetSource_miss _ _ _ Ho). intros k ts.
    unfold NewInstallationTokenSource, alloc. cbn.
    destruct (decide (owner = k)) as [->|Hne].
    + rewrite lookup_insert_eq. intros E. inversion E; subst.
      apply list_lookup_middle. reflexivity.
    + rewrite lookup_insert_ne by exact Hne. intros E.
      pose proof (Inv k ts E) as Hh.
      rewrite lookup_app_l; [exact Hh|]. eapply lookup_lt_Some. exact Hh.
Qed.

Lemma fixed_step W tm fixed owner repo s :
  installationId tm = Some fixed ->
  cacheBuiltFrom fixed (appTokenSource tm) s ->
  cacheBuiltFrom fixed (appTokenSource tm) (snd (TokenForRepo W tm owner repo s))
  /\ exists ts evs,
       cache (snd (TokenForRepo W tm owner repo s)) = <[owner := ts]> (cache s)
       /\ heap (snd (TokenForRepo W tm owner repo s)) !! ts
          = Some (InstallationTS fixed (appTokenSource tm))
       /\ evs = match cache s !! owner with
                | Some _ => []
                | None => [EvFactory owner ts]
                end
       /\ trace (snd (TokenForRepo W tm owner repo s)) = (trace s ++ evs) ++ [EvToken ts]
       /\ fst (TokenForRepo W tm owner repo s) = ws_Token W (trace s ++ evs) ts.
Proof.
  intros Hi Inv. rewrite (TokenForRepo_fixed _ _ _ _ _ _ Hi). cbn zeta. cbn [fst snd].
  pose proof (cacheBuiltFrom_getOrSetSource fixed (appTokenSource tm) owner s Inv) as Inv'.
  pose proof (getOrSetSource_bound owner
                (NewInstallationTokenSource fixed (appTokenSource tm)) s) as Hb.
  pose proof (getOrSetSource_trace owner
                (NewInstallationTokenSource fixed (appTokenSource tm)) s) as Ht.
  set (gs := getOrSetSource owner _ s) in *.
  split; [exact Inv'|].
  exists (fst gs), (match cache s !! owner with
                    | Some _ => []
                    | None => [EvFactory owner (fst gs)]
                    end).
  repeat split.
  - subst gs. destruct (cache s !! owner) as [t0|] eqn:Ho.
    + rewrite (getOrSetSource_hit _ _ _ _ Ho). cbn. symmetry. apply insert_id, Ho.
    + rewrite (getOrSetSource_miss _ _ _ Ho). reflexivity.
  - apply (Inv' owner). exact Hb.
  - cbn. rewrite Ht. reflexivity.
  - rewrite Ht. reflexivity.
Qed.

Lemma fixed_run W tm fixed calls :
  installationId tm = Some fixed ->
  forall s, cacheBuiltFrom fixed (appTokenSource tm) s ->
    cacheBuiltFrom fixed (appTokenSource tm) (snd (runTokenCalls W tm calls s))
    /\ exists evs, trace (snd (runTokenCalls W tm calls s)) = trace s ++ evs
                   /\ Forall sourceEvent evs.
Proof.
  intros Hi. induction calls as [|[owner repo] rest IH]; intros s Inv.
  - split; [exact Inv|]. exists []. split; [symmetry; apply app_nil_r | constructor].
  - rewrite runTokenCalls_cons. cbn [snd].
    destruct (fixed_step W tm fixed owner repo s Hi Inv)
      as (Inv1 & ts & evs & _ & _ & Ev & Ht & _).
    destruct (IH _ Inv1) as (Inv2 & evs2 & Ht2 & F2).
    split; [exact Inv2|].
    exists ((evs ++ [EvToken ts]) ++ evs2). split.
    + rewrite Ht2, Ht. rewrite <- !app_assoc. reflexivity.
    + apply Forall_app. split; [|exact F2]. apply Forall_app. split.
      * subst evs. destruct (cache s !! owner); repeat constructor.
      * repeat constructor.
Qed.

(** C5.  With a fixed installation id configured, take a manager whose
    cache is empty and let any sequence of [TokenForRepo] calls run.  The
    next call, for any owner and repository, leaves the owner bound in the
    cache to a source that was built from the fixed id, asks that source for
    the token it returns, and changes no other cache entry; and from the
    start to the end of that call the trace holds factory runs and token
    requests only: no installation lookup and no HTTP request of its own. *)
Theorem TokenForRepo_fixed_installation :
  forall (W : World) (tm : TokenManager) (fixed : Z) (s0 : State)
         (calls : list (string * string)) (owner repo : string),
    installationId tm = Some fixed ->
    cache s0 = ∅ ->
    let s := snd (runTokenCalls W tm calls s0) in
    let s' := snd (TokenForRepo W tm owner repo s) in
    exists ts,
      cache s' = <[owner := ts]> (cache s)
      /\ heap s' !! ts = Some (InstallationTS fixed (appTokenSource tm))
      /\ (exists tr, trace s' = tr ++ [EvToken ts]
                     /\ fst (TokenForRepo W tm owner repo s) = ws_Token W tr ts)
      /\ Forall sourceEvent (new_events s0 s')
      /\ Forall (fun ev => isLookup ev = false /\ isHTTP ev = false) (new_events s0 s').
Proof.
  intros W tm fixed s0 calls owner repo Hi He s s'.
  assert (Inv0 : cacheBuiltFrom fixed (appTokenSource tm) s0).
  { intros k ts. rewrite He, lookup_empty. discriminate. }
  destruct (fixed_run W tm fixed calls Hi s0 Inv0) as (Inv & evs & Ht & F).
  destruct (fixed_step W tm fixed owner repo s Hi Inv)
    as (_ & ts & evs1 & Hc & Hh & Ev & Ht1 & Hr).
  assert (Fall : Forall sourceEvent (new_events s0 s')).
  { erewrite new_events_app.
    2:{ subst s'. rewrite Ht1. subst s. rewrite Ht. rewrite <- !app_assoc. reflexivity. }
    apply Forall_app. split; [exact F|]. apply Forall_app. split.
    - subst evs1. destruct (cache s !! owner); repeat constructor.
    - repeat constructor. }
  exists ts. split; [exact Hc|]. split; [exact Hh|]. split.
  - exists (trace s ++ evs1). split; [exact Ht1 | exact Hr].
  - split; [exact Fall|]. eapply Forall_impl; [exact Fall|].
    intros [] Hs; cbn in *; tauto.
Qed.

Lemma TokenForRepo_fixed_installation_witness :
  installationId fixedManager = Some 7%Z
  /\ cache startState = ∅
  /\ exists ts,
       cache (snd (TokenForRepo (sampleWorld mintAll [] sampleAssets 200) fixedManager
                     "other" "tools"
                     (snd (runTokenCalls (sampleWorld mintAll [] sampleAssets 200)
                             fixedManager [("acme", "widgets")] startState))))
       !! "other" = Some ts
       /\ ts = 2.
Proof.
  split; [reflexivity|]. split; [reflexivity|].
  destruct (TokenForRepo_fixed_installation
              (sampleWorld mintAll [] sampleAssets 200) fixedManager 7 startState
              [("acme", "widgets")] "other" "tools" eq_refl eq_refl)
    as (ts & Hc & Hh & _).
  exists ts. split.
  - rewrite Hc. apply lookup_insert_eq.
  - apply lookup_lt_Some in Hh. vm_compute in Hh.
    assert (Hn : cache (snd (TokenForRepo (sampleWorld mintAll [] sampleAssets 200)
                               fixedManager "other" "tools"
                               (snd (runTokenCalls (sampleWorld mintAll [] sampleAssets 200)
                                       fixedManager [("acme", "widgets")] startState))))
                 !! "other" = Some 2) by (vm_compute; reflexivity).
    rewrite Hc, lookup_insert_eq in Hn. congruence.
Defined.

(** ** Dynamic discovery *)

Lemma TokenForRepo_discovered W tm owner repo s id :
  installationId tm = None -> cache s !! owner = None ->
  fst (lookupRepoInstallation W tm owner repo s) = Ok id ->
  let s1 := snd (lookupRepoInstallation W tm owner repo s) in
  let ts := List.length (heap s) in
  TokenForRepo W tm owner repo s =
    (ws_Token W (trace s1 ++ [EvFactory owner ts]) ts,
     {| heap := heap s ++ [InstallationTS id (appTokenSource tm)];
        cache := <[owner := ts]> (cache s);
        trace := (trace s1 ++ [EvFactory owner ts]) ++ [EvToken ts] |}).
Proof.
  intros Hi Ho Hl. rewrite (TokenForRepo_discover _ _ _ _ _ Hi Ho).
  destruct (framed_lookupRepoInstallation W tm owner repo s) as (Hh & Hc & _).
  destruct (lookupRepoInstallation W tm owner repo s) as [[id'|e] s1]; cbn in *;
    [|discriminate].
  inversion Hl; subst id'.
  rewrite getOrSetSource_miss by (rewrite Hc; exact Ho).
  unfold NewInstallationTokenSource, alloc, log. cbn. rewrite Hh, Hc. reflexivity.
Qed.

(** C6.  In dynamic-discovery mode, let a call for an owner that is not
    yet cached succeed.  Then that call looked up an installation id, and
    the owner is now bound to a source built from it, the source the
    returned token came from.  After any further calls, a call for the same
    owner and any repository asks that same source for its token and adds to
    the trace that one token request only: no second lookup. *)
Theorem TokenForRepo_reuses_discovered_source :
  forall (W : World) (tm : TokenManager) (s : State) (owner r1 : string) (tok : Token),
    installationId tm = None ->
    cache s !! owner = None ->
    fst (TokenForRepo W tm owner r1 s) = Ok tok ->
    let s1 := snd (TokenForRepo W tm owner r1 s) in
    exists ts id,
      fst (lookupRepoInstallation W tm owner r1 s) = Ok id
      /\ cache s1 !! owner = Some ts
      /\ heap s1 !! ts = Some (InstallationTS id (appTokenSource tm))
      /\ (exists tr, trace s1 = tr ++ [EvToken ts] /\ ws_Token W tr ts = Ok tok)
      /\ forall (calls : list (string * string)) (r2 : string),
           let s2 := snd (runTokenCalls W tm calls s1) in
           TokenForRepo W tm owner r2 s2 = (ws_Token W (trace s2) ts, log (EvToken ts) s2)
           /\ new_events s2 (snd (TokenForRepo W tm owner r2 s2)) = [EvToken ts].
Proof.
  intros W tm s owner r1 tok Hi Ho Hok s1.
  destruct (fst (lookupRepoInstallation W tm owner r1 s)) as [id|e] eqn:Hl.
  2:{ exfalso. rewrite (TokenForRepo_discover _ _ _ _ _ Hi Ho) in Hok.
      destruct (lookupRepoInstallation W tm owner r1 s) as [[id|e'] sl]; cbn in *;
        discriminate. }
  pose proof (TokenForRepo_discovered W tm owner r1 s id Hi Ho Hl) as E.
  cbv zeta in E. subst s1. rewrite E in *. cbn [fst snd] in *.
  exists (List.length (heap s)), id. split; [reflexivity|].
  assert (Hb : cache {| heap := heap s ++ [InstallationTS id (appTokenSource tm)];
                        cache := <[owner := List.length (heap s)]> (cache s);
                        trace := (trace (snd (lookupRepoInstallation W tm owner r1 s))
                                  ++ [EvFactory owner (List.length (heap s))])
                                 ++ [EvToken (List.length (heap s))] |}
               !! owner = Some (List.length (heap s))).
  { cbn. apply lookup_insert_eq. }
  split; [exact Hb|]. split.
  { cbn. apply list_lookup_middle. reflexivity. }
  split.
  { eexists. split; [reflexivity | exact Hok]. }
  intros calls r2.
  pose proof (runTokenCalls_keeps W tm calls _ _ _ Hb) as Hk.
  rewrite (TokenForRepo_cached _ _ _ _ _ _ Hk). split; [reflexivity|].
  apply new_events_app. reflexivity.
Qed.

Lemma TokenForRepo_reuses_discovered_source_witness :
  installationId dynamicManager = None
  /\ cache startState !! "acme" = None
  /\ fst (TokenForRepo acmeWorld dynamicManager "acme" "widgets" startState)
     = Ok {| AccessToken := "t1" |}
  /\ exists ts,
       new_events
         (snd (TokenForRepo acmeWorld dynamicManager "acme" "widgets" startState))
         (snd (TokenForRepo acmeWorld dynamicManager "acme" "other-widgets"
                 (snd (TokenForRepo acmeWorld dynamicManager "acme" "widgets" startState))))
       = [EvToken ts].
Proof.
  split; [reflexivity|]. split; [reflexivity|]. split; [vm_compute; reflexivity|].
  destruct (TokenForRepo_reuses_discovered_source acmeWorld dynamicManager startState
              "acme" "widgets" {| AccessToken := "t1" |} eq_refl eq_refl
              ltac:(vm_compute; reflexivity))
    as (ts & id & _ & _ & _ & _ & Hnext).
  destruct (Hnext [] "other-widgets") as [_ E]. cbn [runTokenCalls snd] in E.
  exists ts. exact E.
Defined.

(** ** Failure of TokenForRepo *)

(** C8 as stated fails: the lookup succeeds, the new source is stored,
    and only then does its [Token()] fail.  The call returns an error and
    the cache has gained an entry for the owner. *)
Lemma TokenForRepo_failure_unchanged_cache_counterexample :
  fst (TokenForRepo refusingWorld dynamicManager "acme" "widgets" startState)
    = Err "installation token request failed"
  /\ cache startState !! "acme" = None
  /\ cache (snd (TokenForRepo refusingWorld dynamicManager "acme" "widgets" startState))
       !! "acme" = Some 1
  /\ cache (snd (TokenForRepo refusingWorld dynamicManager "acme" "widgets" startState))
     <> cache startState.
Proof.
  split; [vm_compute; reflexivity|]. split; [reflexivity|].
  split; [vm_compute; reflexivity|].
  intros E.
  assert (H : cache (snd (TokenForRepo refusingWorld dynamicManager "acme" "widgets"
                            startState)) !! "acme" = Some 1) by (vm_compute; reflexivity).
  rewrite E in H. discriminate H.
Qed.

(** C8, amended.  What a call of [TokenForRepo] leaves in the cache, by
    the way it went.  For an owner that is cached, the call returns what the
    cached source's [Token()] answers, token or error, and heap and cache are
    as before.  For an owner that is not cached: in fixed-installation mode a
    source built from the configured id is stored under the owner before its
    [Token()] is asked, and the answer of that [Token()], token or error, is
    returned; in dynamic-discovery mode, when the installation lookup returns
    an error, that error is returned wrapped, heap and cache are as before,
    and the next call for the owner starts with a new lookup; when the lookup
    succeeds, the source built from the discovered id is stored under the
    owner and the answer of its [Token()], token or error, is returned.  In
    both storing cases the entry stays when [Token()] fails, and the next call
    for the owner asks the stored source again. *)
Theorem TokenForRepo_failure_and_cache :
  forall (W : World) (tm : TokenManager) (s : State) (owner repo : string),
    let out := TokenForRepo W tm owner repo s in
    match cache s !! owner with
    | Some ts =>
        fst out = ws_Token W (trace s) ts
        /\ cache (snd out) = cache s
        /\ heap (snd out) = heap s
    | None =>
        match installationId tm with
        | Some fixed => storedSource W tm owner s out fixed
        | None =>
            match fst (lookupRepoInstallation W tm owner repo s) with
            | Err e =>
                fst out
                = Err (("looking up installation for " +:+ owner +:+ "/" +:+ repo +:+ ": ")
                       +:+ e)
                /\ cache (snd out) = cache s
                /\ heap (snd out) = heap s
                /\ forall repo', exists evs,
                     new_events (snd out) (snd (TokenForRepo W tm owner repo' (snd out)))
                     = EvLookup owner repo' :: evs
            | Ok id => storedSource W tm owner s out id
            end
        end
    end.
Proof.
  intros W tm s owner repo out. subst out.
  destruct (cache s !! owner) as [t0|] eqn:Ho.
  { rewrite (TokenForRepo_cached _ _ _ _ _ _ Ho). repeat split. }
  destruct (installationId tm) as [fixed|] eqn:Hi.
  { rewrite (TokenForRepo_fixed _ _ _ _ _ _ Hi). cbv zeta.
    rewrite (getOrSetSource_miss _ _ _ Ho).
    unfold NewInstallationTokenSource, alloc, storedSource. cbn [fst snd log heap cache trace].
    exists (List.length (heap s)), (trace s ++ [EvFactory owner (List.length (heap s))]).
    split; [reflexivity|]. split; [apply list_lookup_middle; reflexivity|].
    split; [reflexivity|]. split; [reflexivity|].
    intros repo'. apply TokenForRepo_cached. cbn. apply lookup_insert_eq. }
  destruct (fst (lookupRepoInstallation W tm owner repo s)) as [id|e] eqn:Hl.
  - pose proof (TokenForRepo_discovered W tm owner repo s id Hi Ho Hl) as E.
    cbv zeta in E. rewrite E. unfold storedSource. cbn [fst snd heap cache trace].
    exists (List.length (heap s)),
           (trace (snd (lookupRepoInstallation W tm owner repo s))
            ++ [EvFactory owner (List.length (heap s))]).
    split; [reflexivity|]. split; [apply list_lookup_middle; reflexivity|].
    split; [reflexivity|]. split; [reflexivity|].
    intros repo'. apply TokenForRepo_cached. cbn. apply lookup_insert_eq.
  - assert (E : TokenForRepo W tm owner repo s =
                  (Err (("looking up installation for " +:+ owner +:+ "/" +:+ repo +:+ ": ")
                        +:+ e),
                   snd (lookupRepoInstallation W tm owner repo s))).
    { rewrite (TokenForRepo_discover _ _ _ _ _ Hi Ho).
      destruct (lookupRepoInstallation W tm owner repo s) as [[id|e'] sl]; cbn in *;
        [discriminate|]. inversion Hl. reflexivity. }
    destruct (framed_lookupRepoInstallation W tm owner repo s) as (Hh & Hc & _).
    rewrite E. cbn [fst snd]. split; [reflexivity|].
    split; [exact Hc|]. split; [exact Hh|].
    intros repo'.
    set (sl := snd (lookupRepoInstallation W tm owner repo s)) in *.
    assert (Ho' : cache sl !! owner = None) by (rewrite Hc; exact Ho).
    rewrite (TokenForRepo_discover _ _ _ _ _ Hi Ho').
    destruct (lookupRepoInstallation_trace W tm owner repo' sl) as (evs & Et).
    destruct (lookupRepoInstallation W tm owner repo' sl) as [[id|e'] sl'];
      cbn [fst snd] in *.
    + pose proof (getOrSetSource_trace owner
                    (NewInstallationTokenSource id (appTokenSource tm)) sl') as Hg.
      eexists. apply new_events_app. cbn. rewrite Hg, Et.
      rewrite <- !app_assoc. reflexivity.
    + exists evs. apply new_events_app. exact Et.
Qed.

Lemma TokenForRepo_failure_and_cache_witness :
  cache startState !! "acme" = None
  /\ installationId dynamicManager = None
  /\ cache (snd (TokenForRepo emptyWorld dynamicManager "acme" "widgets" startState))
     = cache startState
  /\ fst (TokenForRepo refusingWorld fixedManager "acme" "widgets" startState)
     = Err "installation token request failed"
  /\ cache (snd (TokenForRepo refusingWorld fixedManager "acme" "widgets" startState))
       !! "acme" = Some 1.
Proof.
  split; [reflexivity|]. split; [reflexivity|]. split.
  - pose proof (TokenForRepo_failure_and_cache emptyWorld dynamicManager startState
                  "acme" "widgets") as H.
    cbv zeta in H.
    assert (Ho : cache startState !! "acme" = None) by reflexivity.
    rewrite Ho in H. cbn [installationId dynamicManager] in H.
    assert (Hl : fst (lookupRepoInstallation emptyWorld dynamicManager "acme" "widgets"
                        startState)
                 = Err "decoding installation response: unexpected end of JSON input")
      by (vm_compute; reflexivity).
    rewrite Hl in H. apply H.
  - pose proof (TokenForRepo_failure_and_cache refusingWorld fixedManager startState
                  "acme" "widgets") as H.
    cbv zeta in H.
    assert (Ho : cache startState !! "acme" = None) by reflexivity.
    rewrite Ho in H. cbn [installationId fixedManager] in H.
    destruct H as (ts & tr & Hc & _ & _ & _ & _).
    split; [vm_compute; reflexivity|].
    vm_compute. reflexivity.
Defined.

(** ** GithubTripper.RoundTrip *)

(** Whatever [TokenForRepo] sends over HTTP carries no repository
    context: it is the lookup's own request, never a proxied one. *)
Lemma TokenForRepo_events W tm owner repo s :
  exists evs, trace (snd (TokenForRepo W tm owner repo s)) = trace s ++ evs
              /\ Forall noContextHTTP evs.
Proof.
  destruct (cache s !! owner) as [t0|] eqn:Ho.
  { rewrite (TokenForRepo_cached _ _ _ _ _ _ Ho). exists [EvToken t0].
    split; [reflexivity | repeat constructor]. }
  destruct (installationId tm) as [fixed|] eqn:Hi.
  - rewrite (TokenForRepo_fixed _ _ _ _ _ _ Hi). cbn.
    rewrite getOrSetSource_trace, Ho. eexists. rewrite <- app_assoc.
    split; [reflexivity | repeat constructor].
  - rewrite (TokenForRepo_discover _ _ _ _ _ Hi Ho).
    destruct (framed_lookupRepoInstallation W tm owner repo s) as (_ & Hc & evs & Et & F).
    assert (F' : Forall noContextHTTP evs).
    { eapply Forall_impl; [exact F|]. intros [] Hev; cbn in *; auto. }
    destruct (lookupRepoInstallation W tm owner repo s) as [[id|e] s1]; cbn [fst snd] in *.
    + cbn. rewrite getOrSetSource_trace, Hc, Ho, Et.
      eexists. rewrite <- !app_assoc. split; [reflexivity|].
      apply Forall_app. split; [exact F' | repeat constructor].
    + exists evs. split; assumption.
Qed.

(** C4.  [RoundTrip] on a request without repository context returns an
    error and leaves the state as it was.  With a context, it calls
    [TokenForRepo]; if that fails the error is returned wrapped, the state is
    the one [TokenForRepo] left, and no request carrying a repository context
    (so not this one) has reached the transport; if it succeeds the request,
    with its Authorization header set to the token, is handed to the
    transport once, as the last thing that happens. *)
Theorem RoundTrip_needs_context_and_token :
  forall (W : World) (tm : TokenManager) (req : Request) (s : State),
    match Ctx req with
    | None =>
        RoundTrip W tm req s = (Err "no repo context set on request", s)
    | Some ri =>
        let s1 := snd (TokenForRepo W tm (Owner ri) (Repo ri) s) in
        match fst (TokenForRepo W tm (Owner ri) (Repo ri) s) with
        | Err e =>
            RoundTrip W tm req s = (Err ("error getting token: " +:+ e), s1)
            /\ Forall noContextHTTP (new_events s s1)
        | Ok token =>
            let req' := Header_Set "Authorization" ("token " +:+ AccessToken token) req in
            RoundTrip W tm req s = (ws_RoundTrip W (trace s1) req', log (EvHTTP req') s1)
            /\ Header req' !! "Authorization" = Some ("token " +:+ AccessToken token)
            /\ URL req' = URL req
            /\ exists evs, new_events s (snd (RoundTrip W tm req s)) = evs ++ [EvHTTP req']
                           /\ Forall noContextHTTP evs
        end
    end.
Proof.
  intros W tm req s. unfold RoundTrip, repoFromContext.
  destruct (Ctx req) as [ri|]; [|reflexivity].
  cbn [negb]. unfold bind, wrapErr.
  destruct (TokenForRepo_events W tm (Owner ri) (Repo ri) s) as (evs & Et & F).
  destruct (TokenForRepo W tm (Owner ri) (Repo ri) s) as [[token|e] s1]; cbn [fst snd] in *.
  - split; [reflexivity|]. split; [apply lookup_insert_eq|]. split; [reflexivity|].
    exists evs. split; [|exact F]. apply new_events_app. cbn. rewrite Et.
    symmetry. apply app_assoc.
  - split; [reflexivity|]. rewrite (new_events_app _ _ _ Et). exact F.
Qed.

(** ** The proxy's client *)

Lemma countProxied_app (a b : list Event) :
  countProxied (a ++ b) = countProxied a + countProxied b.
Proof. unfold countProxied. rewrite List.filter_app, length_app. reflexivity. Qed.

Lemma filter_isProxied_noContext evs :
  Forall noContextHTTP evs -> List.filter isProxied evs = [].
Proof.
  induction 1 as [|ev evs Hev _ IH]; [reflexivity|].
  cbn [List.filter]. destruct ev; cbn in *; try exact IH. rewrite Hev. exact IH.
Qed.

Lemma noContextHTTP_proxiedAs ctx evs :
  Forall noContextHTTP evs -> Forall (proxiedAs ctx) evs.
Proof.
  intros F. eapply Forall_impl; [exact F|]. intros [] H; cbn in *; auto.
Qed.

Lemma RoundTrip_ok W tm req s ri token :
  Ctx req = Some ri ->
  fst (TokenForRepo W tm (Owner ri) (Repo ri) s) = Ok token ->
  let s1 := snd (TokenForRepo W tm (Owner ri) (Repo ri) s) in
  let req' := Header_Set "Authorization" ("token " +:+ AccessToken token) req in
  RoundTrip W tm req s = (ws_RoundTrip W (trace s1) req', log (EvHTTP req') s1).
Proof.
  intros Hc Ht. unfold RoundTrip, repoFromContext. rewrite Hc. cbn [negb].
  unfold bind, wrapErr.
  destruct (TokenForRepo W tm (Owner ri) (Repo ri) s) as [[tk|e] s1]; cbn [fst snd] in *;
    [|discriminate].
  inversion Ht; subst tk. reflexivity.
Qed.

Lemma RoundTrip_no_token W tm req s ri e :
  Ctx req = Some ri ->
  fst (TokenForRepo W tm (Owner ri) (Repo ri) s) = Err e ->
  RoundTrip W tm req s
  = (Err ("error getting token: " +:+ e), snd (TokenForRepo W tm (Owner ri) (Repo ri) s)).
Proof.
  intros Hc Ht. unfold RoundTrip, repoFromContext. rewrite Hc. cbn [negb].
  unfold bind, wrapErr.
  destruct (TokenForRepo W tm (Owner ri) (Repo ri) s) as [[tk|e'] s1]; cbn [fst snd] in *;
    [discriminate|].
  inversion Ht; subst e'. reflexivity.
Qed.

(** What the tripper adds to the trace for one request: whatever
    [TokenForRepo] does, then at most the request itself, with the token. *)
Lemma RoundTrip_events W tm req s :
  exists evs, trace (snd (RoundTrip W tm req s)) = trace s ++ evs
    /\ countProxied evs <= 1
    /\ Forall (proxiedAs (Ctx req)) evs.
Proof.
  destruct (Ctx req) as [ri|] eqn:Hc.
  2:{ unfold RoundTrip, repoFromContext. rewrite Hc. cbn [negb].
      exists []. cbn. rewrite app_nil_r. repeat split; [lia | constructor]. }
  destruct (TokenForRepo_events W tm (Owner ri) (Repo ri) s) as (evs & Et & F).
  destruct (fst (TokenForRepo W tm (Owner ri) (Repo ri) s)) as [tok|e] eqn:Ht.
  - rewrite (RoundTrip_ok W tm req s ri tok Hc Ht). cbn [snd log trace].
    exists (evs ++ [EvHTTP (Header_Set "Authorization" ("token " +:+ AccessToken tok) req)]).
    split; [rewrite Et; symmetry; apply app_assoc|].
    split.
    { rewrite countProxied_app. unfold countProxied at 1.
      rewrite (filter_isProxied_noContext _ F). cbn. rewrite Hc. cbn. lia. }
    apply Forall_app. split; [apply noContextHTTP_proxiedAs, F|].
    constructor; [|constructor]. cbn. right. split; [exact Hc|].
    rewrite lookup_insert_eq. eexists. reflexivity.
  - rewrite (RoundTrip_no_token W tm req s ri e Hc Ht). cbn [snd].
    exists evs. split; [exact Et|]. split.
    + unfold countProxied. rewrite (filter_isProxied_noContext _ F). cbn. lia.
    + apply noContextHTTP_proxiedAs, F.
Qed.

(** The client sends at most one request more than it may follow
    redirects, every one of them in the context of the first. *)
Lemma client_send_events W tm hops : forall ireq req s,
  Ctx req = Ctx ireq ->
  exists evs, trace (snd (client_send W tm hops ireq req s)) = trace s ++ evs
    /\ countProxied evs <= S hops
    /\ Forall (proxiedAs (Ctx ireq)) evs.
Proof.
  induction hops as [|hops IH]; intros ireq req s Hc; cbn [client_send];
    destruct (RoundTrip_events W tm req s) as (evs & Et & Hn & F); rewrite Hc in F;
    destruct (RoundTrip W tm req s) as [[resp|e] s1]; cbn [fst snd] in *;
    try (exists evs; repeat split; [assumption | lia | assumption]).
  - exists evs.
    destruct (followsRedirect resp); [destruct (ws_resolveReference W _ _)|];
      cbn [snd]; repeat split; assumption || lia.
  - destruct (followsRedirect resp);
      [destruct (ws_resolveReference W (URL req) (Location resp)) as [u|e]|];
      cbn [snd]; try (exists evs; repeat split; [assumption | lia | assumption]).
    destruct (IH ireq (nextHop W ireq req resp u) s1 eq_refl) as (evs2 & Et2 & Hn2 & F2).
    exists (evs ++ evs2). split; [rewrite Et2, Et; symmetry; apply app_assoc|].
    split; [rewrite countProxied_app; lia | apply Forall_app; split; assumption].
Qed.

Lemma client_send_first W tm hops ireq req s ri token :
  Ctx req = Some ri ->
  fst (TokenForRepo W tm (Owner ri) (Repo ri) s) = Ok token ->
  client_send W tm hops ireq req s
  = afterFirstHop W tm hops ireq req
      (Header_Set "Authorization" ("token " +:+ AccessToken token) req)
      (snd (TokenForRepo W tm (Owner ri) (Repo ri) s)).
Proof.
  intros Hc Ht. pose proof (RoundTrip_ok W tm req s ri token Hc Ht) as E. cbv zeta in E.
  unfold afterFirstHop. destruct hops; cbn [client_send]; rewrite E;
    destruct (ws_RoundTrip W _ _) as [resp|e]; reflexivity.
Qed.

Lemma client_send_no_token W tm hops ireq req s ri e :
  Ctx req = Some ri ->
  fst (TokenForRepo W tm (Owner ri) (Repo ri) s) = Err e ->
  client_send W tm hops ireq req s
  = (Err (ws_clientError W req ("error getting token: " +:+ e)),
     snd (TokenForRepo W tm (Owner ri) (Repo ri) s)).
Proof.
  intros Hc Ht. pose proof (RoundTrip_no_token W tm req s ri e Hc Ht) as E.
  destruct hops; cbn [client_send]; rewrite E; reflexivity.
Qed.

(** Once the token is there, the first thing the client adds to the trace
    is the request itself; what follows are the hops of followed
    redirects. *)
Lemma afterFirstHop_trace W tm hops ireq req req' s1 :
  Ctx req = Ctx ireq -> Ctx req' = Ctx ireq ->
  is_Some (Header req' !! "Authorization") ->
  exists evs,
    trace (snd (afterFirstHop W tm hops ireq req req' s1)) = trace s1 ++ EvHTTP req' :: evs
    /\ countProxied evs <= hops
    /\ Forall (proxiedAs (Ctx ireq)) evs.
Proof.
  intros Hc Hc' Ha. unfold afterFirstHop.
  assert (Hstop : exists evs,
             trace (log (EvHTTP req') s1) = trace s1 ++ EvHTTP req' :: evs
             /\ countProxied evs <= hops /\ Forall (proxiedAs (Ctx ireq)) evs).
  { exists []. split; [reflexivity|]. split; [cbn; lia | constructor]. }
  destruct (ws_RoundTrip W (trace s1) req') as [resp|e]; cbn [snd]; [|exact Hstop].
  destruct (followsRedirect resp); cbn [snd]; [|exact Hstop].
  destruct (ws_resolveReference W (URL req) (Location resp)) as [u|e]; cbn [snd];
    [|exact Hstop].
  destruct hops as [|hops]; cbn [snd]; [exact Hstop|].
  destruct (client_send_events W tm hops ireq (nextHop W ireq req resp u)
              (log (EvHTTP req') s1) eq_refl) as (evs & Et & Hn & F).
  exists evs. split; [|split; [lia | exact F]].
  rewrite Et. cbn [log trace]. rewrite <- app_assoc. reflexivity.
Qed.

(** ** The handlers *)

Lemma rangeAssets_no_match W tm ctx name assets w s :
  Forall (fun f => Name f <> name) assets ->
  rangeAssets W tm ctx name assets w s = (None, s).
Proof.
  induction 1 as [|f rest Hf _ IH]; cbn [rangeAssets]; [reflexivity|].
  destruct (String.eqb_spec (Name f) name) as [E|_]; [contradiction | exact IH].
Qed.

Lemma rangeAssets_first_match W tm ctx name pre a post w s :
  Forall (fun f => Name f <> name) pre ->
  Name a = name ->
  rangeAssets W tm ctx name (pre ++ a :: post) w s =
    match file W tm ctx a s with
    | (Err e, s1) =>
        (Some (http_Error w ("Error fetching file content: " +:+ e)
                 StatusInternalServerError), s1)
    | (Ok d, s1) => (Some (io_Copy w d), s1)
    end.
Proof.
  intros Hpre Ha. induction Hpre as [|f rest Hf _ IH]; cbn [rangeAssets app].
  - rewrite Ha, String.eqb_refl. reflexivity.
  - destruct (String.eqb_spec (Name f) name) as [E|_]; [contradiction | exact IH].
Qed.

Lemma sentStatus_http_Error w msg code :
  rw_status w = None -> sentStatus (http_Error w msg code) = code.
Proof.
  intros H. unfold http_Error, Write, WriteHeader, sentStatus. rewrite H. reflexivity.
Qed.

(** [file] and [files] in terms of the exchange their client has with the
    provider. *)
Lemma file_client W tm ctx a s :
  ws_urlError W (AssetURL a) = None ->
  file W tm ctx a s
  = match client_Do W tm (assetClientRequest ctx a) s with
    | (Ok resp, s') =>
        if (StatusCode resp =? StatusOK)%Z then (Ok (Body resp), s')
        else (Err ("GitHub API returned non-200 status for asset: " +:+ Status resp), s')
    | (Err e, s') => (Err ("error making request for asset: " +:+ e), s')
    end.
Proof.
  intros Hu. unfold file, bind, wrapErr, lift, NewRequestWithContext. rewrite Hu.
  fold (assetClientRequest ctx a).
  destruct (client_Do W tm (assetClientRequest ctx a) s) as [[resp|e] s1]; [|reflexivity].
  destruct (StatusCode resp =? StatusOK)%Z; reflexivity.
Qed.

Lemma files_client W tm ctx user repo tag s :
  ws_urlError W (releaseURL W user repo tag) = None ->
  files W tm ctx user repo tag s
  = match client_Do W tm (releaseClientRequest ctx (releaseURL W user repo tag)) s with
    | (Ok resp, s') =>
        if (StatusCode resp =? StatusOK)%Z
        then (match ws_decodeRelease W (Body resp) with
              | Ok fs => Ok (Assets fs)
              | Err e => Err ("error decoding GitHub API response: " +:+ e)
              end, s')
        else (Err ("GitHub API returned non-200 status: " +:+ Status resp), s')
    | (Err e, s') => (Err ("error making request to GitHub API: " +:+ e), s')
    end.
Proof.
  intros Hu. unfold files, bind, wrapErr, lift, NewRequestWithContext.
  fold (releaseURL W user repo tag). rewrite Hu.
  fold (releaseClientRequest ctx (releaseURL W user repo tag)).
  destruct (client_Do W tm _ s) as [[resp|e] s1]; [|reflexivity].
  destruct (StatusCode resp =? StatusOK)%Z; cbn [negb]; [|reflexivity].
  destruct (ws_decodeRelease W (Body resp)); reflexivity.
Qed.

(** The exchange of a request that carries the context of [user] and
    [repo], once [TokenForRepo] has produced a token. *)
Lemma client_Do_first W tm req c user repo s token :
  Ctx req = withRepo c user repo ->
  fst (TokenForRepo W tm user repo s) = Ok token ->
  client_Do W tm req s
  = afterFirstHop W tm 9 req req
      (Header_Set "Authorization" ("token " +:+ AccessToken token) req)
      (snd (TokenForRepo W tm user repo s)).
Proof.
  intros Hc Ht. unfold client_Do.
  apply (client_send_first W tm 9 req req s {| Owner := user; Repo := repo |} token Hc Ht).
Qed.

(** An answer that is no redirect to follow ends the exchange. *)
Lemma afterFirstHop_final W tm hops ireq req req' s1 :
  match ws_RoundTrip W (trace s1) req' with
  | Ok resp =>
      followsRedirect resp = false ->
      afterFirstHop W tm hops ireq req req' s1 = (Ok resp, log (EvHTTP req') s1)
  | Err e =>
      afterFirstHop W tm hops ireq req req' s1
      = (Err (ws_clientError W req e), log (EvHTTP req') s1)
  end.
Proof.
  unfold afterFirstHop. destruct (ws_RoundTrip W (trace s1) req') as [resp|e];
    [|reflexivity].
  intros ->. reflexivity.
Qed.

Lemma taggedHandler_no_match W tm w r s fs :
  let ctx := withRepo (Ctx r) (PathValue r "user") (PathValue r "repo") in
  fst (files W tm ctx (PathValue r "user") (PathValue r "repo") (PathValue r "tag") s)
    = Ok fs ->
  Forall (fun f => Name f <> PathValue r "tag") fs ->
  taggedHandler W tm w r s
  = (w, snd (files W tm ctx (PathValue r "user") (PathValue r "repo")
               (PathValue r "tag") s)).
Proof.
  intros ctx Hf Hn. unfold taggedHandler. fold ctx.
  destruct (files W tm ctx _ _ _ s) as [[fs'|e] s1]; cbn [fst snd] in *; [|discriminate].
  inversion Hf; subst fs'. rewrite (rangeAssets_no_match _ _ _ _ _ _ _ Hn). reflexivity.
Qed.

(** The sibling handler does answer 404, and sends nothing after the
    release request. *)
Lemma taggedFileHandler_no_match W tm w r s fs :
  let ctx := withRepo (Ctx r) (PathValue r "user") (PathValue r "repo") in
  fst (files W tm ctx (PathValue r "user") (PathValue r "repo") (PathValue r "tag") s)
    = Ok fs ->
  Forall (fun f => Name f <> PathValue r "file") fs ->
  rw_status w = None ->
  taggedFileHandler W tm w r s
  = (http_Error w "File not found in release assets" StatusNotFound,
     snd (files W tm ctx (PathValue r "user") (PathValue r "repo") (PathValue r "tag") s))
  /\ sentStatus (fst (taggedFileHandler W tm w r s)) = 404%Z.
Proof.
  intros ctx Hf Hn Hw. unfold taggedFileHandler. fold ctx.
  destruct (files W tm ctx _ _ _ s) as [[fs'|e] s1]; cbn [fst snd] in *; [|discriminate].
  inversion Hf; subst fs'. rewrite (rangeAssets_no_match _ _ _ _ _ _ _ Hn).
  split; [reflexivity|]. cbn [fst]. apply sentStatus_http_Error, Hw.
Qed.

(** C2 on the route [/{user}/{repo}/{tag}].  The release of the sample
    provider holds [widgets.tar.gz] and [checksums.txt]; a GET of
    [/acme/widgets/v1.2.3] is routed to [taggedHandler] and finds no asset
    named [v1.2.3].  The handler returns without having written anything, so
    the client is sent 200 with an empty body, not 404.  Exactly one request
    was proxied upstream, the one for the release. *)
Theorem taggedHandler_no_match_answers_200 :
  let out := ServeHTTP acmeWorld dynamicManager newResponseWriter
               (inbound "GET" "/acme/widgets/v1.2.3") startState in
  option_map fst (findHandler NewGithubPrivateReleaseProxy "GET" "/acme/widgets/v1.2.3")
    = Some h_taggedHandler
  /\ Forall (fun f => Name f <> "v1.2.3") sampleAssets
  /\ fst out = newResponseWriter
  /\ sentStatus (fst out) = 200%Z
  /\ sentStatus (fst out) <> StatusNotFound
  /\ countProxied (trace (snd out)) = 1.
Proof.
  cbv zeta. split; [vm_compute; reflexivity|].
  split; [repeat constructor; discriminate|].
  split; [vm_compute; reflexivity|].
  split; [vm_compute; reflexivity|].
  split; [vm_compute; discriminate|].
  vm_compute; reflexivity.
Qed.

(** Both handlers, once the release lists an asset of the wanted name:
    the first such asset is fetched and decides the answer. *)
Lemma rangeAssets_fetch W tm ctx name pre a post w s :
  Forall (fun f => Name f <> name) pre ->
  Name a = name ->
  rw_status w = None ->
  ws_urlError W (AssetURL a) = None ->
  let exchange := client_Do W tm (assetClientRequest ctx a) s in
  snd (rangeAssets W tm ctx name (pre ++ a :: post) w s) = snd exchange
  /\ match fst exchange with
     | Ok resp =>
         if (StatusCode resp =? 200)%Z
         then fst (rangeAssets W tm ctx name (pre ++ a :: post) w s)
              = Some (io_Copy w (Body resp))
         else exists w', fst (rangeAssets W tm ctx name (pre ++ a :: post) w s) = Some w'
                         /\ sentStatus w' = 500%Z
     | Err _ =>
         exists w', fst (rangeAssets W tm ctx name (pre ++ a :: post) w s) = Some w'
                    /\ sentStatus w' = 500%Z
     end.
Proof.
  intros Hpre Ha Hw Hu exchange. subst exchange.
  rewrite (rangeAssets_first_match _ _ _ _ _ _ _ _ _ Hpre Ha).
  rewrite (file_client W tm ctx a s Hu).
  destruct (client_Do W tm (assetClientRequest ctx a) s) as [[resp|e] s1]; cbn [fst snd].
  - change 200%Z with StatusOK. destruct (StatusCode resp =? StatusOK)%Z; cbn [fst snd].
    + split; reflexivity.
    + split; [reflexivity|]. eexists. split; [reflexivity|].
      apply sentStatus_http_Error, Hw.
  - split; [reflexivity|]. eexists. split; [reflexivity|].
    apply sentStatus_http_Error, Hw.
Qed.

(** C7 as stated fails on "a non-success status on that request yields a
    500 response".  The provider answers the request for the asset's API URL
    with 302 and a Location, as GitHub does for release assets; the client
    follows the redirect through the tripper, the second answer is 200, and
    the handler sends 200 with the bytes of the second answer. *)
Lemma taggedFileHandler_redirect_counterexample :
  ws_RoundTrip redirectingWorld
    (trace (snd (TokenForRepo redirectingWorld dynamicManager "acme" "widgets"
                   (snd (files redirectingWorld dynamicManager
                           (Some {| Owner := "acme"; Repo := "widgets" |})
                           "acme" "widgets" "v1.2.3" startState)))))
    (assetRequest (Some {| Owner := "acme"; Repo := "widgets" |})
       (sampleAsset "widgets.tar.gz" "U1") {| AccessToken := "t1" |})
  = Ok {| StatusCode := 302; Status := "302 Found";
          RespHeader := <["Location" := "https://objects.example/U1"]> ∅;
          Body := EmptyString |}
  /\ sentStatus (fst (taggedFileHandler redirectingWorld dynamicManager newResponseWriter
                        fileRequest startState)) = 200%Z
  /\ sentStatus (fst (taggedFileHandler redirectingWorld dynamicManager newResponseWriter
                        fileRequest startState)) <> 500%Z
  /\ rw_body (fst (taggedFileHandler redirectingWorld dynamicManager newResponseWriter
                     fileRequest startState))
     = "bytes of https://objects.example/U1"
  /\ countProxied (trace (snd (taggedFileHandler redirectingWorld dynamicManager
                                 newResponseWriter fileRequest startState))) = 3.
Proof.
  split; [vm_compute; reflexivity|]. split; [vm_compute; reflexivity|].
  split; [vm_compute; discriminate|]. split; vm_compute; reflexivity.
Qed.

(** C7, amended.  Let the release request of [taggedFileHandler] return a
    list in which asset [a] carries exactly the requested file name and no
    asset before it does.  Then [a] is the asset fetched, whatever comes after
    it: once a token is obtained, the next request that goes to the transport
    is a GET of [a]'s API URL with Accept set to application/octet-stream and
    with the Authorization header.  The client follows redirects from there,
    at most nine, each hop in the same repository context and with an
    Authorization header of its own.  The answer the exchange ends with
    decides: status 200 has its body copied to the client, any other status
    or an error makes the handler answer 500.  In particular an answer to the
    asset request that is not a redirect with a Location ends the exchange at
    once. *)
Theorem taggedFileHandler_first_exact_match :
  forall (W : World) (tm : TokenManager) (w : ResponseWriter) (r : Request) (s : State)
         (pre post : list githubFileAsset) (a : githubFileAsset) (token : Token),
    let user := PathValue r "user" in
    let repo := PathValue r "repo" in
    let tag := PathValue r "tag" in
    let name := PathValue r "file" in
    let ctx := withRepo (Ctx r) user repo in
    let s1 := snd (files W tm ctx user repo tag s) in
    let s2 := snd (TokenForRepo W tm user repo s1) in
    let req := assetRequest ctx a token in
    let exchange := client_Do W tm (assetClientRequest ctx a) s1 in
    let out := taggedFileHandler W tm w r s in
    fst (files W tm ctx user repo tag s) = Ok (pre ++ a :: post) ->
    Forall (fun f => Name f <> name) pre ->
    Name a = name ->
    rw_status w = None ->
    ws_urlError W (AssetURL a) = None ->
    fst (TokenForRepo W tm user repo s1) = Ok token ->
    (URL req = AssetURL a
     /\ Method req = "GET"
     /\ Header req !! "Accept" = Some "application/octet-stream"
     /\ Header req !! "Authorization" = Some ("token " +:+ AccessToken token))
    /\ (exists evs,
          trace (snd out) = trace s2 ++ EvHTTP req :: evs
          /\ countProxied evs <= 9
          /\ Forall (proxiedAs ctx) evs)
    /\ exchange
       = afterFirstHop W tm 9 (assetClientRequest ctx a) (assetClientRequest ctx a) req s2
    /\ snd out = snd exchange
    /\ match fst exchange with
       | Ok resp =>
           if (StatusCode resp =? 200)%Z
           then fst out = io_Copy w (Body resp)
           else sentStatus (fst out) = 500%Z
       | Err _ => sentStatus (fst out) = 500%Z
       end
    /\ match ws_RoundTrip W (trace s2) req with
       | Ok resp =>
           followsRedirect resp = false ->
           snd out = log (EvHTTP req) s2
           /\ if (StatusCode resp =? 200)%Z
              then fst out = io_Copy w (Body resp)
              else sentStatus (fst out) = 500%Z
       | Err _ => snd out = log (EvHTTP req) s2 /\ sentStatus (fst out) = 500%Z
       end.
Proof.
  intros W tm w r s pre post a token user repo tag name ctx s1 s2 req exchange out
         Hf Hpre Ha Hw Hu Ht.
  destruct (rangeAssets_fetch W tm ctx name pre a post w s1 Hpre Ha Hw Hu) as [Hs Hr].
  fold exchange in Hs, Hr.
  assert (Hout : out = match rangeAssets W tm ctx name (pre ++ a :: post) w s1 with
                       | (Some w', s'') => (w', s'')
                       | (None, s'') =>
                           (http_Error w "File not found in release assets" StatusNotFound,
                            s'')
                       end).
  { subst out. unfold taggedFileHandler. fold user repo tag name ctx. subst s1.
    destruct (files W tm ctx user repo tag s) as [[fs|e] sf]; cbn [fst snd] in *;
      [|discriminate].
    inversion Hf; subst fs. reflexivity. }
  assert (Hex : exchange
                = afterFirstHop W tm 9 (assetClientRequest ctx a) (assetClientRequest ctx a)
                    req s2).
  { apply (client_Do_first W tm (assetClientRequest ctx a) (Ctx r) user repo s1 token);
      [reflexivity | exact Ht]. }
  assert (Hsnd : snd out = snd exchange).
  { rewrite Hout, <- Hs.
    destruct (rangeAssets W tm ctx name (pre ++ a :: post) w s1) as [[w'|] s'];
      reflexivity. }
  assert (Hfst : match fst exchange with
                 | Ok resp =>
                     if (StatusCode resp =? 200)%Z
                     then fst out = io_Copy w (Body resp)
                     else sentStatus (fst out) = 500%Z
                 | Err _ => sentStatus (fst out) = 500%Z
                 end).
  { rewrite Hout.
    destruct (fst exchange) as [resp|e];
      [destruct (StatusCode resp =? 200)%Z|];
      destruct (rangeAssets W tm ctx name (pre ++ a :: post) w s1) as [[w'|] s'];
      cbn [fst] in *;
      try (destruct Hr as (w0 & Hr & Hst)); try discriminate;
      inversion Hr; subst; try reflexivity; assumption. }
  split.
  { split; [reflexivity|]. split; [reflexivity|]. split.
    - unfold req, assetRequest, Header_Set. cbn [Header].
      rewrite lookup_insert_ne by discriminate. apply lookup_insert_eq.
    - apply lookup_insert_eq. }
  split.
  { rewrite Hsnd, Hex.
    destruct (afterFirstHop_trace W tm 9 (assetClientRequest ctx a)
                (assetClientRequest ctx a) req s2 eq_refl eq_refl) as (evs & Et & Hn & F).
    { unfold req, assetRequest, Header_Set. cbn [Header].
      rewrite lookup_insert_eq. eexists. reflexivity. }
    exists evs. repeat split; assumption. }
  split; [exact Hex|]. split; [exact Hsnd|]. split; [exact Hfst|].
  pose proof (afterFirstHop_final W tm 9 (assetClientRequest ctx a)
                (assetClientRequest ctx a) req s2) as Hfin.
  rewrite <- Hex in Hfin.
  destruct (ws_RoundTrip W (trace s2) req) as [resp|e].
  - intros Hnf. specialize (Hfin Hnf). rewrite Hfin in Hsnd, Hfst. cbn [fst snd] in *.
    split; assumption.
  - rewrite Hfin in Hsnd, Hfst. cbn [fst snd] in *. split; assumption.
Qed.

Lemma taggedFileHandler_first_exact_match_witness :
  lookalikeAssets
  = [sampleAsset "Widgets.tar.gz" "U-case"; sampleAsset "widgets.tar" "U-prefix"]
    ++ sampleAsset "widgets.tar.gz" "U-first" :: [sampleAsset "widgets.tar.gz" "U-second"]
  /\ Forall (fun f => Name f <> PathValue fileRequest "file")
       [sampleAsset "Widgets.tar.gz" "U-case"; sampleAsset "widgets.tar" "U-prefix"]
  /\ Name (sampleAsset "widgets.tar.gz" "U-first") = PathValue fileRequest "file"
  /\ URL (assetRequest (Some {| Owner := "acme"; Repo := "widgets" |})
            (sampleAsset "widgets.tar.gz" "U-first") {| AccessToken := "t1" |})
     = "U-first"
  /\ sentStatus (fst (taggedFileHandler lookalikeWorld dynamicManager newResponseWriter
                        fileRequest startState)) = 500%Z.
Proof.
  split; [reflexivity|].
  assert (Hpre : Forall (fun f => Name f <> PathValue fileRequest "file")
                   [sampleAsset "Widgets.tar.gz" "U-case";
                    sampleAsset "widgets.tar" "U-prefix"])
    by (repeat constructor; vm_compute; discriminate).
  split; [exact Hpre|]. split; [vm_compute; reflexivity|].
  destruct (taggedFileHandler_first_exact_match lookalikeWorld dynamicManager
              newResponseWriter fileRequest startState
              [sampleAsset "Widgets.tar.gz" "U-case"; sampleAsset "widgets.tar" "U-prefix"]
              [sampleAsset "widgets.tar.gz" "U-second"]
              (sampleAsset "widgets.tar.gz" "U-first") {| AccessToken := "t1" |}
              ltac:(vm_compute; reflexivity) Hpre ltac:(vm_compute; reflexivity)
              eq_refl eq_refl ltac:(vm_compute; reflexivity))
    as ((Hurl & _) & _ & _ & _ & _ & Hresp).
  split; [exact Hurl|].
  vm_compute in Hresp. vm_compute. apply Hresp. reflexivity.
Defined.

(** ** The route table *)

Lemma parse_tagged :
  parsePattern "/{user}/{repo}/{tag}"
  = {| pat_method := None; pat_segments := [Wild "user"; Wild "repo"; Wild "tag"] |}.
Proof. reflexivity. Qed.

Lemma parse_taggedFile :
  parsePattern "/{user}/{repo}/{tag}/{file}"
  = {| pat_method := None;
       pat_segments := [Wild "user"; Wild "repo"; Wild "tag"; Wild "file"] |}.
Proof. reflexivity. Qed.

Lemma parse_download :
  parsePattern "/{user}/{repo}/releases/download/{tag}/{file}"
  = {| pat_method := None;
       pat_segments := [Wild "user"; Wild "repo"; Lit "releases"; Lit "download";
                        Wild "tag"; Wild "file"] |}.
Proof. reflexivity. Qed.

Lemma findHandler_specRoute method path :
  findHandler NewGithubPrivateReleaseProxy method path = specRoute (pathSegments path).
Proof.
  unfold NewGithubPrivateReleaseProxy. cbn [findHandler].
  rewrite parse_tagged, parse_taggedFile, parse_download.
  unfold matchPattern. cbn [pat_method pat_segments].
  generalize (pathSegments path) as segs. intros segs.
  destruct segs as [|a [|b [|c [|d [|e [|f [|g l]]]]]]];
    cbn [matchSegments specRoute];
    repeat match goal with
           | |- context [wildcardValue ?x] => destruct (wildcardValue x)
           | |- context [String.eqb ?x ?y] => destruct (String.eqb x y)
           end;
    reflexivity.
Qed.

(** The mux either redirects to the canonical path or dispatches on it. *)
Lemma ServeHTTP_dispatch W tm w r s :
  ServeHTTP W tm w r s
  = if String.eqb (cleanPath (URL r)) (URL r)
    then match specRoute (pathSegments (URL r)) with
         | Some (h_taggedHandler, vals) => taggedHandler W tm w (withPathValues r vals) s
         | Some (h_taggedFileHandler, vals) =>
             taggedFileHandler W tm w (withPathValues r vals) s
         | None => (http_Error w "404 page not found" StatusNotFound, s)
         end
    else RedirectHandler W (cleanPath (URL r)) StatusMovedPermanently w r s.
Proof.
  unfold ServeHTTP. cbv zeta. rewrite findHandler_specRoute.
  destruct (String.eqb (cleanPath (URL r)) (URL r)); cbn [negb]; [|reflexivity].
  destruct (specRoute (pathSegments (URL r))) as [[[|] vals]|]; reflexivity.
Qed.





(** ** Start-up: buildTokenSource *)

Lemma printInstallations_run installations : forall s,
  printInstallations installations s
  = (Ok tt, {| heap := heap s; cache := cache s;
               trace := trace s ++ List.map (fun i => EvPrint (installationLine i))
                                     installations |}).
Proof.
  induction installations as [|inst rest IH]; intros s; cbn [printInstallations List.map].
  - unfold ret. rewrite app_nil_r. destruct s; reflexivity.
  - unfold bind, emit. rewrite IH. cbn. rewrite <- app_assoc. reflexivity.
Qed.

(** [buildTokenSource] up to the point where the installations are
    known. *)
Lemma buildTokenSource_discovering W config privateKey s ident :
  InstallationId config = None ->
  configIdent config = Some ident ->
  ws_appKeyError W ident privateKey = None ->
  let appTS := List.length (heap s) in
  buildTokenSource W config privateKey s =
    match discoverInstallations W appTS (withAppSource ident privateKey s) with
    | (Err e, s2) => (Err ("discovering installations: " +:+ e), s2)
    | (Ok [], s2) =>
        (Err "no installations found; install the GitHub App on an account first", s2)
    | (Ok [inst], s2) =>
        (Ok (List.length (heap s2)),
         {| heap := heap s2 ++ [InstallationTS (ID inst) appTS];
            cache := cache s2;
            trace := trace s2 ++ [EvPrint ("Using installation " +:+ itoa (ID inst)
                                            +:+ " (" +:+ Login (Account inst) +:+ ")"
                                            +:+ nl)] |})
    | (Ok installations, s2) =>
        (Err "multiple installations found; set installationId in config to select one",
         {| heap := heap s2; cache := cache s2;
            trace := (trace s2 ++ [EvPrint ("Multiple installations found:" +:+ nl)])
                     ++ List.map (fun i => EvPrint (installationLine i)) installations |})
    end.
Proof.
  intros Hn Hid Hk appTS. unfold buildTokenSource. rewrite Hn.
  assert (Happ : forall k : ref -> M ref,
            bind (wrapErr "creating application token source: "
                    (NewApplicationTokenSource W ident privateKey)) k s
            = k appTS (withAppSource ident privateKey s)).
  { intros k. unfold bind, wrapErr, NewApplicationTokenSource. rewrite Hk.
    reflexivity. }
  unfold configIdent in Hid.
  assert (Hstep : forall k : ref -> M ref,
            bind match AppId config, ClientId config with
                 | Some appId, _ =>
                     wrapErr "creating application token source: "
                       (NewApplicationTokenSource W (IdNumber appId) privateKey)
                 | None, Some clientId =>
                     wrapErr "creating application token source: "
                       (NewApplicationTokenSource W (IdClient clientId) privateKey)
                 | None, None => fail "config must set either appId or clientId"
                 end k s
            = k appTS (withAppSource ident privateKey s)).
  { intros k. destruct (AppId config) as [a|]; [|destruct (ClientId config) as [c|]];
      try discriminate; inversion Hid; subst ident; apply Happ. }
  rewrite Hstep. unfold bind at 1. unfold wrapErr.
  destruct (discoverInstallations W appTS (withAppSource ident privateKey s))
    as [[installations|e] s2]; [|reflexivity].
  destruct installations as [|i1 [|i2 rest]].
  - reflexivity.
  - reflexivity.
  - unfold bind, emit. rewrite printInstallations_run. reflexivity.
Qed.

(** C3.  With no installation id configured and the application token
    source created, let discovery return a list of installations.  If the
    list has more than one element, [buildTokenSource] returns an error, has
    created no installation token source, and has printed a heading followed
    by one line per installation, each naming its account and id; if the
    list is empty, it returns an error and does nothing else. *)
Theorem buildTokenSource_rejects_ambiguity :
  forall (W : World) (config : AppConfig) (privateKey : string) (s : State)
         (ident : AppIdent) (installations : list ghInstallation),
    InstallationId config = None ->
    configIdent config = Some ident ->
    ws_appKeyError W ident privateKey = None ->
    let appTS := List.length (heap s) in
    let s1 := withAppSource ident privateKey s in
    let s2 := snd (discoverInstallations W appTS s1) in
    let out := buildTokenSource W config privateKey s in
    fst (discoverInstallations W appTS s1) = Ok installations ->
    (List.length installations > 1 ->
       fst out
       = Err "multiple installations found; set installationId in config to select one"
       /\ heap (snd out) = heap s1
       /\ new_events s2 (snd out)
          = EvPrint ("Multiple installations found:" +:+ nl)
            :: List.map (fun i => EvPrint ("  - " +:+ Login (Account i)
                                           +:+ " (installation ID: " +:+ itoa (ID i)
                                           +:+ ")" +:+ nl)) installations)
    /\ (List.length installations = 0 ->
          out = (Err "no installations found; install the GitHub App on an account first",
                 s2)
          /\ heap s2 = heap s1).
Proof.
  intros W config privateKey s ident installations Hn Hid Hk appTS s1 s2 out Hd.
  subst out. rewrite (buildTokenSource_discovering W config privateKey s ident Hn Hid Hk).
  cbv zeta. fold appTS. fold s1.
  destruct (framed_discoverInstallations W appTS s1) as (Hh & _).
  subst s2.
  destruct (discoverInstallations W appTS s1) as [[l|e] sd]; cbn [fst snd] in *;
    [|discriminate].
  inversion Hd; subst l. split.
  - intros Hlen. destruct installations as [|i1 [|i2 rest]]; cbn in Hlen; try lia.
    cbn [fst snd heap]. split; [reflexivity|]. split; [exact Hh|].
    apply new_events_app. cbn [trace]. rewrite <- app_assoc. reflexivity.
  - intros Hlen. destruct installations as [|i1 rest]; cbn in Hlen; [|lia].
    split; [reflexivity | exact Hh].
Qed.

Lemma buildTokenSource_rejects_ambiguity_witness :
  InstallationId appConfig = None
  /\ configIdent appConfig = Some (IdNumber 1)
  /\ List.length [sampleInstallation 42 "acme"; sampleInstallation 43 "globex"] > 1
  /\ fst (buildTokenSource twoInstallationsWorld appConfig "key" blankState)
     = Err "multiple installations found; set installationId in config to select one"
  /\ heap (snd (buildTokenSource twoInstallationsWorld appConfig "key" blankState))
     = [ApplicationTS (IdNumber 1) "key"].
Proof.
  split; [reflexivity|]. split; [reflexivity|]. split; [cbn; lia|].
  destruct (buildTokenSource_rejects_ambiguity twoInstallationsWorld appConfig "key"
              blankState (IdNumber 1)
              [sampleInstallation 42 "acme"; sampleInstallation 43 "globex"]
              eq_refl eq_refl eq_refl ltac:(vm_compute; reflexivity)) as [Hmany _].
  destruct (Hmany ltac:(cbn; lia)) as (He & Hh & _).
  split; [exact He | exact Hh].
Defined.

(** C10.  With no installation id configured and the application token
    source created, let discovery return exactly one installation.  Then
    [buildTokenSource] returns no error but a new installation token source
    built from that installation's id and the application source, having
    printed which installation it uses. *)
Theorem buildTokenSource_single_installation :
  forall (W : World) (config : AppConfig) (privateKey : string) (s : State)
         (ident : AppIdent) (inst : ghInstallation),
    InstallationId config = None ->
    configIdent config = Some ident ->
    ws_appKeyError W ident privateKey = None ->
    let appTS := List.length (heap s) in
    let s1 := withAppSource ident privateKey s in
    let s2 := snd (discoverInstallations W appTS s1) in
    let out := buildTokenSource W config privateKey s in
    fst (discoverInstallations W appTS s1) = Ok [inst] ->
    exists ts,
      fst out = Ok ts
      /\ heap (snd out) !! ts = Some (InstallationTS (ID inst) appTS)
      /\ heap (snd out) !! appTS = Some (ApplicationTS ident privateKey)
      /\ heap s2 !! ts = None
      /\ new_events s2 (snd out)
         = [EvPrint ("Using installation " +:+ itoa (ID inst) +:+ " ("
                     +:+ Login (Account inst) +:+ ")" +:+ nl)].
Proof.
  intros W config privateKey s ident inst Hn Hid Hk appTS s1 s2 out Hd.
  subst out. rewrite (buildTokenSource_discovering W config privateKey s ident Hn Hid Hk).
  cbv zeta. fold appTS. fold s1.
  destruct (framed_discoverInstallations W appTS s1) as (Hh & _).
  subst s2.
  destruct (discoverInstallations W appTS s1) as [[l|e] sd]; cbn [fst snd] in *;
    [|discriminate].
  inversion Hd; subst l. cbn [fst snd heap trace].
  exists (List.length (heap sd)). split; [reflexivity|].
  split; [apply list_lookup_middle; reflexivity|]. split.
  { rewrite Hh. unfold s1, withAppSource. cbn [heap]. rewrite <- app_assoc.
    apply list_lookup_middle. reflexivity. }
  split; [apply lookup_ge_None; lia|].
  apply new_events_app. reflexivity.
Qed.

Lemma buildTokenSource_single_installation_witness :
  InstallationId appConfig = None
  /\ configIdent appConfig = Some (IdNumber 1)
  /\ exists ts,
       fst (buildTokenSource acmeWorld appConfig "key" blankState) = Ok ts
       /\ heap (snd (buildTokenSource acmeWorld appConfig "key" blankState)) !! ts
          = Some (InstallationTS 42 0).
Proof.
  split; [reflexivity|]. split; [reflexivity|].
  destruct (buildTokenSource_single_installation acmeWorld appConfig "key" blankState
              (IdNumber 1) (sampleInstallation 42 "acme")
              eq_refl eq_refl eq_refl ltac:(vm_compute; reflexivity))
    as (ts & Hr & Hh & _).
  exists ts. split; [exact Hr | exact Hh].
Defined.

(** ** Start-up of the per-owner design: NewTokenManager

    For comparison with [buildTokenSource]: the manager is returned whatever
    discovery says.  Its cache is empty, its installation id is the
    configured one, and the installations found are only printed. *)
Lemma NewTokenManager_run W config privateKey s ident :
  configIdent config = Some ident ->
  ws_appKeyError W ident privateKey = None ->
  let appTS := List.length (heap s) in
  let s1 := withAppSource ident privateKey s in
  let out := NewTokenManager W config privateKey s in
  fst out = Ok {| appTokenSource := appTS; installationId := InstallationId config |}
  /\ cache (snd out) = ∅
  /\ heap (snd out) = heap s1
  /\ forall i1 i2 rest,
       fst (discoverInstallations W appTS
              {| heap := heap s1; cache := ∅; trace := trace s1 |})
       = Ok (i1 :: i2 :: rest) ->
       exists evs,
         trace (snd out)
         = evs ++ EvPrint ("Available installations:" +:+ nl)
               :: List.map (fun i => EvPrint (installationLine i)) (i1 :: i2 :: rest).
Proof.
  intros Hid Hk appTS s1 out. subst out. unfold NewTokenManager.
  assert (Hstep : forall k : ref -> M TokenManager,
            bind match AppId config, ClientId config with
                 | Some appId, _ =>
                     wrapErr "creating application token source: "
                       (NewApplicationTokenSource W (IdNumber appId) privateKey)
                 | None, Some clientId =>
                     wrapErr "creating application token source: "
                       (NewApplicationTokenSource W (IdClient clientId) privateKey)
                 | None, None => fail "config must set either appId or clientId"
                 end k s
            = k appTS s1).
  { intros k. unfold configIdent in Hid.
    destruct (AppId config) as [a|]; [|destruct (ClientId config) as [c|]];
      try discriminate; inversion Hid; subst ident;
      unfold bind, wrapErr, NewApplicationTokenSource; rewrite Hk; reflexivity. }
  rewrite Hstep. unfold bind, resetCache, ret. cbn [fst snd].
  set (s0 := {| heap := heap s1; cache := ∅; trace := trace s1 |}).
  destruct (framed_discoverInstallations W appTS s0) as (Hh & Hc & evs & Et & _).
  destruct (discoverInstallations W appTS s0) as [[l|e] sd]; cbn [fst snd] in *.
  - destruct l as [|i1 l].
    + cbn. repeat split; try assumption. intros ? ? ? E. discriminate E.
    + unfold emit. rewrite printInstallations_run. cbn.
      repeat split; try assumption.
      intros j1 j2 rest E. inversion E; subst. exists (trace sd).
      rewrite <- app_assoc. reflexivity.
  - cbn. repeat split; try assumption. intros ? ? ? E. discriminate E.
Qed.

(** * Further properties of auth.go *)

Lemma countFactory_app owner (a b : list Event) :
  countFactory owner (a ++ b) = countFactory owner a + countFactory owner b.
Proof. unfold countFactory. rewrite List.filter_app, length_app. reflexivity. Qed.

Lemma countFactory_discovery owner evs :
  Forall discoveryEvent evs -> countFactory owner evs = 0.
Proof.
  induction 1 as [|ev evs Hev _ IH]; [reflexivity|].
  unfold countFactory in *. cbn [List.filter].
  destruct ev; cbn in *; try exact IH. contradiction.
Qed.

(** What one call of [TokenForRepo] does to heap, cache and trace: either
    nothing is stored, or the owner was not cached and one new installation
    source is allocated at the end of the heap and bound to the owner. *)
Lemma TokenForRepo_effect W tm owner repo s :
  exists evs,
    trace (snd (TokenForRepo W tm owner repo s)) = trace s ++ evs
    /\ ((heap (snd (TokenForRepo W tm owner repo s)) = heap s
         /\ cache (snd (TokenForRepo W tm owner repo s)) = cache s
         /\ forall k, countFactory k evs = 0)
        \/ (cache s !! owner = None
            /\ (exists id, heap (snd (TokenForRepo W tm owner repo s))
                           = heap s ++ [InstallationTS id (appTokenSource tm)])
            /\ cache (snd (TokenForRepo W tm owner repo s))
               = <[owner := List.length (heap s)]> (cache s)
            /\ forall k, countFactory k evs = if String.eqb owner k then 1 else 0)).
Proof.
  destruct (cache s !! owner) as [t0|] eqn:Ho.
  { rewrite (TokenForRepo_cached _ _ _ _ _ _ Ho). exists [EvToken t0].
    split; [reflexivity|]. left. repeat split. }
  destruct (installationId tm) as [fixed|] eqn:Hi.
  - rewrite (TokenForRepo_fixed _ _ _ _ _ _ Hi). cbn zeta.
    rewrite (getOrSetSource_miss _ _ _ Ho).
    unfold NewInstallationTokenSource, alloc. cbn.
    exists [EvFactory owner (List.length (heap s)); EvToken (List.length (heap s))].
    split; [rewrite <- app_assoc; reflexivity|].
    right. split; [reflexivity|]. split; [eexists; reflexivity|].
    split; [reflexivity|]. intros k. unfold countFactory. cbn.
    destruct (String.eqb owner k); reflexivity.
  - rewrite (TokenForRepo_discover _ _ _ _ _ Hi Ho).
    destruct (framed_lookupRepoInstallation W tm owner repo s) as (Hh & Hc & evs & Et & F).
    destruct (lookupRepoInstallation W tm owner repo s) as [[id|e] s1]; cbn [fst snd] in *.
    + cbn zeta. rewrite getOrSetSource_miss by (rewrite Hc; exact Ho).
      unfold NewInstallationTokenSource, alloc. cbn. rewrite Hh, Hc, Et.
      exists (evs ++ [EvFactory owner (List.length (heap s));
                      EvToken (List.length (heap s))]).
      split; [rewrite <- !app_assoc; reflexivity|].
      right. split; [reflexivity|]. split; [eexists; reflexivity|].
      split; [reflexivity|]. intros k. rewrite countFactory_app.
      rewrite (countFactory_discovery k evs F). unfold countFactory. cbn.
      destruct (String.eqb owner k); reflexivity.
    + exists evs. split; [exact Et|]. left. split; [exact Hh|]. split; [exact Hc|].
      intros k. apply countFactory_discovery, F.
Qed.

(** X1.  A call of [TokenForRepo] for one owner, in either mode and
    whatever its outcome, leaves the cache entry of every other owner as it
    was, present or absent. *)
Theorem TokenForRepo_other_owners_untouched :
  forall (W : World) (tm : TokenManager) (owner repo : string) (s : State) (k : string),
    k <> owner ->
    cache (snd (TokenForRepo W tm owner repo s)) !! k = cache s !! k.
Proof.
  intros W tm owner repo s k Hne.
  destruct (TokenForRepo_effect W tm owner repo s) as (evs & _ & [(_ & Hc & _)|(_ & _ & Hc & _)]);
    rewrite Hc; [reflexivity|].
  apply lookup_insert_ne. congruence.
Qed.

Lemma TokenForRepo_other_owners_untouched_witness :
  "globex" <> "acme"
  /\ cache (snd (TokenForRepo acmeWorld dynamicManager "acme" "widgets" startState))
       !! "globex" = None.
Proof.
  split; [discriminate|].
  rewrite (TokenForRepo_other_owners_untouched acmeWorld dynamicManager "acme" "widgets"
             startState "globex" ltac:(discriminate)).
  reflexivity.
Defined.

Lemma runTokenCalls_factory W tm calls : forall s,
  exists evs, trace (snd (runTokenCalls W tm calls s)) = trace s ++ evs
    /\ (forall k, countFactory k evs <= 1)
    /\ (forall k, is_Some (cache s !! k) -> countFactory k evs = 0).
Proof.
  induction calls as [|[owner repo] rest IH]; intros s.
  - exists []. cbn. rewrite app_nil_r. repeat split; intros; cbn; lia.
  - rewrite runTokenCalls_cons. cbn [snd].
    destruct (TokenForRepo_effect W tm owner repo s) as (evs & Et & Hcase).
    pose proof (TokenForRepo_keeps W tm owner repo s) as Hk.
    destruct (IH (snd (TokenForRepo W tm owner repo s))) as (evs2 & Et2 & Hle & Hz).
    exists (evs ++ evs2). split; [rewrite Et2, Et, <- app_assoc; reflexivity|].
    destruct Hcase as [(_ & Hc & H0)|(Ho & _ & Hc & H1)].
    + split; intros k; rewrite countFactory_app, H0; cbn.
      * apply Hle.
      * intros Hs. apply Hz. rewrite Hc. exact Hs.
    + split; intros k; rewrite countFactory_app, H1.
      * destruct (String.eqb_spec owner k) as [->|Hne].
        -- rewrite (Hz k); [lia|]. rewrite Hc, lookup_insert_eq. eexists; reflexivity.
        -- specialize (Hle k). lia.
      * intros [t Hkt]. destruct (String.eqb_spec owner k) as [->|Hne]; [congruence|].
        cbn. apply Hz. exists t. apply Hk. exact Hkt.
Qed.

Lemma runTokenCalls_absent W tm calls : forall s k,
  cache s !! k = None ->
  Forall (fun call => fst call <> k) calls ->
  cache (snd (runTokenCalls W tm calls s)) !! k = None.
Proof.
  induction calls as [|[owner repo] rest IH]; intros s k Hk Hall.
  - exact Hk.
  - rewrite runTokenCalls_cons. cbn [snd]. inversion Hall as [|? ? Hne Hrest]; subst.
    apply IH; [|exact Hrest]. cbn in Hne.
    rewrite TokenForRepo_other_owners_untouched by congruence. exact Hk.
Qed.

(** X2.  Over any sequence of [TokenForRepo] calls, in either mode and
    whatever the provider answers: no cache entry is removed or replaced, a
    token source is created at most once for each owner and never for an owner
    that was cached beforehand, and an owner that no call names stays
    uncached. *)
Theorem TokenForRepo_calls_create_once :
  forall (W : World) (tm : TokenManager) (calls : list (string * string)) (s : State),
    let s' := snd (runTokenCalls W tm calls s) in
    (forall k ts, cache s !! k = Some ts -> cache s' !! k = Some ts)
    /\ (forall k, countFactory k (new_events s s') <= 1)
    /\ (forall k, is_Some (cache s !! k) -> countFactory k (new_events s s') = 0)
    /\ (forall k, cache s !! k = None -> Forall (fun call => fst call <> k) calls ->
                  cache s' !! k = None).
Proof.
  intros W tm calls s s'. subst s'.
  destruct (runTokenCalls_factory W tm calls s) as (evs & Et & Hle & Hz).
  rewrite (new_events_app _ _ _ Et).
  split; [apply runTokenCalls_keeps|]. split; [exact Hle|]. split; [exact Hz|].
  apply runTokenCalls_absent.
Qed.

Lemma TokenForRepo_invariants W tm owner repo s :
  cacheWellFormed (appTokenSource tm) s -> cacheInjective s -> cacheInHeap s ->
  cacheWellFormed (appTokenSource tm) (snd (TokenForRepo W tm owner repo s))
  /\ cacheInjective (snd (TokenForRepo W tm owner repo s))
  /\ cacheInHeap (snd (TokenForRepo W tm owner repo s))
  /\ exists new, heap (snd (TokenForRepo W tm owner repo s)) = heap s ++ new
       /\ Forall (fun o => exists id, o = InstallationTS id (appTokenSource tm)) new.
Proof.
  intros Hwf Hinj Hin.
  destruct (TokenForRepo_effect W tm owner repo s)
    as (evs & _ & [(Hh & Hc & _)|(Ho & (id & Hh) & Hc & _)]).
  - unfold cacheWellFormed, cacheInjective, cacheInHeap. rewrite Hh, Hc.
    repeat split; try assumption. exists []. split; [symmetry; apply app_nil_r|constructor].
  - unfold cacheWellFormed, cacheInjective, cacheInHeap. rewrite Hh, Hc.
    split; [|split; [|split]].
    + intros k ts. destruct (decide (owner = k)) as [->|Hne].
      * rewrite lookup_insert_eq. intros E; inversion E; subst.
        exists id. apply list_lookup_middle. reflexivity.
      * rewrite lookup_insert_ne by exact Hne. intros E.
        destruct (Hwf k ts E) as (id' & Hl). exists id'.
        rewrite lookup_app_l; [exact Hl|]. eapply lookup_lt_Some, Hl.
    + intros k1 k2 ts.
      destruct (decide (owner = k1)) as [E1|Hn1];
        destruct (decide (owner = k2)) as [E2|Hn2].
      * intros _ _. congruence.
      * subst k1. rewrite lookup_insert_eq, lookup_insert_ne by exact Hn2.
        intros E1 E2. inversion E1; subst. apply Hin in E2. lia.
      * subst k2. rewrite lookup_insert_eq, lookup_insert_ne by exact Hn1.
        intros E1 E2. inversion E2; subst. apply Hin in E1. lia.
      * rewrite !lookup_insert_ne by assumption. apply Hinj.
    + intros k ts. rewrite length_app. cbn. destruct (decide (owner = k)) as [->|Hne].
      * rewrite lookup_insert_eq. intros E; inversion E; subst. lia.
      * rewrite lookup_insert_ne by exact Hne. intros E. apply Hin in E. lia.
    + exists [InstallationTS id (appTokenSource tm)]. split; [reflexivity|].
      repeat constructor. exists id. reflexivity.
Qed.

(** X3.  Start from an empty cache and let any sequence of [TokenForRepo]
    calls run, in either mode.  The heap has only grown, by installation
    token sources made on the manager's application source, so no existing
    source was changed or dropped; every cached reference points at such a
    source; and no two owners share one. *)
Theorem TokenForRepo_calls_keep_cache_sound :
  forall (W : World) (tm : TokenManager) (calls : list (string * string)) (s : State),
    cache s = ∅ ->
    let s' := snd (runTokenCalls W tm calls s) in
    (exists new, heap s' = heap s ++ new
       /\ Forall (fun o => exists id, o = InstallationTS id (appTokenSource tm)) new)
    /\ cacheWellFormed (appTokenSource tm) s'
    /\ cacheInjective s'.
Proof.
  intros W tm calls s He s'. subst s'.
  assert (Hwf : cacheWellFormed (appTokenSource tm) s)
    by (intros k ts; rewrite He, lookup_empty; discriminate).
  assert (Hinj : cacheInjective s)
    by (intros k1 k2 ts; rewrite He, lookup_empty; discriminate).
  assert (Hin : cacheInHeap s)
    by (intros k ts; rewrite He, lookup_empty; discriminate).
  clear He. revert s Hwf Hinj Hin.
  induction calls as [|[owner repo] rest IH]; intros s Hwf Hinj Hin.
  - cbn. split; [|split; assumption].
    exists []. split; [symmetry; apply app_nil_r | constructor].
  - rewrite runTokenCalls_cons. cbn [snd].
    destruct (TokenForRepo_invariants W tm owner repo s Hwf Hinj Hin)
      as (Hwf1 & Hinj1 & Hin1 & new1 & Hh1 & F1).
    destruct (IH _ Hwf1 Hinj1 Hin1) as ((new2 & Hh2 & F2) & Hwf2 & Hinj2).
    split; [|split; assumption].
    exists (new1 ++ new2). split; [rewrite Hh2, Hh1, <- app_assoc; reflexivity|].
    apply Forall_app. split; assumption.
Qed.

Lemma TokenForRepo_calls_keep_cache_sound_witness :
  cache startState = ∅
  /\ cacheInjective
       (snd (runTokenCalls acmeWorld dynamicManager
               [("acme", "widgets"); ("globex", "tools"); ("acme", "gadgets")] startState)).
Proof.
  split; [reflexivity|].
  apply (TokenForRepo_calls_keep_cache_sound acmeWorld dynamicManager
           [("acme", "widgets"); ("globex", "tools"); ("acme", "gadgets")] startState
           eq_refl).
Defined.

(** ** The two discovery calls *)


Ltac same_oracle H H' :=
  let X := fresh in
  pose proof (eq_trans (eq_sym H) H') as X;
  first [discriminate X | inversion X; subst; clear X].



(** ** The two constructors *)

(** The [switch] on the configured identity with which both constructors
    begin, followed by whatever comes next. *)
Lemma identity_switch W config privateKey {B} (k : ref -> M B) s :
  bind match AppId config, ClientId config with
       | Some appId, _ =>
           wrapErr "creating application token source: "
             (NewApplicationTokenSource W (IdNumber appId) privateKey)
       | None, Some clientId =>
           wrapErr "creating application token source: "
             (NewApplicationTokenSource W (IdClient clientId) privateKey)
       | None, None => fail "config must set either appId or clientId"
       end k s
  = match configIdent config with
    | None => (Err "config must set either appId or clientId", s)
    | Some ident =>
        match ws_appKeyError W ident privateKey with
        | Some e => (Err ("creating application token source: " +:+ e), s)
        | None => k (List.length (heap s)) (withAppSource ident privateKey s)
        end
    end.
Proof.
  unfold configIdent, bind, wrapErr, NewApplicationTokenSource, fail.
  destruct (AppId config) as [a|]; [|destruct (ClientId config) as [c|]];
    try reflexivity.
  - destruct (ws_appKeyError W (IdNumber a) privateKey); reflexivity.
  - destruct (ws_appKeyError W (IdClient c) privateKey); reflexivity.
Qed.

Lemma buildTokenSource_fixed W config privateKey s ident fixed :
  InstallationId config = Some fixed ->
  configIdent config = Some ident ->
  ws_appKeyError W ident privateKey = None ->
  buildTokenSource W config privateKey s =
    (Ok (S (List.length (heap s))),
     {| heap := heap s ++ [ApplicationTS ident privateKey;
                           InstallationTS fixed (List.length (heap s))];
        cache := cache s; trace := trace s |}).
Proof.
  intros Hf Hid Hk. unfold buildTokenSource. rewrite identity_switch, Hid, Hk, Hf.
  unfold run_alloc, NewInstallationTokenSource, alloc, withAppSource. cbn.
  rewrite length_app, <- app_assoc. cbn. rewrite Nat.add_1_r. reflexivity.
Qed.

(** X6.  With an installation id configured and a usable identity,
    [buildTokenSource] talks to nobody: it adds nothing to the trace, does not
    list installations, and returns a new installation token source built from
    the configured id on the new application source. *)
Theorem buildTokenSource_fixed_id_is_offline :
  forall (W : World) (config : AppConfig) (privateKey : string) (s : State)
         (ident : AppIdent) (fixed : Z),
    InstallationId config = Some fixed ->
    configIdent config = Some ident ->
    ws_appKeyError W ident privateKey = None ->
    let out := buildTokenSource W config privateKey s in
    exists ts,
      fst out = Ok ts
      /\ heap (snd out) !! ts = Some (InstallationTS fixed (List.length (heap s)))
      /\ heap (snd out) !! List.length (heap s) = Some (ApplicationTS ident privateKey)
      /\ new_events s (snd out) = []
      /\ cache (snd out) = cache s.
Proof.
  intros W config privateKey s ident fixed Hf Hid Hk out. subst out.
  rewrite (buildTokenSource_fixed W config privateKey s ident fixed Hf Hid Hk).
  cbn [fst snd heap cache]. exists (S (List.length (heap s))).
  split; [reflexivity|]. split.
  { change (heap s ++ [ApplicationTS ident privateKey;
                       InstallationTS fixed (List.length (heap s))])
      with (heap s ++ [ApplicationTS ident privateKey]
                   ++ [InstallationTS fixed (List.length (heap s))]).
    rewrite app_assoc. apply list_lookup_middle.
    rewrite length_app. cbn. lia. }
  split; [apply list_lookup_middle; reflexivity|].
  split; [apply new_events_app; cbn; symmetry; apply app_nil_r | reflexivity].
Qed.

Lemma buildTokenSource_fixed_id_is_offline_witness :
  InstallationId {| AppId := None; ClientId := Some "Iv23li"; InstallationId := Some 7%Z |}
  = Some 7%Z
  /\ new_events blankState
       (snd (buildTokenSource acmeWorld
               {| AppId := None; ClientId := Some "Iv23li"; InstallationId := Some 7%Z |}
               "key" blankState)) = [].
Proof.
  split; [reflexivity|].
  destruct (buildTokenSource_fixed_id_is_offline acmeWorld
              {| AppId := None; ClientId := Some "Iv23li"; InstallationId := Some 7%Z |}
              "key" blankState (IdClient "Iv23li") 7 eq_refl eq_refl eq_refl)
    as (ts & _ & _ & _ & Hev & _).
  exact Hev.
Defined.

(** X7.  Whenever [buildTokenSource] returns a token source, the
    configuration named an identity (the numeric id if present, else the
    client id) whose key was accepted, exactly two objects were allocated, the
    application source and after it the returned installation source, and the
    installation id of the latter is the configured one or, with none
    configured, the id of the single installation that discovery returned.
    The cache is not touched. *)
Theorem buildTokenSource_success :
  forall (W : World) (config : AppConfig) (privateKey : string) (s : State) (ts : ref),
    let out := buildTokenSource W config privateKey s in
    fst out = Ok ts ->
    exists ident id,
      configIdent config = Some ident
      /\ ws_appKeyError W ident privateKey = None
      /\ ts = S (List.length (heap s))
      /\ heap (snd out) = heap s ++ [ApplicationTS ident privateKey;
                                     InstallationTS id (List.length (heap s))]
      /\ cache (snd out) = cache s
      /\ match InstallationId config with
         | Some fixed => id = fixed
         | None =>
             exists inst,
               fst (discoverInstallations W (List.length (heap s))
                      (withAppSource ident privateKey s)) = Ok [inst]
               /\ ID inst = id
         end.
Proof.
  intros W config privateKey s ts out Hok. subst out.
  destruct (configIdent config) as [ident|] eqn:Hid.
  2:{ exfalso. unfold buildTokenSource in Hok. rewrite identity_switch, Hid in Hok.
      discriminate. }
  destruct (ws_appKeyError W ident privateKey) as [e|] eqn:Hk.
  { exfalso. unfold buildTokenSource in Hok. rewrite identity_switch, Hid, Hk in Hok.
    discriminate. }
  destruct (InstallationId config) as [fixed|] eqn:Hf.
  - rewrite (buildTokenSource_fixed W config privateKey s ident fixed Hf Hid Hk) in *.
    cbn [fst snd heap cache] in *. inversion Hok; subst ts.
    exists ident, fixed. repeat split; first [assumption | reflexivity].
  - rewrite (buildTokenSource_discovering W config privateKey s ident Hf Hid Hk) in *.
    cbv zeta in *.
    destruct (framed_discoverInstallations W (List.length (heap s))
                (withAppSource ident privateKey s)) as (Hh & Hc & _).
    destruct (discoverInstallations W (List.length (heap s))
                (withAppSource ident privateKey s)) as [[l|e] sd] eqn:Hd;
      cbn [fst snd] in *; [|discriminate].
    destruct l as [|inst [|i2 rest]]; cbn [fst snd heap cache] in *; try discriminate.
    inversion Hok; subst ts. exists ident, (ID inst).
    split; [first [assumption | reflexivity]|].
    split; [first [assumption | reflexivity]|].
    split; [rewrite Hh; unfold withAppSource; cbn [heap]; rewrite length_app; cbn; lia|].
    split; [rewrite Hh; unfold withAppSource; cbn [heap]; rewrite <- app_assoc;
            reflexivity|].
    split; [rewrite Hc; reflexivity|].
    exists inst. split; [exact (f_equal fst Hd) | reflexivity].
Qed.

Lemma buildTokenSource_success_witness :
  fst (buildTokenSource acmeWorld appConfig "key" blankState) = Ok 1
  /\ heap (snd (buildTokenSource acmeWorld appConfig "key" blankState))
     = [ApplicationTS (IdNumber 1) "key"; InstallationTS 42 0].
Proof.
  assert (Hok : fst (buildTokenSource acmeWorld appConfig "key" blankState) = Ok 1)
    by (vm_compute; reflexivity).
  split; [exact Hok|].
  destruct (buildTokenSource_success acmeWorld appConfig "key" blankState 1 Hok)
    as (ident & id & Hid & _ & _ & Hh & _ & inst & Hd & Hi).
  vm_compute in Hid. inversion Hid; subst ident.
  vm_compute in Hd. inversion Hd; subst inst. cbn in Hi. subst id.
  exact Hh.
Defined.

(** X8.  Both constructors stop at the identity, before anything else
    happens: without appId and clientId they return the configuration error,
    and with a key that githubauth rejects they return that error wrapped; in
    both cases the state is exactly as it was.  With the identity accepted,
    the application token source is the first object either of them
    allocates, made from the numeric id when one is configured. *)
Theorem constructors_stop_at_identity :
  forall (W : World) (config : AppConfig) (privateKey : string) (s : State),
    match configIdent config with
    | None =>
        buildTokenSource W config privateKey s
          = (Err "config must set either appId or clientId", s)
        /\ NewTokenManager W config privateKey s
           = (Err "config must set either appId or clientId", s)
    | Some ident =>
        match ws_appKeyError W ident privateKey with
        | Some e =>
            buildTokenSource W config privateKey s
              = (Err ("creating application token source: " +:+ e), s)
            /\ NewTokenManager W config privateKey s
               = (Err ("creating application token source: " +:+ e), s)
        | None =>
            heap (snd (buildTokenSource W config privateKey s)) !! List.length (heap s)
              = Some (ApplicationTS ident privateKey)
            /\ heap (snd (NewTokenManager W config privateKey s)) !! List.length (heap s)
               = Some (ApplicationTS ident privateKey)
            /\ (forall appId, AppId config = Some appId -> ident = IdNumber appId)
        end
    end.
Proof.
  intros W config privateKey s.
  destruct (configIdent config) as [ident|] eqn:Hid.
  2:{ unfold buildTokenSource, NewTokenManager. rewrite !identity_switch, Hid.
      split; reflexivity. }
  destruct (ws_appKeyError W ident privateKey) as [e|] eqn:Hk.
  { unfold buildTokenSource, NewTokenManager. rewrite !identity_switch, Hid, Hk.
    split; reflexivity. }
  split; [|split].
  - destruct (InstallationId config) as [fixed|] eqn:Hf.
    + rewrite (buildTokenSource_fixed W config privateKey s ident fixed Hf Hid Hk).
      cbn [snd heap]. apply list_lookup_middle. reflexivity.
    + rewrite (buildTokenSource_discovering W config privateKey s ident Hf Hid Hk).
      cbv zeta.
      destruct (framed_discoverInstallations W (List.length (heap s))
                  (withAppSource ident privateKey s)) as (Hh & _).
      destruct (discoverInstallations W (List.length (heap s))
                  (withAppSource ident privateKey s)) as [[l|e] sd]; cbn [fst snd] in *.
      * destruct l as [|inst [|i2 rest]]; cbn [snd heap]; rewrite Hh;
          unfold withAppSource; cbn [heap]; rewrite <- ?app_assoc;
          apply list_lookup_middle; reflexivity.
      * rewrite Hh. apply list_lookup_middle. reflexivity.
  - destruct (NewTokenManager_run W config privateKey s ident Hid Hk) as (_ & _ & Hh & _).
    rewrite Hh. apply list_lookup_middle. reflexivity.
  - intros appId Ha. unfold configIdent in Hid. rewrite Ha in Hid.
    inversion Hid. reflexivity.
Qed.

(** X9.  Given an accepted identity, [NewTokenManager] returns a manager
    whatever installation discovery does, be it an error, an empty list or
    several installations: the manager refers to the new application source
    and carries the configured installation id unchanged, its cache is empty,
    and no installation token source has been created yet. *)
Theorem NewTokenManager_ignores_discovery :
  forall (W : World) (config : AppConfig) (privateKey : string) (s : State)
         (ident : AppIdent),
    configIdent config = Some ident ->
    ws_appKeyError W ident privateKey = None ->
    let out := NewTokenManager W config privateKey s in
    fst out = Ok {| appTokenSource := List.length (heap s);
                    installationId := InstallationId config |}
    /\ cache (snd out) = ∅
    /\ heap (snd out) = heap s ++ [ApplicationTS ident privateKey].
Proof.
  intros W config privateKey s ident Hid Hk out.
  destruct (NewTokenManager_run W config privateKey s ident Hid Hk) as (Hr & Hc & Hh & _).
  repeat split; assumption.
Qed.

Lemma NewTokenManager_ignores_discovery_witness :
  configIdent appConfig = Some (IdNumber 1)
  /\ is_Ok (fst (buildTokenSource twoInstallationsWorld appConfig "key" blankState)) = false
  /\ fst (NewTokenManager twoInstallationsWorld appConfig "key" blankState)
     = Ok {| appTokenSource := 0; installationId := None |}.
Proof.
  split; [reflexivity|]. split; [vm_compute; reflexivity|].
  apply (NewTokenManager_ignores_discovery twoInstallationsWorld appConfig "key"
           blankState (IdNumber 1) eq_refl eq_refl).
Defined.

(** * Further properties of proxy.go *)

(** One call of the client: at most ten requests, the request and nine
    followed redirects. *)
Lemma client_Do_events W tm req s :
  exists evs, trace (snd (client_Do W tm req s)) = trace s ++ evs
    /\ countProxied evs <= 10
    /\ Forall (proxiedAs (Ctx req)) evs.
Proof. apply (client_send_events W tm 9 req req s eq_refl). Qed.

Lemma files_events W tm ctx user repo tag s :
  exists evs, trace (snd (files W tm ctx user repo tag s)) = trace s ++ evs
    /\ countProxied evs <= 10
    /\ Forall (proxiedAs ctx) evs.
Proof.
  unfold files, bind, wrapErr, lift.
  destruct (NewRequestWithContext W ctx MethodGet _) as [req|e] eqn:Hreq; cbn [fst snd].
  2:{ exists []. cbn. rewrite app_nil_r. repeat split; [lia | constructor]. }
  apply NewRequestWithContext_Ok in Hreq. destruct Hreq as (Hc & _).
  destruct (client_Do_events W tm req s) as (evs & Et & Hn & F). rewrite Hc in F.
  exists evs.
  destruct (client_Do W tm req s) as [[resp|e] s1]; cbn [fst snd] in *;
    [|repeat split; assumption].
  destruct (negb (StatusCode resp =? StatusOK)%Z); cbn; [repeat split; assumption|].
  destruct (ws_decodeRelease W (Body resp)); cbn; repeat split; assumption.
Qed.

Lemma file_events W tm ctx a s :
  exists evs, trace (snd (file W tm ctx a s)) = trace s ++ evs
    /\ countProxied evs <= 10
    /\ Forall (proxiedAs ctx) evs.
Proof.
  unfold file, bind, wrapErr, lift.
  destruct (NewRequestWithContext W ctx MethodGet _) as [req|e] eqn:Hreq; cbn [fst snd].
  2:{ exists []. cbn. rewrite app_nil_r. repeat split; [lia | constructor]. }
  apply NewRequestWithContext_Ok in Hreq. destruct Hreq as (Hc & _).
  destruct (client_Do_events W tm (Header_Set "Accept" "application/octet-stream" req) s)
    as (evs & Et & Hn & F).
  cbn [Ctx Header_Set] in F. rewrite Hc in F. exists evs.
  destruct (client_Do W tm _ s) as [[resp|e] s1]; cbn [fst snd] in *;
    [|repeat split; assumption].
  destruct (negb (StatusCode resp =? StatusOK)%Z); cbn; repeat split; assumption.
Qed.

(** The loop ends in one of three ways: it runs off the list, or at the
    first asset of the wanted name it answers 500, or copies a body. *)
Lemma rangeAssets_cases W tm ctx name assets w s :
  (rangeAssets W tm ctx name assets w s = (None, s)
   /\ Forall (fun f => Name f <> name) assets)
  \/ exists a, In a assets /\ Name a = name
       /\ snd (rangeAssets W tm ctx name assets w s) = snd (file W tm ctx a s)
       /\ ((exists e, fst (rangeAssets W tm ctx name assets w s)
                      = Some (http_Error w ("Error fetching file content: " +:+ e)
                                StatusInternalServerError))
           \/ (exists d, fst (file W tm ctx a s) = Ok d
                         /\ fst (rangeAssets W tm ctx name assets w s)
                            = Some (io_Copy w d))).
Proof.
  induction assets as [|f rest IH]; cbn [rangeAssets].
  - left. split; [reflexivity | constructor].
  - destruct (String.eqb_spec (Name f) name) as [E|Hne].
    + right. exists f. split; [left; reflexivity|]. split; [exact E|].
      destruct (file W tm ctx f s) as [[d|e] s1]; cbn [fst snd].
      * split; [reflexivity|]. right. exists d. split; reflexivity.
      * split; [reflexivity|]. left. exists e. reflexivity.
    + destruct IH as [[Hr Hall]|(a & Hin & Ha & Hs & Hcase)].
      * left. split; [exact Hr|]. constructor; assumption.
      * right. exists a. split; [right; exact Hin|]. repeat split; assumption.
Qed.

Lemma sentStatus_io_Copy w d : rw_status w = None -> sentStatus (io_Copy w d) = 200%Z.
Proof.
  intros H. unfold io_Copy, Write, WriteHeader, sentStatus.
  destruct d; rewrite H; reflexivity.
Qed.




(** X11.  [files], called as the handlers call it, returns an asset list
    exactly when the release URL is accepted and the exchange of its client
    with the provider, redirects followed, ends in an answer with status 200
    whose body decodes; the list is then the decoded one, in the decoder's
    order.  When the URL is refused nothing happens at all.  Otherwise the
    exchange starts, once [TokenForRepo] has yielded a token for the owner and
    repository of the path, with the release request, and of the requests
    added to the trace at most ten carry a repository context, the release
    request first; none does when no token was obtained.  Every request that
    carries a context carries the one of the path, and an Authorization
    header. *)
Theorem files_outcome :
  forall (W : World) (tm : TokenManager) (c : GoContext) (user repo tag : string)
         (s : State),
    let ctx := withRepo c user repo in
    let url := releaseURL W user repo tag in
    let s1 := snd (TokenForRepo W tm user repo s) in
    let exchange := client_Do W tm (releaseClientRequest ctx url) s in
    let out := files W tm ctx user repo tag s in
    (forall assets, fst out = Ok assets <->
       ws_urlError W url = None
       /\ exists resp fs,
            fst exchange = Ok resp
            /\ StatusCode resp = 200%Z
            /\ ws_decodeRelease W (Body resp) = Ok fs
            /\ Assets fs = assets)
    /\ match ws_urlError W url with
       | Some _ => snd out = s
       | None =>
           snd out = snd exchange
           /\ match fst (TokenForRepo W tm user repo s) with
              | Ok token =>
                  exchange
                  = afterFirstHop W tm 9 (releaseClientRequest ctx url)
                      (releaseClientRequest ctx url) (releaseRequest ctx url token) s1
                  /\ exists evs,
                       List.filter isProxied (new_events s (snd out))
                       = EvHTTP (releaseRequest ctx url token) :: evs
                       /\ List.length evs <= 9
              | Err e =>
                  out = (Err ("error making request to GitHub API: "
                              +:+ ws_clientError W (releaseClientRequest ctx url)
                                    ("error getting token: " +:+ e)), s1)
                  /\ List.filter isProxied (new_events s (snd out)) = []
              end
       end
    /\ Forall (proxiedAs ctx) (new_events s (snd out)).
Proof.
  intros W tm c user repo tag s ctx url s1 exchange out.
  assert (Hall : Forall (proxiedAs ctx) (new_events s (snd out))).
  { destruct (files_events W tm ctx user repo tag s) as (evs & Et & _ & F).
    subst out. rewrite (new_events_app _ _ _ Et). exact F. }
  destruct (ws_urlError W url) as [e|] eqn:Hu.
  { assert (E : out = (Err ("error creating request to GitHub API: " +:+ e), s)).
    { subst out. unfold files, bind, wrapErr, lift, NewRequestWithContext.
      fold (releaseURL W user repo tag). fold url. rewrite Hu. reflexivity. }
    split; [|split; [rewrite E; reflexivity | exact Hall]].
    intros assets. rewrite E. split; [discriminate|]. intros [A _]. discriminate. }
  pose proof (files_client W tm ctx user repo tag s Hu) as E.
  fold url in E. fold exchange in E. fold out in E.
  split.
  { intros assets. rewrite E.
    destruct exchange as [[resp|e] sx]; cbn [fst snd].
    2:{ split; [discriminate|]. intros (_ & rp & fs & A & _). discriminate. }
    destruct (Z.eqb_spec (StatusCode resp) StatusOK) as [Est|Est]; cbn [fst].
    2:{ split; [discriminate|]. intros (_ & rp & fs & A & A2 & _).
        inversion A; subst rp. contradiction. }
    destruct (ws_decodeRelease W (Body resp)) as [fs|e] eqn:Edec.
    2:{ split; [discriminate|]. intros (_ & rp & fs & A & _ & A3 & _).
        inversion A; subst rp. same_oracle Edec A3. }
    split.
    - intros A. inversion A; subst assets. split; [reflexivity|].
      exists resp, fs. repeat split; solve [reflexivity | exact Est | exact Edec].
    - intros (_ & rp & fs' & A & _ & A3 & A4).
      inversion A; subst rp. same_oracle Edec A3. reflexivity. }
  split; [|exact Hall].
  assert (Hs : snd out = snd exchange).
  { rewrite E. destruct exchange as [[resp|e] sx]; cbn [fst snd]; [|reflexivity].
    destruct (StatusCode resp =? StatusOK)%Z; reflexivity. }
  split; [exact Hs|].
  destruct (TokenForRepo_events W tm user repo s) as (tevs & Et & Ft).
  destruct (fst (TokenForRepo W tm user repo s)) as [token|e] eqn:Ht.
  - assert (Hex : exchange
                  = afterFirstHop W tm 9 (releaseClientRequest ctx url)
                      (releaseClientRequest ctx url) (releaseRequest ctx url token) s1).
    { apply (client_Do_first W tm (releaseClientRequest ctx url) c user repo s token);
        [reflexivity | exact Ht]. }
    split; [exact Hex|].
    destruct (afterFirstHop_trace W tm 9 (releaseClientRequest ctx url)
                (releaseClientRequest ctx url) (releaseRequest ctx url token) s1
                eq_refl eq_refl) as (evs & Etr & Hn & F).
    { unfold releaseRequest, Header_Set. cbn [Header]. rewrite lookup_insert_eq.
      eexists. reflexivity. }
    rewrite <- Hex in Etr. rewrite <- Hs in Etr.
    exists (List.filter isProxied evs). split; [|exact Hn].
    erewrite new_events_app
      by (rewrite Etr; subst s1; rewrite Et, <- app_assoc; reflexivity).
    rewrite List.filter_app, (filter_isProxied_noContext _ Ft). reflexivity.
  - assert (Hex : exchange
                  = (Err (ws_clientError W (releaseClientRequest ctx url)
                            ("error getting token: " +:+ e)), s1)).
    { apply (client_send_no_token W tm 9 (releaseClientRequest ctx url)
               (releaseClientRequest ctx url) s {| Owner := user; Repo := repo |} e);
        [reflexivity | exact Ht]. }
    assert (Eo : out = (Err ("error making request to GitHub API: "
                             +:+ ws_clientError W (releaseClientRequest ctx url)
                                   ("error getting token: " +:+ e)), s1)).
    { rewrite E, Hex. reflexivity. }
    split; [exact Eo|]. rewrite Eo. cbn [snd]. subst s1.
    rewrite (new_events_app _ _ _ Et). apply filter_isProxied_noContext, Ft.
Qed.

(** X12.  Let the provider answer the release request of either handler
    with a status other than 200 that is no redirect with a Location.  Then
    the client is sent 500 with a body that names the provider's status line,
    and the handler stops there: the release request is the last thing in the
    trace, no asset is fetched. *)
Theorem handlers_release_status_failure :
  forall (W : World) (tm : TokenManager) (w : ResponseWriter) (r : Request) (s : State)
         (token : Token) (resp : Response),
    let user := PathValue r "user" in
    let repo := PathValue r "repo" in
    let tag := PathValue r "tag" in
    let ctx := withRepo (Ctx r) user repo in
    let s1 := snd (TokenForRepo W tm user repo s) in
    let req := releaseRequest ctx (releaseURL W user repo tag) token in
    let answer := http_Error w
                    ("Error fetching release files: "
                     +:+ "GitHub API returned non-200 status: " +:+ Status resp)
                    StatusInternalServerError in
    rw_status w = None ->
    ws_urlError W (releaseURL W user repo tag) = None ->
    fst (TokenForRepo W tm user repo s) = Ok token ->
    ws_RoundTrip W (trace s1) req = Ok resp ->
    StatusCode resp <> 200%Z ->
    followsRedirect resp = false ->
    taggedHandler W tm w r s = (answer, log (EvHTTP req) s1)
    /\ taggedFileHandler W tm w r s = (answer, log (EvHTTP req) s1)
    /\ sentStatus answer = 500%Z.
Proof.
  intros W tm w r s token resp user repo tag ctx s1 req answer Hw Hu Ht Hrt Hst Hnf.
  assert (E : files W tm ctx user repo tag s
              = (Err ("GitHub API returned non-200 status: " +:+ Status resp),
                 log (EvHTTP req) s1)).
  { rewrite (files_client W tm ctx user repo tag s Hu).
    rewrite (client_Do_first W tm (releaseClientRequest ctx (releaseURL W user repo tag))
               (Ctx r) user repo s token eq_refl Ht).
    pose proof (afterFirstHop_final W tm 9
                  (releaseClientRequest ctx (releaseURL W user repo tag))
                  (releaseClientRequest ctx (releaseURL W user repo tag)) req s1) as Hfin.
    rewrite Hrt in Hfin. specialize (Hfin Hnf).
    change (afterFirstHop W tm 9 (releaseClientRequest ctx (releaseURL W user repo tag))
              (releaseClientRequest ctx (releaseURL W user repo tag))
              (Header_Set "Authorization" ("token " +:+ AccessToken token)
                 (releaseClientRequest ctx (releaseURL W user repo tag)))
              (snd (TokenForRepo W tm user repo s)))
      with (afterFirstHop W tm 9 (releaseClientRequest ctx (releaseURL W user repo tag))
              (releaseClientRequest ctx (releaseURL W user repo tag)) req s1).
    rewrite Hfin.
    destruct (Z.eqb_spec (StatusCode resp) StatusOK) as [Est|_]; [contradiction|].
    reflexivity. }
  unfold taggedHandler, taggedFileHandler. fold user repo tag ctx. rewrite E.
  split; [reflexivity|]. split; [reflexivity|]. apply sentStatus_http_Error, Hw.
Qed.

Lemma handlers_release_status_failure_witness :
  rw_status newResponseWriter = None
  /\ followsRedirect {| StatusCode := 502; Status := "502 Bad Gateway"; RespHeader := ∅;
                        Body := EmptyString |} = false
  /\ fst (taggedFileHandler badGatewayWorld fixedManager newResponseWriter fileRequest
            startState)
     = http_Error newResponseWriter
         ("Error fetching release files: "
          +:+ "GitHub API returned non-200 status: " +:+ "502 Bad Gateway")
         StatusInternalServerError
  /\ countProxied
       (trace (snd (taggedFileHandler badGatewayWorld fixedManager newResponseWriter
                      fileRequest startState))) = 1.
Proof.
  split; [reflexivity|]. split; [reflexivity|].
  destruct (handlers_release_status_failure badGatewayWorld fixedManager
              newResponseWriter fileRequest startState {| AccessToken := "t1" |}
              {| StatusCode := 502; Status := "502 Bad Gateway"; RespHeader := ∅;
                 Body := EmptyString |}
              eq_refl eq_refl ltac:(vm_compute; reflexivity)
              ltac:(vm_compute; reflexivity) ltac:(discriminate) eq_refl)
    as (_ & Hf & _).
  rewrite Hf. split; [reflexivity|]. vm_compute. reflexivity.
Defined.

Lemma rangeAssets_events W tm ctx name assets w s :
  exists evs, trace (snd (rangeAssets W tm ctx name assets w s)) = trace s ++ evs
    /\ countProxied evs <= 10
    /\ Forall (proxiedAs ctx) evs.
Proof.
  destruct (rangeAssets_cases W tm ctx name assets w s)
    as [[Hr _]|(a & _ & _ & Hs & _)].
  - rewrite Hr. exists []. cbn. rewrite app_nil_r. repeat split; [lia | constructor].
  - rewrite Hs. apply file_events.
Qed.

(** X13.  Serving one inbound request, either handler calls its client at
    most twice, and the client sends at most ten requests per call, the
    request and nine followed redirects: at most twenty requests that carry a
    repository context reach the transport.  Each of them carries the owner
    and repository named in the path and an Authorization header; every other
    request in the trace carries no context. *)
Theorem handlers_proxied_requests_bounded :
  forall (W : World) (tm : TokenManager) (w : ResponseWriter) (r : Request) (s : State),
    let ctx := Some {| Owner := PathValue r "user"; Repo := PathValue r "repo" |} in
    (exists evs, trace (snd (taggedHandler W tm w r s)) = trace s ++ evs
       /\ countProxied evs <= 20 /\ Forall (proxiedAs ctx) evs)
    /\ (exists evs, trace (snd (taggedFileHandler W tm w r s)) = trace s ++ evs
          /\ countProxied evs <= 20 /\ Forall (proxiedAs ctx) evs).
Proof.
  intros W tm w r s ctx.
  assert (H : forall name,
            exists evs,
              trace (snd (rangeAssets W tm ctx name
                            (match fst (files W tm ctx (PathValue r "user")
                                          (PathValue r "repo") (PathValue r "tag") s) with
                             | Ok fs => fs
                             | Err _ => []
                             end) w
                            (snd (files W tm ctx (PathValue r "user") (PathValue r "repo")
                                    (PathValue r "tag") s))))
              = trace s ++ evs
              /\ countProxied evs <= 20 /\ Forall (proxiedAs ctx) evs).
  { intros name.
    destruct (files_events W tm ctx (PathValue r "user") (PathValue r "repo")
                (PathValue r "tag") s) as (e1 & T1 & N1 & F1).
    match goal with |- context [rangeAssets W tm ctx name ?fs w ?s1] =>
      destruct (rangeAssets_events W tm ctx name fs w s1) as (e2 & T2 & N2 & F2) end.
    exists (e1 ++ e2). split; [rewrite T2, T1; symmetry; apply app_assoc|].
    split; [rewrite countProxied_app; lia | apply Forall_app; split; assumption]. }
  split.
  - specialize (H (PathValue r "tag")). unfold taggedHandler, withRepo. fold ctx.
    destruct (files W tm ctx _ _ _ s) as [[fs|e] s1]; cbn [fst snd] in *.
    + destruct (rangeAssets W tm ctx _ fs w s1) as [[w'|] s2]; exact H.
    + exact H.
  - specialize (H (PathValue r "file")). unfold taggedFileHandler, withRepo. fold ctx.
    destruct (files W tm ctx _ _ _ s) as [[fs|e] s1]; cbn [fst snd] in *.
    + destruct (rangeAssets W tm ctx _ fs w s1) as [[w'|] s2]; exact H.
    + exact H.
Qed.

Lemma string_app_empty_r (x : string) : x +:+ EmptyString = x.
Proof.
  induction x as [|ch rest IH]; [reflexivity|].
  change (String ch (rest +:+ EmptyString) = String ch rest). f_equal. exact IH.
Qed.

Lemma io_Copy_body w d :
  rw_status w = None -> rw_body (io_Copy w d) = rw_body w +:+ d.
Proof.
  intros Hw. unfold io_Copy, Write, WriteHeader. rewrite Hw.
  destruct d; cbn; [|reflexivity]. symmetry. apply string_app_empty_r.
Qed.

(** X14.  On the route with a tag only, let the release request return a
    list in which asset [a] carries exactly the tag as its name and no asset
    before it does.  Then [a] is the asset fetched: once a token is obtained
    the next request that goes to the transport is the GET of [a]'s API URL
    with Accept set to application/octet-stream, and the client follows at
    most nine redirects from there.  When the exchange ends with status 200
    the body of that answer is appended to the response unchanged; any other
    final status or an error makes the handler answer 500.  An answer to the
    asset request that is no redirect with a Location ends the exchange at
    once. *)
Theorem taggedHandler_first_exact_match :
  forall (W : World) (tm : TokenManager) (w : ResponseWriter) (r : Request) (s : State)
         (pre post : list githubFileAsset) (a : githubFileAsset) (token : Token),
    let user := PathValue r "user" in
    let repo := PathValue r "repo" in
    let tag := PathValue r "tag" in
    let ctx := withRepo (Ctx r) user repo in
    let s1 := snd (files W tm ctx user repo tag s) in
    let s2 := snd (TokenForRepo W tm user repo s1) in
    let req := assetRequest ctx a token in
    let exchange := client_Do W tm (assetClientRequest ctx a) s1 in
    let out := taggedHandler W tm w r s in
    fst (files W tm ctx user repo tag s) = Ok (pre ++ a :: post) ->
    Forall (fun f => Name f <> tag) pre ->
    Name a = tag ->
    rw_status w = None ->
    ws_urlError W (AssetURL a) = None ->
    fst (TokenForRepo W tm user repo s1) = Ok token ->
    (exists evs,
       trace (snd out) = trace s2 ++ EvHTTP req :: evs
       /\ countProxied evs <= 9
       /\ Forall (proxiedAs ctx) evs)
    /\ snd out = snd exchange
    /\ match fst exchange with
       | Ok resp =>
           if (StatusCode resp =? 200)%Z
           then rw_body (fst out) = rw_body w +:+ Body resp
                /\ sentStatus (fst out) = 200%Z
           else sentStatus (fst out) = 500%Z
       | Err _ => sentStatus (fst out) = 500%Z
       end
    /\ match ws_RoundTrip W (trace s2) req with
       | Ok resp =>
           followsRedirect resp = false ->
           snd out = log (EvHTTP req) s2
           /\ if (StatusCode resp =? 200)%Z
              then rw_body (fst out) = rw_body w +:+ Body resp
                   /\ sentStatus (fst out) = 200%Z
              else sentStatus (fst out) = 500%Z
       | Err _ => snd out = log (EvHTTP req) s2 /\ sentStatus (fst out) = 500%Z
       end.
Proof.
  intros W tm w r s pre post a token user repo tag ctx s1 s2 req exchange out
         Hf Hpre Ha Hw Hu Ht.
  destruct (rangeAssets_fetch W tm ctx tag pre a post w s1 Hpre Ha Hw Hu) as [Hs Hr].
  fold exchange in Hs, Hr.
  assert (Hout : out = match rangeAssets W tm ctx tag (pre ++ a :: post) w s1 with
                       | (Some w', s'') => (w', s'')
                       | (None, s'') => (w, s'')
                       end).
  { subst out. unfold taggedHandler. fold user repo tag ctx. subst s1.
    destruct (files W tm ctx user repo tag s) as [[fs|e] sf]; cbn [fst snd] in *;
      [|discriminate].
    inversion Hf; subst fs. reflexivity. }
  assert (Hex : exchange
                = afterFirstHop W tm 9 (assetClientRequest ctx a) (assetClientRequest ctx a)
                    req s2).
  { apply (client_Do_first W tm (assetClientRequest ctx a) (Ctx r) user repo s1 token);
      [reflexivity | exact Ht]. }
  assert (Hsnd : snd out = snd exchange).
  { rewrite Hout, <- Hs.
    destruct (rangeAssets W tm ctx tag (pre ++ a :: post) w s1) as [[w'|] s'];
      reflexivity. }
  assert (Hfst : match fst exchange with
                 | Ok resp =>
                     if (StatusCode resp =? 200)%Z
                     then rw_body (fst out) = rw_body w +:+ Body resp
                          /\ sentStatus (fst out) = 200%Z
                     else sentStatus (fst out) = 500%Z
                 | Err _ => sentStatus (fst out) = 500%Z
                 end).
  { rewrite Hout.
    destruct (fst exchange) as [resp|e];
      [destruct (StatusCode resp =? 200)%Z|];
      destruct (rangeAssets W tm ctx tag (pre ++ a :: post) w s1) as [[w'|] s'];
      cbn [fst] in *;
      try (destruct Hr as (w0 & Hr & Hst)); try discriminate;
      inversion Hr; subst; try assumption.
    split; [apply io_Copy_body, Hw | apply sentStatus_io_Copy, Hw]. }
  split.
  { rewrite Hsnd, Hex.
    destruct (afterFirstHop_trace W tm 9 (assetClientRequest ctx a)
                (assetClientRequest ctx a) req s2 eq_refl eq_refl) as (evs & Et & Hn & F).
    { unfold req, assetRequest, Header_Set. cbn [Header].
      rewrite lookup_insert_eq. eexists. reflexivity. }
    exists evs. repeat split; assumption. }
  split; [exact Hsnd|]. split; [exact Hfst|].
  pose proof (afterFirstHop_final W tm 9 (assetClientRequest ctx a)
                (assetClientRequest ctx a) req s2) as Hfin.
  rewrite <- Hex in Hfin.
  destruct (ws_RoundTrip W (trace s2) req) as [resp|e].
  - intros Hnf. specialize (Hfin Hnf). rewrite Hfin in Hsnd, Hfst. cbn [fst snd] in *.
    split; assumption.
  - rewrite Hfin in Hsnd, Hfst. cbn [fst snd] in *. split; assumption.
Qed.

Lemma taggedHandler_first_exact_match_witness :
  Name (sampleAsset "checksums.txt" "U2") = PathValue tagRequest "tag"
  /\ rw_body (fst (taggedHandler redirectingWorld dynamicManager newResponseWriter
                     tagRequest startState)) = "bytes of https://objects.example/U2".
Proof.
  split; [vm_compute; reflexivity|].
  destruct (taggedHandler_first_exact_match redirectingWorld dynamicManager
              newResponseWriter tagRequest startState [sampleAsset "widgets.tar.gz" "U1"] []
              (sampleAsset "checksums.txt" "U2") {| AccessToken := "t1" |}
              ltac:(vm_compute; reflexivity)
              ltac:(repeat constructor; vm_compute; discriminate)
              ltac:(vm_compute; reflexivity) eq_refl eq_refl
              ltac:(vm_compute; reflexivity)) as (_ & _ & Hresp & _).
  vm_compute in Hresp. vm_compute. apply Hresp.
Defined.

(** ** More on the route table *)

Lemma splitOn_nonempty c x : splitOn c x <> [].
Proof.
  destruct x as [|a r]; cbn [splitOn]; [discriminate|].
  destruct (Ascii.eqb a c); [discriminate|]. destruct (splitOn c r); discriminate.
Qed.

Lemma splitOn_segment seg rest :
  noSlash seg = true ->
  splitOn "/" (seg +:+ rest)
  = match splitOn "/" rest with
    | [] => [seg]
    | x :: xs => (seg +:+ x) :: xs
    end.
Proof.
  induction seg as [|a r IH]; intros Hok.
  - change (EmptyString +:+ rest) with rest.
    destruct (splitOn "/" rest) as [|x xs] eqn:E; [|reflexivity].
    exfalso. exact (splitOn_nonempty _ _ E).
  - cbn [noSlash] in Hok. apply andb_prop in Hok. destruct Hok as [Ha Hr].
    change (String a r +:+ rest) with (String a (r +:+ rest)). cbn [splitOn].
    destruct (Ascii.eqb a "/"); [discriminate|]. rewrite (IH Hr).
    destruct (splitOn "/" rest); reflexivity.
Qed.

Lemma splitOn_buildPath segs :
  forallb noSlash segs = true ->
  splitOn "/" (buildPath segs) = EmptyString :: segs.
Proof.
  induction segs as [|seg rest IH]; intros Hall; [reflexivity|].
  cbn [forallb] in Hall. apply andb_prop in Hall. destruct Hall as [Hseg Hrest].
  cbn [buildPath splitOn]. rewrite Ascii.eqb_refl.
  rewrite (splitOn_segment seg (buildPath rest) Hseg).
  rewrite (IH Hrest). rewrite string_app_empty_r. reflexivity.
Qed.

(** Splitting a path built from slash-free segments gives the segments
    back. *)
Lemma pathSegments_buildPath segs :
  forallb noSlash segs = true -> pathSegments (buildPath segs) = segs.
Proof. intros H. unfold pathSegments. rewrite (splitOn_buildPath segs H). reflexivity. Qed.

Lemma matchSegments_length ps : forall segs vals vals',
  matchSegments ps segs vals = Some vals' -> List.length ps = List.length segs.
Proof.
  induction ps as [|p ps IH]; intros [|x segs] vals vals' H; cbn in H;
    try discriminate; try (destruct p; discriminate); [reflexivity|].
  destruct p as [l|n].
  - destruct (String.eqb l (pathUnescape x)); [|discriminate]. cbn. f_equal. eapply IH, H.
  - destruct (wildcardValue x); [|discriminate]. cbn. f_equal. eapply IH, H.
Qed.

(** X15.  No request matches two of the three registered patterns:
    whichever method and path, at most one entry of the route table applies,
    so the order of the [HandleFunc] calls has no bearing on routing. *)
Theorem routes_do_not_overlap :
  forall (method path : string) (i j : nat) (ri rj : string * HandlerName)
         (vi vj : gmap string string),
    NewGithubPrivateReleaseProxy !! i = Some ri ->
    NewGithubPrivateReleaseProxy !! j = Some rj ->
    matchPattern (parsePattern (fst ri)) method path = Some vi ->
    matchPattern (parsePattern (fst rj)) method path = Some vj ->
    i = j.
Proof.
  intros method path i j ri rj vi vj Hi Hj Mi Mj.
  assert (L : forall k rk vk,
            NewGithubPrivateReleaseProxy !! k = Some rk ->
            matchPattern (parsePattern (fst rk)) method path = Some vk ->
            List.length (pathSegments path)
            = match k with 0 => 3 | 1 => 4 | _ => 6 end).
  { intros k rk vk Hk Mk. unfold NewGithubPrivateReleaseProxy in Hk.
    destruct k as [|[|[|k]]]; cbn in Hk; try discriminate;
      inversion Hk; subst rk; cbn [fst] in Mk;
      rewrite ?parse_tagged, ?parse_taggedFile, ?parse_download in Mk;
      unfold matchPattern in Mk; cbn [pat_method pat_segments] in Mk;
      apply matchSegments_length in Mk; cbn in Mk; congruence. }
  pose proof (L i ri vi Hi Mi) as Li. pose proof (L j rj vj Hj Mj) as Lj.
  rewrite Li in Lj. unfold NewGithubPrivateReleaseProxy in Hi, Hj.
  destruct i as [|[|[|i]]]; destruct j as [|[|[|j]]]; cbn in Hi, Hj;
    try discriminate; reflexivity.
Qed.

Lemma routes_do_not_overlap_witness :
  NewGithubPrivateReleaseProxy !! 1
  = Some ("/{user}/{repo}/{tag}/{file}", h_taggedFileHandler)
  /\ is_Some (matchPattern (parsePattern "/{user}/{repo}/{tag}/{file}") "GET"
                "/acme/widgets/releases/download")
  /\ matchPattern (parsePattern "/{user}/{repo}/releases/download/{tag}/{file}") "GET"
       "/acme/widgets/releases/download" = None.
Proof.
  split; [reflexivity|].
  assert (H1 : is_Some (matchPattern (parsePattern "/{user}/{repo}/{tag}/{file}") "GET"
                          "/acme/widgets/releases/download"))
    by (vm_compute; eexists; reflexivity).
  split; [exact H1|].
  destruct (matchPattern (parsePattern "/{user}/{repo}/releases/download/{tag}/{file}")
              "GET" "/acme/widgets/releases/download") as [v|] eqn:E; [|reflexivity].
  destruct H1 as [v1 E1].
  pose proof (routes_do_not_overlap "GET" "/acme/widgets/releases/download" 1 2
                ("/{user}/{repo}/{tag}/{file}", h_taggedFileHandler)
                ("/{user}/{repo}/releases/download/{tag}/{file}", h_taggedFileHandler)
                v1 v eq_refl eq_refl E1 E) as Habs.
  discriminate Habs.
Defined.

Lemma unescape_nonempty x r :
  x <> EmptyString -> unescape x = Some r -> r <> EmptyString.
Proof.
  destruct x as [|c rest]; [contradiction|]. intros _. cbn [unescape].
  destruct (Ascii.eqb c "%").
  - destruct rest as [|a [|b rest']]; try discriminate.
    destruct (unhex a), (unhex b), (unescape rest'); try discriminate.
    intros E. inversion E. discriminate.
  - destruct (unescape rest); cbn; [|discriminate]. intros E. inversion E. discriminate.
Qed.

Lemma wildcardValue_Some x v :
  wildcardValue x = Some v ->
  v = pathUnescape x /\ x <> EmptyString /\ v <> EmptyString /\ v <> "/".
Proof.
  unfold wildcardValue.
  destruct (String.eqb_spec x EmptyString) as [|Hx]; [discriminate|].
  destruct (String.eqb_spec (pathUnescape x) "/") as [|Hs]; [discriminate|].
  intros E. inversion E. split; [reflexivity|]. split; [exact Hx|]. split; [|exact Hs].
  unfold pathUnescape. destruct (unescape x) as [r|] eqn:Er; cbn; [|exact Hx].
  exact (unescape_nonempty x r Hx Er).
Qed.

(** X16.  A handler reached through the mux, which takes a path in
    canonical form, always finds its wildcards bound to the percent-decoded
    segments of the path, none of them empty: owner, repository and tag on
    every route, and the file name on the two routes of [taggedFileHandler],
    where the tag is the third segment of a four-segment path and the fifth
    of a path whose third and fourth segments decode to [releases] and
    [download].  [taggedHandler] gets no file name. *)
Theorem routed_path_values :
  forall (method path : string) (h : HandlerName) (vals : gmap string string),
    cleanPath path = path ->
    findHandler NewGithubPrivateReleaseProxy method path = Some (h, vals) ->
    exists user repo tag,
      vals !! "user" = Some (pathUnescape user)
      /\ vals !! "repo" = Some (pathUnescape repo)
      /\ vals !! "tag" = Some (pathUnescape tag)
      /\ pathUnescape user <> EmptyString
      /\ pathUnescape repo <> EmptyString
      /\ pathUnescape tag <> EmptyString
      /\ match h with
         | h_taggedHandler =>
             pathSegments path = [user; repo; tag] /\ vals !! "file" = None
         | h_taggedFileHandler =>
             exists file,
               vals !! "file" = Some (pathUnescape file)
               /\ pathUnescape file <> EmptyString
               /\ (pathSegments path = [user; repo; tag; file]
                   \/ exists l1 l2,
                        pathSegments path = [user; repo; l1; l2; tag; file]
                        /\ pathUnescape l1 = "releases"
                        /\ pathUnescape l2 = "download")
         end.
Proof.
  intros method path h vals _. rewrite findHandler_specRoute.
  generalize (pathSegments path) as segs. intros segs.
  destruct segs as [|a [|b [|c [|d [|e [|f [|g l]]]]]]]; cbn [specRoute];
    try discriminate.
  - destruct (wildcardValue a) as [u|] eqn:Ea; [|discriminate].
    destruct (wildcardValue b) as [r|] eqn:Eb; [|discriminate].
    destruct (wildcardValue c) as [t|] eqn:Ec; [|discriminate].
    apply wildcardValue_Some in Ea, Eb, Ec.
    destruct Ea as (-> & _ & Ha & _), Eb as (-> & _ & Hb & _), Ec as (-> & _ & Hc & _).
    intros E. inversion E; subst h vals. exists a, b, c.
    repeat split; solve [assumption | vm_compute; reflexivity].
  - destruct (wildcardValue a) as [u|] eqn:Ea; [|discriminate].
    destruct (wildcardValue b) as [r|] eqn:Eb; [|discriminate].
    destruct (wildcardValue c) as [t|] eqn:Ec; [|discriminate].
    destruct (wildcardValue d) as [x|] eqn:Ed; [|discriminate].
    apply wildcardValue_Some in Ea, Eb, Ec, Ed.
    destruct Ea as (-> & _ & Ha & _), Eb as (-> & _ & Hb & _), Ec as (-> & _ & Hc & _),
             Ed as (-> & _ & Hd & _).
    intros E. inversion E; subst h vals. exists a, b, c.
    split; [vm_compute; reflexivity|]. split; [vm_compute; reflexivity|].
    split; [vm_compute; reflexivity|]. repeat split; try assumption.
    exists d. split; [vm_compute; reflexivity|]. split; [assumption|].
    left. reflexivity.
  - destruct (String.eqb_spec "releases" (pathUnescape c)) as [Hc|]; [|discriminate].
    destruct (String.eqb_spec "download" (pathUnescape d)) as [Hd|]; [|discriminate].
    cbn [andb].
    destruct (wildcardValue a) as [u|] eqn:Ea; [|discriminate].
    destruct (wildcardValue b) as [r|] eqn:Eb; [|discriminate].
    destruct (wildcardValue e) as [t|] eqn:Ee; [|discriminate].
    destruct (wildcardValue f) as [x|] eqn:Ef; [|discriminate].
    apply wildcardValue_Some in Ea, Eb, Ee, Ef.
    destruct Ea as (-> & _ & Ha & _), Eb as (-> & _ & Hb & _), Ee as (-> & _ & He & _),
             Ef as (-> & _ & Hf & _).
    intros E. inversion E; subst h vals. exists a, b, e.
    split; [vm_compute; reflexivity|]. split; [vm_compute; reflexivity|].
    split; [vm_compute; reflexivity|]. repeat split; try assumption.
    exists f. split; [vm_compute; reflexivity|]. split; [assumption|].
    right. exists c, d. split; [reflexivity|]. split; symmetry; assumption.
Qed.

Lemma routed_path_values_witness :
  cleanPath "/acme/widgets/%72eleases/download/v1.2.3/my%20file.tgz"
  = "/acme/widgets/%72eleases/download/v1.2.3/my%20file.tgz"
  /\ exists vals,
       findHandler NewGithubPrivateReleaseProxy "GET"
         "/acme/widgets/%72eleases/download/v1.2.3/my%20file.tgz"
       = Some (h_taggedFileHandler, vals)
       /\ vals !! "tag" = Some "v1.2.3" /\ vals !! "file" = Some "my file.tgz".
Proof.
  assert (Hc : cleanPath "/acme/widgets/%72eleases/download/v1.2.3/my%20file.tgz"
               = "/acme/widgets/%72eleases/download/v1.2.3/my%20file.tgz")
    by (vm_compute; reflexivity).
  split; [exact Hc|].
  destruct (findHandler NewGithubPrivateReleaseProxy "GET"
              "/acme/widgets/%72eleases/download/v1.2.3/my%20file.tgz")
    as [[h vals]|] eqn:E; [|vm_compute in E; discriminate E].
  destruct (routed_path_values "GET"
              "/acme/widgets/%72eleases/download/v1.2.3/my%20file.tgz" h vals Hc E)
    as (user & repo & tag & _ & _ & Ht & _ & _ & _ & Hh).
  assert (Hh' : h = h_taggedFileHandler) by (vm_compute in E; inversion E; reflexivity).
  subst h.
  destruct Hh as (file & Hf & _ & [Hp|(l1 & l2 & Hp & _)]); vm_compute in Hp;
    inversion Hp; subst.
  exists vals. split; [reflexivity|]. split; [exact Ht | exact Hf].
Defined.

Lemma cleanSegments_plain segs : forall stack,
  forallb plainSegment segs = true ->
  cleanSegments segs stack = rev stack ++ segs.
Proof.
  induction segs as [|seg rest IH]; intros stack Hall; cbn [cleanSegments].
  - symmetry. apply app_nil_r.
  - cbn [forallb] in Hall. apply andb_prop in Hall. destruct Hall as [Hseg Hrest].
    unfold plainSegment in Hseg.
    apply andb_prop in Hseg. destruct Hseg as [Hseg H3].
    apply andb_prop in Hseg. destruct Hseg as [Hseg H2].
    apply andb_prop in Hseg. destruct Hseg as [_ H1].
    apply negb_true_iff in H1, H2, H3. rewrite H1, H2, H3.
    rewrite (IH (seg :: stack) Hrest). cbn [rev]. rewrite <- app_assoc. reflexivity.
Qed.

Lemma plainSegment_noSlash segs :
  forallb plainSegment segs = true -> forallb noSlash segs = true.
Proof.
  induction segs as [|seg rest IH]; [reflexivity|]. cbn [forallb]. intros Hall.
  apply andb_prop in Hall. destruct Hall as [Hseg Hrest].
  unfold plainSegment in Hseg.
  apply andb_prop in Hseg. destruct Hseg as [Hseg _].
  apply andb_prop in Hseg. destruct Hseg as [Hseg _].
  apply andb_prop in Hseg. destruct Hseg as [Hseg _].
  rewrite Hseg. cbn. apply IH, Hrest.
Qed.

Lemma lastChar_String a z :
  lastChar (String a z) = match z with EmptyString => Some a | _ => lastChar z end.
Proof. destruct z; reflexivity. Qed.

Lemma lastChar_app x y :
  y <> EmptyString -> lastChar (x +:+ y) = lastChar y.
Proof.
  intros Hy. induction x as [|a r IH]; [reflexivity|].
  change (String a r +:+ y) with (String a (r +:+ y)). rewrite lastChar_String.
  destruct (r +:+ y) eqn:E; [|exact IH].
  destruct r; cbn in E; [contradiction | discriminate].
Qed.

Lemma lastChar_noSlash x : noSlash x = true -> lastChar x <> Some "/"%char.
Proof.
  induction x as [|a r IH]; [discriminate|]. cbn [noSlash]. intros H.
  apply andb_prop in H. destruct H as [Ha Hr]. rewrite lastChar_String.
  destruct r; [|exact (IH Hr)].
  intros E. inversion E; subst a. discriminate Ha.
Qed.

Lemma endsWithSlash_buildPath seg rest :
  forallb plainSegment (seg :: rest) = true ->
  endsWithSlash (buildPath (seg :: rest)) = false.
Proof.
  revert seg. induction rest as [|r rs IH]; intros seg Hall.
  - cbn [forallb] in Hall. apply andb_prop in Hall. destruct Hall as [Hseg _].
    unfold plainSegment in Hseg.
    apply andb_prop in Hseg. destruct Hseg as [Hseg _].
    apply andb_prop in Hseg. destruct Hseg as [Hseg _].
    apply andb_prop in Hseg. destruct Hseg as [Hns Hne].
    cbn [buildPath]. rewrite string_app_empty_r. unfold endsWithSlash.
    rewrite lastChar_String. destruct seg as [|c z]; [discriminate Hne|].
    pose proof (lastChar_noSlash _ Hns) as Hl.
    destruct (lastChar (String c z)) as [x|]; [|reflexivity].
    destruct (Ascii.eqb_spec x "/"); [subst x; contradiction | reflexivity].
  - cbn [forallb] in Hall. apply andb_prop in Hall. destruct Hall as [_ Hrest].
    specialize (IH r Hrest). cbn [buildPath] in *. unfold endsWithSlash in *.
    rewrite lastChar_String.
    destruct (seg +:+ String "/" (r +:+ buildPath rs)) eqn:E.
    { destruct seg; cbn in E; discriminate. }
    rewrite <- E. rewrite lastChar_app by discriminate. exact IH.
Qed.

(** A path made of plain segments is in canonical form. *)
Lemma cleanPath_buildPath seg rest :
  forallb plainSegment (seg :: rest) = true ->
  cleanPath (buildPath (seg :: rest)) = buildPath (seg :: rest).
Proof.
  intros Hall. pose proof (endsWithSlash_buildPath seg rest Hall) as He.
  pose proof (pathSegments_buildPath (seg :: rest) (plainSegment_noSlash _ Hall)) as Hp.
  pose proof (cleanSegments_plain (seg :: rest) [] Hall) as Hc. cbn [rev app] in Hc.
  unfold cleanPath.
  change (buildPath (seg :: rest)) with (String "/" (seg +:+ buildPath rest)) in *.
  cbv beta iota. change (Ascii.eqb "/" "/") with true. cbv beta iota.
  rewrite Hp, Hc, He. reflexivity.
Qed.

(** X17.  The download route is an alias of the tag-and-file route: for
    owner, repository, tag and file name that are plain segments (not empty,
    free of slashes, neither [.] nor [..]) and a method other than CONNECT, a
    request for [/owner/repo/releases/download/tag/file] is served exactly
    like one for [/owner/repo/tag/file], with the same response and the same
    upstream traffic. *)
Theorem download_route_is_alias :
  forall (W : World) (tm : TokenManager) (w : ResponseWriter) (s : State)
         (method user repo tag file : string),
    method <> "CONNECT" ->
    forallb plainSegment [user; repo; tag; file] = true ->
    ServeHTTP W tm w
      (inbound method (buildPath [user; repo; "releases"; "download"; tag; file])) s
    = ServeHTTP W tm w (inbound method (buildPath [user; repo; tag; file])) s.
Proof.
  intros W tm w s method user repo tag file _ Hall.
  assert (Hall6 : forallb plainSegment [user; repo; "releases"; "download"; tag; file]
                  = true).
  { cbn [forallb] in *. destruct (andb_prop _ _ Hall) as [Hu H1].
    destruct (andb_prop _ _ H1) as [Hr H2]. destruct (andb_prop _ _ H2) as [Ht H3].
    destruct (andb_prop _ _ H3) as [Hf _]. rewrite Hu, Hr, Ht, Hf. reflexivity. }
  rewrite !ServeHTTP_dispatch. unfold inbound. cbn [Method URL].
  rewrite (cleanPath_buildPath _ _ Hall), (cleanPath_buildPath _ _ Hall6).
  rewrite !String.eqb_refl.
  rewrite (pathSegments_buildPath _ (plainSegment_noSlash _ Hall)),
          (pathSegments_buildPath _ (plainSegment_noSlash _ Hall6)).
  cbn [specRoute].
  change (String.eqb "releases" (pathUnescape "releases")) with true.
  change (String.eqb "download" (pathUnescape "download")) with true.
  cbn [andb].
  destruct (wildcardValue user), (wildcardValue repo), (wildcardValue tag),
           (wildcardValue file); reflexivity.
Qed.

Lemma download_route_is_alias_witness :
  "GET" <> "CONNECT"
  /\ forallb plainSegment ["acme"; "widgets"; "v1.2.3"; "checksums.txt"] = true
  /\ buildPath ["acme"; "widgets"; "releases"; "download"; "v1.2.3"; "checksums.txt"]
     = "/acme/widgets/releases/download/v1.2.3/checksums.txt"
  /\ ServeHTTP acmeWorld dynamicManager newResponseWriter
       (inbound "GET" "/acme/widgets/releases/download/v1.2.3/checksums.txt") startState
     = ServeHTTP acmeWorld dynamicManager newResponseWriter
         (inbound "GET" "/acme/widgets/v1.2.3/checksums.txt") startState.
Proof.
  assert (Hm : "GET" <> "CONNECT") by discriminate.
  split; [exact Hm|]. split; [reflexivity|]. split; [reflexivity|].
  apply (download_route_is_alias acmeWorld dynamicManager newResponseWriter startState
           "GET" "acme" "widgets" "v1.2.3" "checksums.txt" Hm eq_refl).
Defined.

(** * The single-source proxy *)







(** * config.go and main.go *)

Lemma loadConfigFrom_first H fs dir : forall i name loader,
  fs !! i = Some (name, loader) ->
  is_Ok (os_Stat H (filepath_Join H dir name)) = true ->
  (forall j n l, j < i -> fs !! j = Some (n, l) ->
     is_Ok (os_Stat H (filepath_Join H dir n)) = false) ->
  loadConfigFrom H fs dir
  = match loader (filepath_Join H dir name) with
    | Err e => Err e
    | Ok raw => Ok (applyDefaults raw)
    end.
Proof.
  induction fs as [|[n0 l0] rest IH]; intros i name loader Hi Hex Hbefore.
  - rewrite lookup_nil in Hi. discriminate.
  - destruct i as [|i]; cbn in Hi; cbn [loadConfigFrom].
    + inversion Hi; subst n0 l0.
      destruct (os_Stat H (filepath_Join H dir name)); [reflexivity | discriminate].
    + pose proof (Hbefore 0 n0 l0 ltac:(lia) eq_refl) as H0.
      destruct (os_Stat H (filepath_Join H dir n0)); [discriminate|].
      apply (IH i name loader Hi Hex).
      intros j n l Hj Hl. apply (Hbefore (S j) n l); [lia | exact Hl].
Qed.

Lemma loadConfigFrom_none H fs dir :
  (forall i n l, fs !! i = Some (n, l) ->
     is_Ok (os_Stat H (filepath_Join H dir n)) = false) ->
  loadConfigFrom H fs dir
  = Err ("no config file found in " +:+ dir
         +:+ " (tried config.pklbin, config.pkl, config.json)").
Proof.
  induction fs as [|[n0 l0] rest IH]; intros Hnone; cbn [loadConfigFrom]; [reflexivity|].
  pose proof (Hnone 0 n0 l0 eq_refl) as H0.
  destruct (os_Stat H (filepath_Join H dir n0)); [discriminate|].
  apply IH. intros i n l Hi. apply (Hnone (S i) n l Hi).
Qed.

(** X19.  [loadConfig] reads the first file of the list config.pklbin,
    config.pkl, config.json that exists in the directory, and that file
    only: if it loads, the result is its content with the defaults applied;
    if it does not, the loader's error is returned even when a file further
    down the list exists and would load.  When none of the three exists the
    error names the directory. *)
Theorem loadConfig_first_existing :
  forall (H : Host) (dir : string),
    (forall i name loader,
       configFiles H !! i = Some (name, loader) ->
       is_Ok (os_Stat H (filepath_Join H dir name)) = true ->
       (forall j n l, j < i -> configFiles H !! j = Some (n, l) ->
          is_Ok (os_Stat H (filepath_Join H dir n)) = false) ->
       loadConfig H dir
       = match loader (filepath_Join H dir name) with
         | Err e => Err e
         | Ok raw => Ok (applyDefaults raw)
         end)
    /\ ((forall i n l, configFiles H !! i = Some (n, l) ->
           is_Ok (os_Stat H (filepath_Join H dir n)) = false) ->
        loadConfig H dir
        = Err ("no config file found in " +:+ dir
               +:+ " (tried config.pklbin, config.pkl, config.json)")).
Proof.
  intros H dir. split.
  - intros i name loader. apply loadConfigFrom_first.
  - apply loadConfigFrom_none.
Qed.

Lemma applyDefaults_address raw :
  appconfig.ListenAddress (applyDefaults raw) <> EmptyString
  /\ (appconfig.ListenAddress raw <> EmptyString -> applyDefaults raw = raw)
  /\ (appconfig.ListenAddress raw = EmptyString ->
      appconfig.ListenAddress (applyDefaults raw) = "localhost:9443").
Proof.
  unfold applyDefaults.
  destruct (String.eqb_spec (appconfig.ListenAddress raw) EmptyString) as [E|E]; cbn.
  - split; [discriminate|]. split; [contradiction | reflexivity].
  - split; [exact E|]. split; [reflexivity | contradiction].
Qed.

(** A configuration that comes out of the loop is what the loader of the
    first existing file produced, with the defaults applied. *)
Lemma loadConfigFrom_loaded H fs dir cfg :
  loadConfigFrom H fs dir = Ok cfg ->
  exists i name loader raw,
    fs !! i = Some (name, loader)
    /\ is_Ok (os_Stat H (filepath_Join H dir name)) = true
    /\ (forall j n l, j < i -> fs !! j = Some (n, l) ->
          is_Ok (os_Stat H (filepath_Join H dir n)) = false)
    /\ loader (filepath_Join H dir name) = Ok raw
    /\ cfg = applyDefaults raw.
Proof.
  induction fs as [|[n0 l0] rest IH]; cbn [loadConfigFrom]; [discriminate|].
  destruct (os_Stat H (filepath_Join H dir n0)) as [d|e] eqn:Est.
  - destruct (l0 (filepath_Join H dir n0)) as [raw|e] eqn:El; [|discriminate].
    intros E. inversion E. exists 0, n0, l0, raw.
    split; [reflexivity|]. split; [rewrite Est; reflexivity|].
    split; [intros j n l Hj; lia|]. split; [exact El | reflexivity].
  - intros E. destruct (IH E) as (i & name & loader & raw & Hi & Hex & Hbefore & Hl & Hc).
    exists (S i), name, loader, raw. split; [exact Hi|]. split; [exact Hex|].
    split; [|split; assumption].
    intros [|j] n l Hj Hjl; cbn in Hjl.
    + inversion Hjl; subst n l. rewrite Est. reflexivity.
    + apply (Hbefore j n l); [lia | exact Hjl].
Qed.

(** X20.  A configuration returned by [loadConfig] never has an empty
    listen address.  It is what the loader of the first existing file of the
    list produced for that file: unchanged if that already named an address,
    and otherwise with the address set to localhost:9443 and every other
    field untouched. *)
Theorem loadConfig_listen_address :
  forall (H : Host) (dir : string) (cfg : appconfig.AppConfig),
    loadConfig H dir = Ok cfg ->
    appconfig.ListenAddress cfg <> EmptyString
    /\ exists (i : nat) (name : string) (loader : string -> result appconfig.AppConfig)
              (raw : appconfig.AppConfig),
         configFiles H !! i = Some (name, loader)
         /\ is_Ok (os_Stat H (filepath_Join H dir name)) = true
         /\ (forall j n l, j < i -> configFiles H !! j = Some (n, l) ->
               is_Ok (os_Stat H (filepath_Join H dir n)) = false)
         /\ loader (filepath_Join H dir name) = Ok raw
         /\ (appconfig.ListenAddress raw <> EmptyString -> cfg = raw)
         /\ (appconfig.ListenAddress raw = EmptyString ->
             cfg = {| appconfig.PrivateKey := appconfig.PrivateKey raw;
                      appconfig.AppId := appconfig.AppId raw;
                      appconfig.ClientId := appconfig.ClientId raw;
                      appconfig.InstallationId := appconfig.InstallationId raw;
                      appconfig.ListenAddress := "localhost:9443" |}).
Proof.
  intros H dir cfg E. apply loadConfigFrom_loaded in E.
  destruct E as (i & name & loader & raw & Hi & Hex & Hbefore & Hl & ->).
  destruct (applyDefaults_address raw) as (Hne & Hkeep & _).
  split; [exact Hne|]. exists i, name, loader, raw.
  split; [exact Hi|]. split; [exact Hex|]. split; [exact Hbefore|].
  split; [exact Hl|]. split; [exact Hkeep|].
  intros Hempty. unfold applyDefaults. rewrite Hempty. reflexivity.
Qed.

Lemma loadConfig_listen_address_witness :
  loadConfig sampleHost "/home/u/.config/pkl-proxy"
  = Ok {| appconfig.PrivateKey := "app.pem"; appconfig.AppId := Some 1%Z;
          appconfig.ClientId := None; appconfig.InstallationId := None;
          appconfig.ListenAddress := ":9443" |}
  /\ ":9443" <> EmptyString.
Proof.
  assert (E : loadConfig sampleHost "/home/u/.config/pkl-proxy"
              = Ok {| appconfig.PrivateKey := "app.pem"; appconfig.AppId := Some 1%Z;
                      appconfig.ClientId := None; appconfig.InstallationId := None;
                      appconfig.ListenAddress := ":9443" |})
    by (vm_compute; reflexivity).
  split; [exact E|].
  exact (proj1 (loadConfig_listen_address sampleHost "/home/u/.config/pkl-proxy" _ E)).
Defined.

(** X21.  [findConfigDir] only ever returns a path that [os.Stat]
    reports as a directory, and it is either [pkl-proxy] under the user
    configuration directory or, when that one is not an existing directory,
    [.pkl-proxy] under the home directory. *)
Theorem findConfigDir_existing_directory :
  forall (H : Host) (dir : string),
    findConfigDir H = Ok dir ->
    os_Stat H dir = Ok true
    /\ ((exists xdgDir, os_UserConfigDir H = Ok xdgDir
                        /\ dir = filepath_Join H xdgDir "pkl-proxy")
        \/ (exists homeDir, os_UserHomeDir H = Ok homeDir
                            /\ dir = filepath_Join H homeDir ".pkl-proxy"
                            /\ forall xdgDir, os_UserConfigDir H = Ok xdgDir ->
                                 os_Stat H (filepath_Join H xdgDir "pkl-proxy") <> Ok true)).
Proof.
  intros H dir. unfold findConfigDir.
  assert (Hfb : forall (Hx : forall xdgDir, os_UserConfigDir H = Ok xdgDir ->
                           os_Stat H (filepath_Join H xdgDir "pkl-proxy") <> Ok true),
            match os_UserHomeDir H with
            | Ok homeDir =>
                match os_Stat H (filepath_Join H homeDir ".pkl-proxy") with
                | Ok true => Ok (filepath_Join H homeDir ".pkl-proxy")
                | _ => Err "config directory not found: create one at $XDG_CONFIG_HOME/pkl-proxy or ~/.pkl-proxy"
                end
            | Err _ => Err "config directory not found: create one at $XDG_CONFIG_HOME/pkl-proxy or ~/.pkl-proxy"
            end = Ok dir ->
            os_Stat H dir = Ok true
            /\ ((exists xdgDir, os_UserConfigDir H = Ok xdgDir
                                /\ dir = filepath_Join H xdgDir "pkl-proxy")
                \/ (exists homeDir, os_UserHomeDir H = Ok homeDir
                      /\ dir = filepath_Join H homeDir ".pkl-proxy"
                      /\ forall xdgDir, os_UserConfigDir H = Ok xdgDir ->
                           os_Stat H (filepath_Join H xdgDir "pkl-proxy") <> Ok true))).
  { intros Hx. destruct (os_UserHomeDir H) as [home|e]; [|discriminate].
    destruct (os_Stat H (filepath_Join H home ".pkl-proxy")) as [[|]|e] eqn:Es;
      try discriminate.
    intros E. inversion E; subst dir. split; [exact Es|]. right.
    exists home. repeat split. exact Hx. }
  destruct (os_UserConfigDir H) as [xdg|e] eqn:Ex.
  - destruct (os_Stat H (filepath_Join H xdg "pkl-proxy")) as [[|]|e] eqn:Es.
    + intros E. inversion E; subst dir. split; [exact Es|]. left.
      exists xdg. split; reflexivity.
    + apply Hfb. intros x Hxd. inversion Hxd; subst x. rewrite Es. discriminate.
    + apply Hfb. intros x Hxd. inversion Hxd; subst x. rewrite Es. discriminate.
  - apply Hfb. intros x Hxd. discriminate.
Qed.

Lemma findConfigDir_existing_directory_witness :
  findConfigDir sampleHost = Ok "/home/u/.config/pkl-proxy"
  /\ os_Stat sampleHost "/home/u/.config/pkl-proxy" = Ok true.
Proof.
  assert (E : findConfigDir sampleHost = Ok "/home/u/.config/pkl-proxy")
    by (vm_compute; reflexivity).
  split; [exact E|].
  exact (proj1 (findConfigDir_existing_directory sampleHost _ E)).
Defined.

(** [startProxy] with its local steps spelled out. *)
Lemma startProxy_run H W s :
  startProxy H W s
  = match findConfigDir H with
    | Err e => (Err e, s)
    | Ok dir =>
        match loadConfig H dir with
        | Err e => (Err e, s)
        | Ok cfg =>
            match os_ReadFile H (privateKeyPath H dir cfg) with
            | Err e => (Err ("reading private key file: " +:+ e), s)
            | Ok key =>
                match buildTokenSource W (coreConfig cfg) key s with
                | (Err e, s') => (Err e, s')
                | (Ok ts, s') =>
                    (Ok ({| Addr := appconfig.ListenAddress cfg; HandlerSource := ts |},
                         if String.prefix ":" (appconfig.ListenAddress cfg)
                         then "localhost" +:+ appconfig.ListenAddress cfg
                         else appconfig.ListenAddress cfg), s')
                end
            end
        end
    end.
Proof.
  unfold startProxy, bind, lift, wrapErr, ret. fold (privateKeyPath H).
  destruct (findConfigDir H) as [dir|e]; [|reflexivity].
  destruct (loadConfig H dir) as [cfg|e]; [|reflexivity].
  unfold privateKeyPath.
  destruct (os_ReadFile H _) as [key|e]; [|reflexivity].
  destruct (buildTokenSource W (coreConfig cfg) key s) as [[ts|e] s']; reflexivity.
Qed.

(** X22.  The address that [startProxy] hands on for the child's
    environment is never empty and never starts with a colon: it is the
    server's listen address, with [localhost] put in front when that address
    is a bare port; and the listen address itself is never empty. *)
Theorem startProxy_listen_address :
  forall (H : Host) (W : World) (s : State) (svr : Server) (listenAddr : string),
    fst (startProxy H W s) = Ok (svr, listenAddr) ->
    Addr svr <> EmptyString
    /\ listenAddr <> EmptyString
    /\ String.prefix ":" listenAddr = false
    /\ listenAddr = (if String.prefix ":" (Addr svr)
                     then "localhost" +:+ Addr svr else Addr svr).
Proof.
  intros H W s svr listenAddr. rewrite startProxy_run.
  destruct (findConfigDir H) as [dir|e]; [|discriminate].
  destruct (loadConfig H dir) as [cfg|e] eqn:Ecfg; [|discriminate].
  destruct (os_ReadFile H _) as [key|e]; [|discriminate].
  destruct (buildTokenSource W (coreConfig cfg) key s) as [[ts|e] s']; [|discriminate].
  cbn [fst]. intros E. inversion E; subst svr listenAddr. cbn [Addr].
  destruct (loadConfig_listen_address H dir cfg Ecfg) as [Hne _].
  split; [exact Hne|].
  destruct (String.prefix ":" (appconfig.ListenAddress cfg)) eqn:Ep.
  - split; [discriminate|]. split; reflexivity.
  - split; [exact Hne|]. split; [exact Ep | reflexivity].
Qed.

Lemma startProxy_listen_address_witness :
  fst (startProxy sampleHost acmeWorld blankState)
  = Ok ({| Addr := ":9443"; HandlerSource := 1 |}, "localhost:9443")
  /\ String.prefix ":" "localhost:9443" = false.
Proof.
  assert (E : fst (startProxy sampleHost acmeWorld blankState)
              = Ok ({| Addr := ":9443"; HandlerSource := 1 |}, "localhost:9443"))
    by (vm_compute; reflexivity).
  split; [exact E|].
  destruct (startProxy_listen_address sampleHost acmeWorld blankState _ _ E)
    as (_ & _ & Hp & _).
  exact Hp.
Defined.

(** X23.  When [startProxy] returns a server, a configuration directory
    was found, a configuration was loaded from it and the key file was read;
    the server listens on the configured address, and its handler holds the
    installation token source that [buildTokenSource] created from that
    configuration and key, the last of the two objects allocated.  The cache
    is as it was. *)
Theorem startProxy_success :
  forall (H : Host) (W : World) (s : State) (svr : Server) (listenAddr : string),
    let s' := snd (startProxy H W s) in
    fst (startProxy H W s) = Ok (svr, listenAddr) ->
    exists dir cfg key ident id,
      findConfigDir H = Ok dir
      /\ loadConfig H dir = Ok cfg
      /\ os_ReadFile H (privateKeyPath H dir cfg) = Ok key
      /\ Addr svr = appconfig.ListenAddress cfg
      /\ configIdent (coreConfig cfg) = Some ident
      /\ heap s' = heap s ++ [ApplicationTS ident key;
                              InstallationTS id (List.length (heap s))]
      /\ heap s' !! HandlerSource svr = Some (InstallationTS id (List.length (heap s)))
      /\ cache s' = cache s.
Proof.
  intros H W s svr listenAddr s'. subst s'. rewrite startProxy_run.
  destruct (findConfigDir H) as [dir|e] eqn:Ed; [|discriminate].
  destruct (loadConfig H dir) as [cfg|e] eqn:Ec; [|discriminate].
  destruct (os_ReadFile H (privateKeyPath H dir cfg)) as [key|e] eqn:Ek; [|discriminate].
  destruct (buildTokenSource W (coreConfig cfg) key s) as [[ts|e] sb] eqn:Eb;
    [|discriminate].
  cbn [fst snd]. intros E. inversion E; subst svr listenAddr. cbn [Addr HandlerSource].
  destruct (buildTokenSource_success W (coreConfig cfg) key s ts)
    as (ident & id & Hid & _ & Hts & Hh & Hc & _).
  { rewrite Eb. reflexivity. }
  rewrite Eb in Hh, Hc. cbn [snd] in Hh, Hc.
  exists dir, cfg, key, ident, id.
  split; [reflexivity|]. split; [exact Ec|]. split; [exact Ek|].
  split; [reflexivity|]. split; [exact Hid|]. split; [exact Hh|].
  split; [|exact Hc].
  rewrite Hh, Hts.
  change (heap s ++ [ApplicationTS ident key; InstallationTS id (List.length (heap s))])
    with (heap s ++ [ApplicationTS ident key]
                 ++ [InstallationTS id (List.length (heap s))]).
  rewrite app_assoc. apply list_lookup_middle. rewrite length_app. cbn. lia.
Qed.

Lemma startProxy_success_witness :
  fst (startProxy sampleHost acmeWorld blankState)
  = Ok ({| Addr := ":9443"; HandlerSource := 1 |}, "localhost:9443")
  /\ exists id, heap (snd (startProxy sampleHost acmeWorld blankState)) !! 1
                = Some (InstallationTS id 0).
Proof.
  assert (E : fst (startProxy sampleHost acmeWorld blankState)
              = Ok ({| Addr := ":9443"; HandlerSource := 1 |}, "localhost:9443"))
    by (vm_compute; reflexivity).
  split; [exact E|].
  destruct (startProxy_success sampleHost acmeWorld blankState _ _ E)
    as (dir & cfg & key & ident & id & _ & _ & _ & _ & _ & _ & Hh & _).
  exists id. exact Hh.
Defined.

(** X24.  [startProxy] asks nothing of the provider before its local
    configuration is complete: when no configuration directory is found, no
    configuration loads, or the private key cannot be read, it returns the
    error with the state untouched, so no token source exists and nothing was
    sent; and it fails in every case in which [buildTokenSource] fails. *)
Theorem startProxy_needs_local_configuration :
  forall (H : Host) (W : World) (s : State),
    match findConfigDir H with
    | Err e => startProxy H W s = (Err e, s)
    | Ok dir =>
        match loadConfig H dir with
        | Err e => startProxy H W s = (Err e, s)
        | Ok cfg =>
            match os_ReadFile H (privateKeyPath H dir cfg) with
            | Err e => startProxy H W s = (Err ("reading private key file: " +:+ e), s)
            | Ok key =>
                snd (startProxy H W s) = snd (buildTokenSource W (coreConfig cfg) key s)
                /\ is_Ok (fst (startProxy H W s))
                   = is_Ok (fst (buildTokenSource W (coreConfig cfg) key s))
            end
        end
    end.
Proof.
  intros H W s. rewrite startProxy_run.
  destruct (findConfigDir H) as [dir|e]; [|reflexivity].
  destruct (loadConfig H dir) as [cfg|e]; [|reflexivity].
  destruct (os_ReadFile H (privateKeyPath H dir cfg)) as [key|e]; [|reflexivity].
  destruct (buildTokenSource W (coreConfig cfg) key s) as [[ts|e] sb]; split; reflexivity.
Qed.

(** X25.  [cmdRun] is never handed an empty command line, so its
    [args[0]] is always in range: whenever [main] decides to run a command,
    the command line is non-empty and is either what follows an explicit
    [run] or the whole argument list, whose first word is then none of the
    subcommand names. *)
Theorem main_run_dispatch :
  forall (args l : list string),
    main args = ActRun l ->
    l <> []
    /\ exists prog cmd rest,
         args = prog :: cmd :: rest
         /\ ((cmd = "run" /\ l = rest) \/ (isCommand cmd = false /\ l = cmd :: rest)).
Proof.
  intros args l. destruct args as [|prog [|cmd rest]]; cbn [main]; try discriminate.
  unfold isCommand.
  destruct (String.eqb_spec cmd "install");
    [destruct rest; discriminate|].
  destruct (String.eqb_spec cmd "uninstall");
    [destruct rest; discriminate|].
  destruct (String.eqb_spec cmd "settings").
  { destruct rest as [|sub r]; [discriminate|].
    destruct (String.eqb sub "install"); [discriminate|].
    destruct (String.eqb sub "uninstall"); discriminate. }
  destruct (String.eqb_spec cmd "daemon"); [discriminate|].
  destruct (String.eqb_spec cmd "run") as [Er|Er].
  - destruct rest as [|a r]; [discriminate|]. intros E. inversion E; subst l.
    split; [discriminate|]. exists prog, cmd, (a :: r). split; [reflexivity|].
    left. split; [exact Er | reflexivity].
  - intros E. inversion E; subst l. split; [discriminate|].
    exists prog, cmd, rest. split; [reflexivity|]. right. split; [|reflexivity].
    unfold isCommand.
    repeat match goal with
           | Hn : cmd <> ?k |- _ =>
               rewrite (proj2 (String.eqb_neq cmd k) Hn); clear Hn
           end.
    reflexivity.
Qed.

Lemma main_run_dispatch_witness :
  main ["pkl-proxy"; "run"; "pkl"; "eval"] = ActRun ["pkl"; "eval"]
  /\ ["pkl"; "eval"] <> [].
Proof.
  assert (E : main ["pkl-proxy"; "run"; "pkl"; "eval"] = ActRun ["pkl"; "eval"])
    by reflexivity.
  split; [exact E|]. exact (proj1 (main_run_dispatch _ _ E)).
Defined.

(** X26.  A first argument that is none of the subcommand names is taken
    as the command to run: [pkl-proxy cmd args...] does exactly what
    [pkl-proxy run cmd args...] does, which is to run [cmd args...]. *)
Theorem main_implicit_run :
  forall (prog cmd : string) (rest : list string),
    isCommand cmd = false ->
    main (prog :: cmd :: rest) = ActRun (cmd :: rest)
    /\ main (prog :: "run" :: cmd :: rest) = main (prog :: cmd :: rest).
Proof.
  intros prog cmd rest Hc. unfold isCommand in Hc.
  repeat (apply orb_false_elim in Hc; destruct Hc as [Hc ?]).
  assert (E : main (prog :: cmd :: rest) = ActRun (cmd :: rest)).
  { cbn [main].
    repeat match goal with Hx : String.eqb cmd _ = false |- _ => rewrite Hx; clear Hx end.
    reflexivity. }
  split; [exact E|]. rewrite E. reflexivity.
Qed.

Lemma main_implicit_run_witness :
  isCommand "pkl" = false
  /\ main ["pkl-proxy"; "pkl"; "project"; "resolve"] = ActRun ["pkl"; "project"; "resolve"].
Proof.
  split; [reflexivity|].
  exact (proj1 (main_implicit_run "pkl-proxy" "pkl" ["project"; "resolve"] eq_refl)).
Defined.
